(** * Convert-Markdown: the HTML post-processing pipeline and its orchestration

    A shallow embedding of [Convert-md/convert-md.py] (class [ConvertMD]):
    the reference normaliser [to_uri_if_exists], the regular-expression
    rewriter [rewrite_local_urls_to_file_uri], the webp transcoder, the
    sanitiser and the per-file orchestrator [convert_one_file].

    Python [str] values are lists of Unicode code points; [bytes] values are
    lists of numbers below 256.  Functions of the Python standard library
    whose result depends on tables or on the operating system ([urlsplit],
    [unquote], [Path.resolve], [Path.as_uri], the Unicode alphanumeric table
    behind the regular-expression anchor [\b]) are fields of the record
    [pylib]; everything written in the script itself is a definition. *)

From Stdlib Require Import NArith List Lia Bool String Ascii Sorting Permutation.
From stdpp Require Import base list gmap.
Import ListNotations.

Local Open Scope N_scope.

(** ** Python strings *)

Definition char := N.
Definition str := list char.

Definition lit (s : string) : str := map N_of_ascii (list_ascii_of_string s).

Definition dq : char := 34.   (* the double quote *)
Definition sq : char := 39.   (* the single quote *)
Definition nl : char := 10.   (* line feed *)
Definition slash : char := 47.
Definition comma : char := 44.
Definition space : char := 32.
Definition hash : char := 35.

(** [str.isspace] on one code point (the Unicode white-space set that
    [str.strip()] and [str.split()] use). *)
Definition isspace (c : char) : bool :=
  existsb (N.eqb c)
    [9; 10; 11; 12; 13; 28; 29; 30; 31; 32; 133; 160; 5760;
     8192; 8193; 8194; 8195; 8196; 8197; 8198; 8199; 8200; 8201; 8202;
     8232; 8233; 8239; 8287; 12288].

Fixpoint drop_while (p : char -> bool) (s : str) : str :=
  match s with
  | [] => []
  | c :: s' => if p c then drop_while p s' else s
  end.

Definition lstrip_ws (s : str) : str := drop_while isspace s.
Definition rstrip_ws (s : str) : str := rev (drop_while isspace (rev s)).
(** [s.strip()] *)
Definition strip (s : str) : str := rstrip_ws (lstrip_ws s).
(** [s.lstrip("/")] *)
Definition lstrip_slash (s : str) : str := drop_while (N.eqb slash) s.

(** [s.startswith(p)] *)
Fixpoint startswith (p s : str) : bool :=
  match p, s with
  | [], _ => true
  | a :: p', b :: s' => (a =? b) && startswith p' s'
  | _ :: _, [] => false
  end.

(** [s.split(sep)] for a one-character separator: always at least one piece. *)
Fixpoint split_char (sep : char) (s : str) : list str :=
  match s with
  | [] => [[]]
  | c :: s' =>
      if c =? sep then [] :: split_char sep s'
      else match split_char sep s' with
           | x :: xs => (c :: x) :: xs
           | [] => [[c]]
           end
  end.

(** [s.split()]: the maximal runs of non-space characters. *)
Fixpoint split_ws (s : str) : list str :=
  match s with
  | [] => []
  | c :: s' =>
      if isspace c then split_ws s'
      else match s' with
           | [] => [[c]]
           | d :: _ =>
               if isspace d then [c] :: split_ws s'
               else match split_ws s' with
                    | t :: ts => (c :: t) :: ts
                    | [] => [[c]]
                    end
           end
  end.

(** [sep.join(parts)] *)
Fixpoint join (sep : str) (parts : list str) : str :=
  match parts with
  | [] => []
  | [x] => x
  | x :: rest => x ++ sep ++ join sep rest
  end.

(** [s.replace(old, new)] for a non-empty [old]: the leftmost occurrences,
    not overlapping.  [skip] counts the characters of an occurrence that was
    already replaced and are still to be passed over. *)
Fixpoint replace_from (old new : str) (skip : nat) (s : str) : str :=
  match s with
  | [] => []
  | c :: s' =>
      match skip with
      | S k => replace_from old new k s'
      | O =>
          if startswith old s then new ++ replace_from old new (length old - 1) s'
          else c :: replace_from old new 0 s'
      end
  end.

Definition replace (old new s : str) : str := replace_from old new 0 s.

(** [a == b] *)
Definition str_eqb (a b : str) : bool := bool_decide (a = b).

(** [needle in s] *)
Fixpoint contains (needle s : str) : bool :=
  startswith needle s ||
  match s with
  | [] => false
  | _ :: s' => contains needle s'
  end.

(** ** The standard-library and operating-system interface *)

Definition path := str.   (* a [pathlib.Path], by its string form *)

Record pylib := {
  (** [\w] of the [re] module on [str] patterns (Unicode alphanumerics and
      the underscore) *)
  is_word : char -> bool;
  (** [urllib.parse.urlsplit(u).path]; [None] when [urlsplit] raises *)
  urlsplit_path : str -> option str;
  (** [urllib.parse.unquote] *)
  unquote : str -> str;
  (** [Path(u)] *)
  mkpath : str -> path;
  (** [p / u] *)
  joinpath : path -> str -> path;
  (** [p.resolve()] *)
  resolve : path -> path;
  (** [p.as_uri()] *)
  as_uri : path -> str;
  (** [p.stem] *)
  stem : path -> str;
  (** [p.parent] *)
  parent : path -> path;
  (** [p.with_name(name)] *)
  with_name : path -> str -> path;
  (** [p.with_suffix(suffix)] *)
  with_suffix : path -> str -> path
}.

(** ** 4.1 The reference normaliser *)

Definition kw_http : str := Eval cbv in lit "http://".
Definition kw_https : str := Eval cbv in lit "https://".
Definition kw_data : str := Eval cbv in lit "data:".
Definition kw_mailto : str := Eval cbv in lit "mailto:".
Definition kw_file : str := Eval cbv in lit "file://".

Definition should_keep (url : str) : bool :=
  let u := strip url in
  match u with [] => true | _ :: _ => false end
  || startswith [hash] u
  || startswith kw_http u
  || startswith kw_https u
  || startswith kw_data u
  || startswith kw_mailto u
  || startswith kw_file u.

Definition is_ascii_letter (c : char) : bool :=
  ((65 <=? c) && (c <=? 90)) || ((97 <=? c) && (c <=? 122)).

Definition is_digit (c : char) : bool := (48 <=? c) && (c <=? 57).

(** The characters [urllib.parse.quote] never escapes: letters, digits and
    [_.-~]. *)
Definition always_safe (c : char) : bool :=
  is_ascii_letter c || is_digit c || existsb (N.eqb c) [95; 46; 45; 126].

(** The characters of the part of a [file:] locator that [as_uri] builds:
    the safe ones, the slash, the percent sign of an escape and the colon of
    a drive. *)
Definition uri_char (c : char) : bool :=
  always_safe c || existsb (N.eqb c) [47; 37; 58].

(** [re.match(r"^[a-zA-Z]:/", u)] *)
Definition drive_letter_abs (u : str) : bool :=
  match u with
  | c :: 58 :: 47 :: _ => is_ascii_letter c
  | _ => false
  end.

Section Normalizer.
Variable L : pylib.
(** [candidate.is_file()] on the file system as it is during the pass *)
Variable is_file : path -> bool.
Variable base_dir : path.

Definition normalize_local_path (url : str) : str :=
  let u := strip url in
  let u := match urlsplit_path L u with
           | Some p => p
           | None => u
           end in
  let u := unquote L u in
  map (fun c => if c =? 92 then slash else c) u.

Definition to_uri_if_exists (url : str) : str :=
  if should_keep url then url
  else
    let u := normalize_local_path url in
    if drive_letter_abs u then as_uri L (resolve L (mkpath L u))
    else
      let candidate := resolve L (joinpath L base_dir u) in
      if is_file candidate then as_uri L candidate
      else if startswith [slash] u then
        let candidate2 := resolve L (joinpath L base_dir (lstrip_slash u)) in
        if is_file candidate2 then as_uri L candidate2 else url
      else url.
End Normalizer.

(** What [Path.as_uri] guarantees on every platform: the scheme [file://]
    followed by escaped text. *)
Definition as_uri_law (L : pylib) : Prop :=
  forall p : path, exists t : str,
    as_uri L p = kw_file ++ t /\ forallb uri_char t = true.

(** ** 4.2 The HTML rewriter *)

(** Case-insensitive equality of the [re] module ([re.IGNORECASE] on a [str]
    pattern) for a pattern character [p] that is a lower-case ASCII letter
    or a punctuation mark: besides the two ASCII cases, [s] also matches
    U+017F and [i] also matches U+0130 and U+0131. *)
Definition ci_eq (p c : char) : bool :=
  (c =? p)
  || (((97 <=? p) && (p <=? 122)) && (c =? p - 32))
  || ((p =? 115) && (c =? 383))
  || ((p =? 105) && ((c =? 304) || (c =? 305))).

Fixpoint startswith_ci (p s : str) : bool :=
  match p, s with
  | [], _ => true
  | a :: p', b :: s' => ci_eq a b && startswith_ci p' s'
  | _ :: _, [] => false
  end.

Definition is_quote (c : char) : bool := (c =? dq) || (c =? sq).

(** The group [(.*?)] followed by the back-reference [\2]: the shortest run
    of characters other than the line feed that ends just before the quote
    [q]; [None] when the line or the text ends first. *)
Fixpoint lazy_value (q : char) (s : str) : option str :=
  match s with
  | [] => None
  | c :: s' =>
      if c =? q then Some []
      else if c =? nl then None
      else option_map (cons c) (lazy_value q s')
  end.

Definition kw_src : str := Eval cbv in lit "src=".
Definition kw_href : str := Eval cbv in lit "href=".
Definition kw_srcset : str := Eval cbv in lit "srcset=".

Section Rewriter.
Variable L : pylib.

(** [\b] between the character before the position and the text at it *)
Definition word_boundary (prev : option char) (s : str) : bool :=
  xorb (match prev with Some c => is_word L c | None => false end)
       (match s with c :: _ => is_word L c | [] => false end).

(** One alternative of the keyword group followed by a quoted value:
    groups 1, 2 and 3 of the match. *)
Definition match_kw (kw s : str) : option (str * char * str) :=
  if startswith_ci kw s then
    match skipn (length kw) s with
    | q :: rest =>
        if is_quote q then
          match lazy_value q rest with
          | Some v => Some (firstn (length kw) s, q, v)
          | None => None
          end
        else None
    | [] => None
    end
  else None.

Fixpoint match_alternatives (kws : list str) (s : str) : option (str * char * str) :=
  match kws with
  | [] => None
  | kw :: kws' =>
      match match_kw kw s with
      | Some m => Some m
      | None => match_alternatives kws' s
      end
  end.

(** A match, at the head of [s], of the pattern: word boundary, one of the
    keywords, a quote character (double or single), a lazy value, the
    same quote character again. *)
Definition match_quoted (kws : list str) (prev : option char) (s : str)
  : option (str * char * str) :=
  if word_boundary prev s then match_alternatives kws s else None.

(** [pattern.sub(repl, html)] where [repl] rebuilds
    [prefix + quote + f(value) + quote]. *)
Fixpoint sub_from (kws : list str) (f : str -> str)
         (skip : nat) (prev : option char) (s : str) : str :=
  match s with
  | [] => []
  | c :: s' =>
      match skip with
      | S k => sub_from kws f k (Some c) s'
      | O =>
          match match_quoted kws prev s with
          | Some (pre, q, v) =>
              pre ++ q :: f v ++ q ::
                sub_from kws f (length pre + length v + 1)%nat (Some c) s'
          | None => c :: sub_from kws f 0 (Some c) s'
          end
      end
  end.

Definition sub_quoted (kws : list str) (f : str -> str) (s : str) : str :=
  sub_from kws f 0 None s.

Variable is_file : path -> bool.
Variable base_dir : path.

(** One entry of a [srcset] value, already stripped and not empty.
    [tokens[0]] exists because the entry holds a character that is not
    white space (lemma [split_ws_nonempty]); the empty case is the
    [IndexError] that cannot happen. *)
Definition srcset_item (item : str) : str :=
  match split_ws item with
  | [] => []
  | url :: tokens =>
      let rest := join [space] tokens in
      let new_url := to_uri_if_exists L is_file base_dir url in
      strip (new_url ++ match rest with [] => [] | _ :: _ => space :: rest end)
  end.

Definition nonempty (s : str) : bool :=
  match s with [] => false | _ :: _ => true end.

(** The entries the loop of [replace_srcset] keeps *)
Definition srcset_entries (value : str) : list str :=
  List.filter nonempty (map strip (split_char comma value)).

Definition replace_srcset_value (value : str) : str :=
  join [comma; space] (map srcset_item (srcset_entries value)).

Definition attr_pass (html : str) : str :=
  sub_quoted [kw_src; kw_href] (to_uri_if_exists L is_file base_dir) html.

Definition srcset_pass (html : str) : str :=
  sub_quoted [kw_srcset] replace_srcset_value html.

Definition rewrite_local_urls_to_file_uri (html : str) : str :=
  srcset_pass (attr_pass html).
End Rewriter.

(** ** Text codecs

    A decoder reads a byte string into items: a decoded code point, or
    [None] for a run of bytes that is not valid in the encoding.  The error
    handler of [bytes.decode] decides what an invalid run becomes:
    [errors="strict"] (the default) raises [UnicodeDecodeError],
    [errors="replace"] puts U+FFFD in its place and never raises. *)

Definition bytes := list N.

Inductive exn :=
| CalledProcessError (stderr : bytes)
| OSError
| UnicodeDecodeError
| OtherError.

Inductive result (A : Type) :=
| Ok (a : A)
| Raise (e : exn).
Arguments Ok {A} a.
Arguments Raise {A} e.

Definition decoder := bytes -> list (option char).

Inductive error_handler := Strict | Replace.

Fixpoint all_decoded (items : list (option char)) : option str :=
  match items with
  | [] => Some []
  | Some c :: rest => option_map (cons c) (all_decoded rest)
  | None :: _ => None
  end.

Definition replacement_char : char := 65533.

(** [raw.decode(encoding, errors=...)] *)
Definition decode (d : decoder) (errors : error_handler) (raw : bytes) : result str :=
  match errors with
  | Strict =>
      match all_decoded (d raw) with
      | Some s => Ok s
      | None => Raise UnicodeDecodeError
      end
  | Replace =>
      Ok (map (fun item => match item with Some c => c | None => replacement_char end) (d raw))
  end.

(** UTF-8: the state after a lead byte is the number of continuation bytes
    still expected, the bits read so far and the range allowed for the next
    byte (Unicode, table 3-7). *)
Definition utf8_state := option (nat * N * N * N).

Definition utf8_start (b : N) : list (option char) * utf8_state :=
  if b <? 128 then ([Some b], None)
  else if (194 <=? b) && (b <=? 223) then ([], Some (1%nat, b - 192, 128, 191))
  else if b =? 224 then ([], Some (2%nat, b - 224, 160, 191))
  else if b =? 237 then ([], Some (2%nat, b - 224, 128, 159))
  else if (225 <=? b) && (b <=? 239) then ([], Some (2%nat, b - 224, 128, 191))
  else if b =? 240 then ([], Some (3%nat, b - 240, 144, 191))
  else if (241 <=? b) && (b <=? 243) then ([], Some (3%nat, b - 240, 128, 191))
  else if b =? 244 then ([], Some (3%nat, b - 240, 128, 143))
  else ([None], None).

Fixpoint utf8_items (st : utf8_state) (raw : bytes) : list (option char) :=
  match raw with
  | [] => match st with None => [] | Some _ => [None] end
  | b :: raw' =>
      match st with
      | None => let '(out, st') := utf8_start b in out ++ utf8_items st' raw'
      | Some (k, acc, lo, hi) =>
          if (lo <=? b) && (b <=? hi) then
            match k with
            | 1%nat => Some (acc * 64 + (b - 128)) :: utf8_items None raw'
            | _ => utf8_items (Some (pred k, acc * 64 + (b - 128), 128, 191)) raw'
            end
          else
            let '(out, st') := utf8_start b in
            None :: out ++ utf8_items st' raw'
      end
  end.

Definition utf8 : decoder := utf8_items None.

(** [utf-8-sig]: UTF-8 after an optional byte-order mark *)
Definition utf8_sig : decoder := fun raw =>
  match raw with
  | 239 :: 187 :: 191 :: rest => utf8 rest
  | _ => utf8 raw
  end.

(** [text.encode("utf-8")] for code points that are not surrogates *)
Definition utf8_encode_char (c : char) : bytes :=
  if c <? 128 then [c]
  else if c <? 2048 then [192 + c / 64; 128 + c mod 64]
  else if c <? 65536 then [224 + c / 4096; 128 + (c / 64) mod 64; 128 + c mod 64]
  else [240 + c / 262144; 128 + (c / 4096) mod 64; 128 + (c / 64) mod 64; 128 + c mod 64].

Definition utf8_encode (s : str) : bytes := flat_map utf8_encode_char s.

(** ** A concrete standard library: CPython 3.11 on a POSIX system

    Used to evaluate the pipeline on concrete documents.  The model has no
    symbolic links; [cwd] is the working directory of the process.  The
    word table is cut at U+00FF, and [urlsplit] is modelled for references
    whose host part has no square bracket (any other is reported as the
    [ValueError] case). *)
Module Posix.

Definition is_word (c : char) : bool :=
  is_digit c || is_ascii_letter c || (c =? 95)
  || existsb (N.eqb c) [170; 178; 179; 181; 185; 186; 188; 189; 190]
  || ((192 <=? c) && (c <=? 255) && negb (c =? 215) && negb (c =? 247)).

(** *** urllib.parse *)

Definition scheme_char (c : char) : bool :=
  is_ascii_letter c || is_digit c || existsb (N.eqb c) [43; 45; 46].

Fixpoint take_until (stop : char -> bool) (s : str) : str :=
  match s with
  | [] => []
  | c :: s' => if stop c then [] else c :: take_until stop s'
  end.

Fixpoint drop_until (stop : char -> bool) (s : str) : str :=
  match s with
  | [] => []
  | c :: s' => if stop c then s else drop_until stop s'
  end.

Definition has_char (c : char) (s : str) : bool := existsb (N.eqb c) s.

Definition strip_scheme (url : str) : str :=
  match url with
  | c :: _ =>
      if has_char 58 url && is_ascii_letter c
         && forallb scheme_char (take_until (N.eqb 58) url)
      then tl (drop_until (N.eqb 58) url)
      else url
  | [] => url
  end.

Definition urlsplit_path (url : str) : option str :=
  let url := drop_while (fun c => c <=? 32) url in
  let url := List.filter (fun c => negb (existsb (N.eqb c) [9; 10; 13])) url in
  let url := strip_scheme url in
  let delim c := existsb (N.eqb c) [47; 63; 35] in
  let '(netloc, url) :=
    match url with
    | 47 :: 47 :: rest => (take_until delim rest, drop_until delim rest)
    | _ => ([], url)
    end in
  if has_char 91 netloc || has_char 93 netloc then None
  else
    let url := take_until (N.eqb 35) url in
    Some (take_until (N.eqb 63) url).

Definition hex_value (c : char) : option N :=
  if is_digit c then Some (c - 48)
  else if (65 <=? c) && (c <=? 70) then Some (c - 55)
  else if (97 <=? c) && (c <=? 102) then Some (c - 87)
  else None.

(** [unquote_to_bytes] on a run of ASCII characters *)
Fixpoint unquote_to_bytes (s : str) : bytes :=
  match s with
  | [] => []
  | c :: s' =>
      if c =? 37 then
        match s' with
        | h1 :: h2 :: rest =>
            match hex_value h1, hex_value h2 with
            | Some a, Some b => (16 * a + b) :: unquote_to_bytes rest
            | _, _ => c :: unquote_to_bytes s'
            end
        | _ => c :: unquote_to_bytes s'
        end
      else c :: unquote_to_bytes s'
  end.

Definition decode_run (run : str) : str :=
  match decode utf8 Replace (unquote_to_bytes (rev run)) with
  | Ok s => s
  | Raise _ => []
  end.

(** the ASCII runs are percent-decoded, the other characters kept *)
Fixpoint unquote_runs (run : str) (s : str) : str :=
  match s with
  | [] => decode_run run
  | c :: s' =>
      if c <? 128 then unquote_runs (c :: run) s'
      else decode_run run ++ c :: unquote_runs [] s'
  end.

Definition unquote (s : str) : str :=
  if has_char 37 s then unquote_runs [] s else s.

(** *** pathlib (PurePosixPath) *)

Definition dot : str := [46].
Definition dotdot : str := [46; 46].

Definition root_of (s : str) : str :=
  match s with
  | 47 :: 47 :: 47 :: _ => [slash]
  | 47 :: 47 :: _ => [slash; slash]
  | 47 :: _ => [slash]
  | _ => []
  end.

Definition parts_of (s : str) : list str :=
  List.filter (fun p => nonempty p && negb (str_eqb p dot)) (split_char slash s).

Definition render (root : str) (parts : list str) : path :=
  match root, parts with
  | [], [] => dot
  | _, _ => root ++ join [slash] parts
  end.

Definition mkpath (s : str) : path := render (root_of s) (parts_of s).

Definition joinpath (p : path) (u : str) : path :=
  match root_of u with
  | [] => render (root_of p) (parts_of p ++ parts_of u)
  | _ :: _ => mkpath u
  end.

(** [os.path.realpath] without symbolic links: [..] steps removed *)
Fixpoint collapse (stack : list str) (parts : list str) : list str :=
  match parts with
  | [] => rev stack
  | p :: rest =>
      if str_eqb p dotdot then collapse (tl stack) rest
      else collapse (p :: stack) rest
  end.

Definition resolve (cwd : path) (p : path) : path :=
  match root_of p with
  | [] => render (root_of cwd) (collapse [] (parts_of cwd ++ parts_of p))
  | r => render r (collapse [] (parts_of p))
  end.

Definition hex_digit (n : N) : char :=
  let n := n mod 16 in if n <? 10 then 48 + n else 55 + n.

Definition quote_byte (b : N) : str :=
  if always_safe b || (b =? slash) then [b]
  else [37; hex_digit (b / 16); hex_digit (b mod 16)].

Definition as_uri (p : path) : str :=
  kw_file ++ flat_map quote_byte (utf8_encode p).

Fixpoint last_index (c : char) (i : nat) (s : str) : option nat :=
  match s with
  | [] => None
  | d :: s' =>
      match last_index c (S i) s' with
      | Some j => Some j
      | None => if d =? c then Some i else None
      end
  end.

Definition stem (p : path) : str :=
  let name := List.last (parts_of p) [] in
  match last_index 46 0 name with
  | Some i =>
      if ((0 <? i)%nat && (S i <? length name)%nat)%bool then firstn i name else name
  | None => name
  end.

Definition parent (p : path) : path :=
  match parts_of p with
  | [] => p
  | _ :: _ => render (root_of p) (removelast (parts_of p))
  end.

Definition with_name (p : path) (name : str) : path :=
  render (root_of p) (removelast (parts_of p) ++ [name]).

Definition with_suffix (p : path) (suffix : str) : path :=
  with_name p (stem p ++ suffix).

Definition lib (cwd : path) : pylib :=
  Build_pylib is_word urlsplit_path unquote mkpath joinpath (resolve cwd) as_uri stem
    parent with_name with_suffix.

End Posix.

(** ** The world around the script

    The file system maps canonical paths (the result of [Path.resolve]) to
    nodes; an operation on a path acts on its canonical form.  Directories
    that the script does not create itself (the directory of the Markdown
    file) are taken to exist.  [log] records, in order, what the job did
    that the properties below speak about. *)

Inductive node :=
| File (content : bytes)
| Dir.

(** How [subprocess.run(cmd, check=True, ...)] ends: exit status zero, a
    non-zero exit status ([CalledProcessError] with the captured standard
    error), or no process at all ([OSError], for instance
    [FileNotFoundError]). *)
Inductive outcome :=
| Done
| Failed (stderr : bytes)
| NotStarted.

Inductive event :=
| Run (argv : list str) (o : outcome)
| Sanitized (html_path : path)
| Decoded (src : path).

Record world := {
  files : gmap path node;
  log : list event
}.

Record env := {
  py : pylib;
  (** canonical paths the process may not create, write or delete *)
  locked : path -> bool;
  (** an external program: from what ran before, the command line and the
      files, how it ends and the files it leaves *)
  tool : list event -> list str -> gmap path node -> outcome * gmap path node;
  (** the codec [gb18030] *)
  gb18030 : decoder;
  (** whether [from PIL import Image] succeeded *)
  image_lib : bool;
  (** [Image.open(src)] followed by [im.save(dst, format=PNG)], on the bytes
      of the source; [None] when the library raises *)
  transcode : bytes -> option bytes;
  (** the order in which a [set] built from a list is iterated *)
  enum_set : list path -> list path;
  (** [str(b)] of a [bytes] object *)
  bytes_repr : bytes -> str;
  (** the attribute [self.keep_html_on_success] *)
  keep_html_on_success : bool
}.

(** Computations that change the world and may raise *)
Definition M (A : Type) : Type := world -> result A * world.

Definition ret {A : Type} (a : A) : M A := fun w => (Ok a, w).

Definition raise {A : Type} (e : exn) : M A := fun w => (Raise e, w).

Definition bind {A B : Type} (m : M A) (k : A -> M B) : M B :=
  fun w =>
    match m w with
    | (Ok a, w') => k a w'
    | (Raise e, w') => (Raise e, w')
    end.

(** [try: m except <class>: h]; the handler answers [None] for an exception
    that is not of its class. *)
Definition try_except {A : Type} (m : M A) (h : exn -> option (M A)) : M A :=
  fun w =>
    match m w with
    | (Ok a, w') => (Ok a, w')
    | (Raise e, w') =>
        match h e with
        | Some k => k w'
        | None => (Raise e, w')
        end
    end.

(** [try: m finally: c] *)
Definition try_finally {A : Type} (m : M A) (c : M unit) : M A :=
  fun w =>
    match m w with
    | (r, w') =>
        match c w' with
        | (Ok _, w'') => (r, w'')
        | (Raise e, w'') => (Raise e, w'')
        end
    end.

#[global] Instance job_ret : MRet M := @ret.
#[global] Instance job_bind : MBind M := fun A B k m => bind m k.

Definition except_OSError {A : Type} (k : M A) (e : exn) : option (M A) :=
  match e with OSError => Some k | _ => None end.

Definition except_Exception {A : Type} (k : M A) (e : exn) : option (M A) :=
  Some k.

Definition emit (ev : event) : M unit :=
  fun w => (Ok tt, {| files := files w; log := log w ++ [ev] |}).

Section FileSystem.
Variable E : env.

Definition lookup_node (w : world) (p : path) : option node :=
  files w !! resolve (py E) p.

(** [p.is_file()] *)
Definition is_file (w : world) (p : path) : bool :=
  match lookup_node w p with Some (File _) => true | _ => false end.

(** [p.is_dir()] *)
Definition is_dir (w : world) (p : path) : bool :=
  match lookup_node w p with Some Dir => true | _ => false end.

Definition set_files (fs : gmap path node) (w : world) : world :=
  {| files := fs; log := log w |}.

(** [p.read_bytes()] *)
Definition read_bytes (p : path) : M bytes :=
  fun w =>
    match lookup_node w p with
    | Some (File c) => (Ok c, w)
    | _ => (Raise OSError, w)
    end.

(** writing a file in binary form *)
Definition write_bytes (p : path) (c : bytes) : M unit :=
  fun w =>
    if locked E (resolve (py E) p) || is_dir w p then (Raise OSError, w)
    else (Ok tt, set_files (<[resolve (py E) p := File c]> (files w)) w).

(** [p.unlink()] *)
Definition unlink (p : path) : M unit :=
  fun w =>
    if is_file w p && negb (locked E (resolve (py E) p))
    then (Ok tt, set_files (delete (resolve (py E) p) (files w)) w)
    else (Raise OSError, w).

(** no entry of the file system lies directly in [d] *)
Definition dir_empty (fs : gmap path node) (d : path) : bool :=
  forallb (fun k => negb (str_eqb (parent (py E) k) d) || str_eqb k d)
          (map fst (map_to_list fs)).

(** [p.rmdir()] *)
Definition rmdir (p : path) : M unit :=
  fun w =>
    if is_dir w p && dir_empty (files w) (resolve (py E) p)
       && negb (locked E (resolve (py E) p))
    then (Ok tt, set_files (delete (resolve (py E) p) (files w)) w)
    else (Raise OSError, w).

(** [p.mkdir(parents=True, exist_ok=True)] *)
Definition mkdir (p : path) : M unit :=
  fun w =>
    match lookup_node w p with
    | Some Dir => (Ok tt, w)
    | Some (File _) => (Raise OSError, w)
    | None =>
        if locked E (resolve (py E) p) then (Raise OSError, w)
        else (Ok tt, set_files (<[resolve (py E) p := Dir]> (files w)) w)
    end.

(** Text mode with universal newlines: [\r\n] and [\r] are read as [\n]. *)
Fixpoint universal_newlines (s : str) : str :=
  match s with
  | [] => []
  | 13 :: s' =>
      nl :: match s' with
            | 10 :: s'' => universal_newlines s''
            | _ => universal_newlines s'
            end
  | c :: s' => c :: universal_newlines s'
  end.

(** [p.read_text(encoding="utf-8")] *)
Definition read_text (p : path) : M str :=
  raw ← read_bytes p;
  match decode utf8 Strict raw with
  | Ok s => ret (universal_newlines s)
  | Raise e => raise e
  end.

(** [p.write_text(text, encoding="utf-8", newline=LF)] *)
Definition write_text (p : path) (text : str) : M unit :=
  write_bytes p (utf8_encode text).

(** [subprocess.run(cmd, check=True, stdout=PIPE, stderr=PIPE)] *)
Definition run_command (cmd : list str) : M unit :=
  fun w =>
    let '(o, fs) := tool E (log w) cmd (files w) in
    let w' := {| files := fs; log := log w ++ [Run cmd o] |} in
    match o with
    | Done => (Ok tt, w')
    | Failed err => (Raise (CalledProcessError err), w')
    | NotStarted => (Raise OSError, w')
    end.

End FileSystem.

(** ** 4.3 The image transcoder *)

Definition kw_file3 : str := Eval cbv in lit "file:///".
Definition kw_webp : str := Eval cbv in lit ".webp".
Definition kw_png : str := Eval cbv in lit ".png".
Definition scratch_name : str := Eval cbv in lit ".__wkhtml_img_tmp__".

(** the class excluding both quotes, white space and [>] *)
Definition webp_class (c : char) : bool :=
  negb (is_quote c || isspace c || (c =? 62)).

(** The lazy repetition of the class, at least once, up to the first place
    where [.webp] follows; the result is the text matched, [.webp]
    included. *)
Fixpoint webp_body (s : str) : option str :=
  match s with
  | [] => None
  | c :: s' =>
      if webp_class c then
        if startswith_ci kw_webp s' then Some (c :: firstn 5 s')
        else option_map (cons c) (webp_body s')
      else None
  end.

Definition match_webp (s : str) : option str :=
  if startswith_ci kw_file3 s
  then option_map (app (firstn 8 s)) (webp_body (skipn 8 s))
  else None.

(** [pattern.findall(html)] *)
Fixpoint findall_webp (skip : nat) (s : str) : list str :=
  match s with
  | [] => []
  | _ :: s' =>
      match skip with
      | S k => findall_webp k s'
      | O =>
          match match_webp s with
          | Some m => m :: findall_webp (length m - 1) s'
          | None => findall_webp 0 s'
          end
      end
  end.

(** [list(dict.fromkeys(l))]: duplicates dropped, first occurrences kept in
    order *)
Fixpoint fromkeys (l : list str) : list str :=
  match l with
  | [] => []
  | x :: l' => x :: List.filter (fun y => negb (str_eqb x y)) (fromkeys l')
  end.

(** [if not b: m] *)
Definition unless (b : bool) (m : M unit) : M unit := if b then ret tt else m.

Fixpoint foldM {A B : Type} (f : A -> B -> M A) (a : A) (l : list B) : M A :=
  match l with
  | [] => ret a
  | b :: l' => a' ← f a b; foldM f a' l'
  end.

Section Pipeline.
Variable E : env.

Definition test_file (p : path) : M bool := fun w => (Ok (is_file E w p), w).
Definition test_dir (p : path) : M bool := fun w => (Ok (is_dir E w p), w).

(** [with Image.open(src) as im: im.save(dst, format=PNG)] *)
Definition image_convert (src dst : path) : M unit :=
  emit (Decoded src);;
  c ← read_bytes E src;
  match transcode E c with
  | None => raise OtherError
  | Some png => write_bytes E dst png
  end.

(** the file a locator names: [Path(unquote(urlsplit(uri).path.lstrip(SLASH)))] *)
Definition webp_source (uri : str) : option path :=
  option_map (fun p => mkpath (py E) (unquote (py E) (lstrip_slash p)))
             (urlsplit_path (py E) uri).

Definition png_target (out_dir webp_path : path) : path :=
  joinpath (py E) out_dir (stem (py E) webp_path ++ kw_png).

(** The body of the loop over the matches, for one locator; the state is
    the text and the tracking list.  Whatever is raised inside is
    swallowed and the state left as it was. *)
Definition transcode_one (out_dir : path) (st : str * list path) (uri : str)
  : M (str * list path) :=
  try_except
    (match webp_source uri with
     | None => raise OtherError
     | Some webp_path =>
         present ← test_file webp_path;
         if negb present then ret st
         else
           let png_path := png_target out_dir webp_path in
           cached ← test_file png_path;
           unless cached (image_convert webp_path png_path);;
           ret (replace uri (as_uri (py E) (resolve (py E) png_path)) (fst st),
                snd st ++ [png_path])
     end)
    (except_Exception (ret st)).

Definition convert_webp_images_in_html (html : str) (html_dir : path)
           (temp_artifacts : list path) : M (str * list path) :=
  if negb (image_lib E) then ret (html, temp_artifacts)
  else
    let matches := fromkeys (findall_webp 0 html) in
    match matches with
    | [] => ret (html, temp_artifacts)
    | _ :: _ =>
        let out_dir := joinpath (py E) html_dir scratch_name in
        bind (try_except (mkdir E out_dir;; ret true) (except_OSError (ret false)))
             (fun made : bool =>
                if made then
                  st ← foldM (transcode_one out_dir) (html, temp_artifacts) matches;
                  ret (fst st, snd st ++ [out_dir])
                else ret (html, temp_artifacts))
    end.

(** ** 4.4 The sanitiser *)

Definition href_dq_empty : str := lit "href=" ++ [dq; dq].
Definition href_dq_hash : str := lit "href=" ++ [dq; hash; dq].
Definition href_sq_empty : str := lit "href=''".
Definition href_sq_hash : str := lit "href='#'".
Definition src_dq_empty : str := lit "src=" ++ [dq; dq].
Definition src_dq_hash : str := lit "src=" ++ [dq; hash; dq].
Definition src_sq_empty : str := lit "src=''".
Definition src_sq_hash : str := lit "src='#'".
Definition about_blank : str := lit "about:blank".

Definition fixed_substitutions (html : str) : str :=
  let html := replace href_dq_empty href_dq_hash html in
  let html := replace href_sq_empty href_sq_hash html in
  let html := replace src_dq_empty src_dq_hash html in
  let html := replace src_sq_empty src_sq_hash html in
  replace about_blank [hash] html.

(** The text the sanitiser computes from the text it read; the files are
    looked up in the world as it is at that moment. *)
Definition sanitize_text (html_path : path) (html : str) (temp_artifacts : list path)
  : M (str * list path) :=
  let html := fixed_substitutions html in
  html ← (fun w => (Ok (rewrite_local_urls_to_file_uri (py E) (is_file E w)
                          (parent (py E) html_path) html), w));
  convert_webp_images_in_html html (parent (py E) html_path) temp_artifacts.

(** [sanitize_html_for_wkhtmltopdf(html_path, temp_artifacts)], as the
    orchestrator calls it (with a list); the list it returns is the list
    after the appends.  The diagnostic scan of the keep-HTML mode only
    prints. *)
Definition sanitize_html_for_wkhtmltopdf (html_path : path) (temp_artifacts : list path)
  : M (list path) :=
  emit (Sanitized html_path);;
  read ← try_except (html ← read_text E html_path; ret (Some html))
                    (except_OSError (ret None));
  match read with
  | None => ret temp_artifacts
  | Some html =>
      st ← sanitize_text html_path html temp_artifacts;
      try_except (write_text E html_path (fst st)) (except_OSError (ret tt));;
      ret (snd st)
  end.

(** ** 4.5 The orchestrator *)

Definition build_pandoc_cmd (input_md html_path : path) (title : str)
           (css_uris : list str) : list str :=
  [lit "pandoc"; input_md; lit "-o"; html_path; lit "--standalone";
   lit "--metadata"; lit "pagetitle=" ++ title]
  ++ map (fun uri => lit "--css=" ++ uri) (List.filter nonempty css_uris).

Definition wkhtmltopdf_style_args : list str :=
  [lit "--page-size"; lit "A4";
   lit "--margin-top"; lit "15mm"; lit "--margin-right"; lit "15mm";
   lit "--margin-bottom"; lit "15mm"; lit "--margin-left"; lit "15mm";
   lit "--print-media-type"; lit "--disable-smart-shrinking";
   lit "--dpi"; lit "96"; lit "--zoom"; lit "1.0"].

Definition build_wkhtmltopdf_cmd (html_path output_pdf : path) : list str :=
  [lit "wkhtmltopdf"; lit "--enable-local-file-access";
   lit "--load-error-handling"; lit "ignore";
   lit "--load-media-error-handling"; lit "ignore";
   lit "--encoding"; lit "utf-8"]
  ++ wkhtmltopdf_style_args ++ [html_path; output_pdf].

Definition decode_stderr (err_bytes : bytes) : str :=
  match err_bytes with
  | [] => []
  | _ :: _ =>
      match decode utf8 Replace err_bytes with
      | Ok s => strip s
      | Raise _ =>
          match decode (gb18030 E) Replace err_bytes with
          | Ok s => strip s
          | Raise _ => bytes_repr E err_bytes
          end
      end
  end.

Definition ensure_utf8_markdown (input_path md_tmp_path : path) : M path :=
  read ← try_except (raw ← read_bytes E input_path; ret (Some raw))
                    (except_OSError (ret None));
  match read with
  | None => ret input_path
  | Some raw =>
      match decode utf8 Strict raw with
      | Ok _ => ret input_path
      | Raise _ =>
          text ← match decode utf8_sig Strict raw with
                 | Ok t => ret t
                 | Raise _ =>
                     match decode (gb18030 E) Strict raw with
                     | Ok t => ret t
                     | Raise e => raise e
                     end
                 end;
          write_text E md_tmp_path text;;
          ret md_tmp_path
      end
  end.

(** the key [len(str(x))] with [reverse=True]: a stable sort, longest first *)
Fixpoint insert_longest_first (p : path) (l : list path) : list path :=
  match l with
  | [] => [p]
  | q :: l' =>
      if (length q <? length p)%nat then p :: l
      else q :: insert_longest_first p l'
  end.

Definition sort_longest_first (l : list path) : list path :=
  fold_right insert_longest_first [] l.

(** [sorted(set(temp_artifacts), key=..., reverse=True)] *)
Definition cleanup_order (temp_artifacts : list path) : list path :=
  sort_longest_first (enum_set E temp_artifacts).

(** one turn of the loop over the tracked artifacts *)
Definition delete_artifact (p : path) : M unit :=
  try_except
    (bind (test_file p) (fun f : bool =>
       if f then unlink E p
       else bind (test_dir p) (fun d : bool => if d then rmdir E p else ret tt)))
    (except_OSError (ret tt)).

Fixpoint delete_artifacts (l : list path) : M unit :=
  match l with
  | [] => ret tt
  | p :: l' => delete_artifact p;; delete_artifacts l'
  end.

(** the [finally] clause *)
Definition cleanup (html_path md_tmp_path : path) (success : bool)
           (temp_artifacts : list path) : M unit :=
  try_except
    (if success then
       h ← test_file html_path;
       unless (negb h || keep_html_on_success E) (unlink E html_path);;
       m ← test_file md_tmp_path;
       unless (negb m) (unlink E md_tmp_path);;
       unless (keep_html_on_success E)
              (delete_artifacts (cleanup_order temp_artifacts))
     else ret tt)
    (except_OSError (ret tt)).

(** The statements of the [try] block; the value is [temp_artifacts] when
    the block completes, which is exactly when [success] is set. *)
Definition conversion (pandoc_input html_path output_pdf : path) (title : str)
           (css_uris : list str) : M (list path) :=
  let pandoc_cmd := build_pandoc_cmd pandoc_input html_path title css_uris in
  let wkhtml_cmd := build_wkhtmltopdf_cmd html_path output_pdf in
  run_command E pandoc_cmd;;
  arts ← sanitize_html_for_wkhtmltopdf html_path [];
  try_except
    (run_command E wkhtml_cmd;; ret arts)
    (fun e =>
       match e with
       | CalledProcessError _ =>
           Some (match css_uris with
                 | _ :: _ =>
                     run_command E (build_pandoc_cmd pandoc_input html_path title []);;
                     arts' ← sanitize_html_for_wkhtmltopdf html_path arts;
                     run_command E wkhtml_cmd;;
                     ret arts'
                 | [] => raise e
                 end)
       | _ => None
       end).

(** The [try] statement: its block, the handler of [CalledProcessError]
    and the [finally] clause.  [success] is True exactly when the block
    completes. *)
Definition guarded_conversion (pandoc_input html_path md_tmp_path output_pdf : path)
           (title : str) (css_uris : list str) : M bool :=
  fun w =>
    match conversion pandoc_input html_path output_pdf title css_uris w with
    | (Ok arts, w1) =>
        match cleanup html_path md_tmp_path true arts w1 with
        | (Ok _, w2) => (Ok true, w2)
        | (Raise e, w2) => (Raise e, w2)
        end
    | (Raise (CalledProcessError _), w1) =>
        (* the handler prints the decoded standard error *)
        match cleanup html_path md_tmp_path false [] w1 with
        | (Ok _, w2) => (Ok false, w2)
        | (Raise e, w2) => (Raise e, w2)
        end
    | (Raise e, w1) =>
        (* not handled: the finally clause runs and the exception goes on *)
        match cleanup html_path md_tmp_path false [] w1 with
        | (Ok _, w2) => (Raise e, w2)
        | (Raise e', w2) => (Raise e', w2)
        end
    end.

Definition convert_one_file (md_path : path) (css_uris : list str) : M bool :=
  let file_name_no_ext := stem (py E) md_path in
  let output_pdf := with_suffix (py E) md_path (lit ".pdf") in
  let html_path := with_name (py E) md_path (file_name_no_ext ++ lit ".html") in
  let md_tmp_path :=
    with_name (py E) md_path (file_name_no_ext ++ lit ".__pandoc_tmp__.md") in
  bind (ensure_utf8_markdown md_path md_tmp_path)
       (fun pandoc_input =>
          guarded_conversion pandoc_input html_path md_tmp_path output_pdf
            file_name_no_ext css_uris).

End Pipeline.

(** ** A concrete world for examples

    [gb18030_items] follows the byte structure of GB18030 (one byte below
    0x80; a lead byte 0x81..0xFE followed by one byte, or by a digit and two
    more bytes) and takes the two mapping tables as arguments.  An invalid
    byte becomes one [None] and decoding goes on with the next byte; a
    sequence cut off by the end of the input becomes one [None]. *)
Module Demo.

Fixpoint gb18030_items (two : N -> N -> option char)
         (four : N -> N -> N -> N -> option char) (raw : bytes)
  : list (option char) :=
  match raw with
  | [] => []
  | b :: r1 =>
      if b <? 128 then Some b :: gb18030_items two four r1
      else if (129 <=? b) && (b <=? 254) then
        match r1 with
        | [] => [None]
        | b2 :: r2 =>
            if (48 <=? b2) && (b2 <=? 57) then
              match r2 with
              | b3 :: b4 :: r4 =>
                  match four b b2 b3 b4 with
                  | Some c => Some c :: gb18030_items two four r4
                  | None => None :: gb18030_items two four r1
                  end
              | _ => [None]
              end
            else
              match two b b2 with
              | Some c => Some c :: gb18030_items two four r2
              | None => None :: gb18030_items two four r1
              end
        end
      else None :: gb18030_items two four r1
  end.

(** the one entry of the two-byte table the examples need: D6 D0 is U+4E2D *)
Definition two_byte (b1 b2 : N) : option char :=
  if (b1 =? 214) && (b2 =? 208) then Some 20013 else None.

Definition gb_decoder : decoder := gb18030_items two_byte (fun _ _ _ _ => None).

Definition runs_so_far (past : list event) : nat :=
  length (List.filter (fun ev => match ev with Run _ _ => true | _ => false end) past).

(** External programs that follow a script: the n-th command run ends as
    the n-th entry says ([Done] past the end); a converter run that ends
    well writes [html] to its output path, the fourth argument. *)
Definition scripted_tool (html : bytes) (script : list outcome)
           (past : list event) (argv : list str) (fs : gmap path node)
  : outcome * gmap path node :=
  let o := nth (runs_so_far past) script Done in
  match o, argv with
  | Done, prog :: _ :: _ :: out :: _ =>
      if str_eqb prog (lit "pandoc") then (o, <[out := File html]> fs) else (o, fs)
  | _, _ => (o, fs)
  end.

(** an image library that rejects the content [BAD] *)
Definition demo_transcode (c : bytes) : option bytes :=
  if str_eqb c (lit "BAD") then None else Some (lit "PNG:" ++ c).

Definition demo_env (html : bytes) (script : list outcome) (keep : bool) : env :=
  {| py := Posix.lib [slash];
     locked := fun _ => false;
     tool := scripted_tool html script;
     gb18030 := gb_decoder;
     image_lib := true;
     transcode := demo_transcode;
     enum_set := fromkeys;
     bytes_repr := fun b => b;
     keep_html_on_success := keep |}.

Definition md_path : path := lit "/doc/a.md".

Definition world_of (l : list (path * node)) : world :=
  {| files := list_to_map l; log := [] |}.

End Demo.

(** ** The batch

    What [convert] does around [convert_one_file]: the prerequisites, the
    stylesheets and the loop over the Markdown files of the target folder. *)

(** [s.endswith(suffix)] *)
Definition endswith (suffix s : str) : bool := startswith (rev suffix) (rev s).

Definition kw_md : str := Eval cbv in lit ".md".
Definition kw_version : str := Eval cbv in lit "--version".
Definition kw_pandoc : str := Eval cbv in lit "pandoc".
Definition kw_wkhtmltopdf : str := Eval cbv in lit "wkhtmltopdf".
Definition default_css_path : str := Eval cbv in lit "assets\whitey_plus.css".
Definition compat_css_path : str := Eval cbv in lit "assets\typora_compat_pandoc.css".

(** [css_path or default] in [__init__]: [None] and the empty string give
    the default. *)
Definition init_css_path (css_path : option str) : str :=
  match css_path with
  | Some (c :: s) => c :: s
  | _ => default_css_path
  end.

(** One item of [os.walk]: a directory, the names of its sub-directories and
    the names of its other entries. *)
Definition walk_item : Type := (str * list str * list str)%type.

(** What the batch reads from the object and from the installation. *)
Record setup := {
  (** the attribute [self.target_folder] *)
  target_folder : str;
  (** the attribute [self.css_path] *)
  css_path : str;
  (** [os.path.dirname(os.path.abspath(__file__))] *)
  script_dir : str;
  (** [os.path.isabs] *)
  isabs : str -> bool;
  (** [os.path.join] on two components *)
  os_join : str -> str -> str;
  (** whether the [OSError] of a command that did not start is a
      [FileNotFoundError] *)
  not_found : list str -> bool;
  (** the items [os.walk(top)] produces while the batch runs *)
  os_walk : str -> list walk_item
}.

Section Batch.
Variable E : env.
Variable S : setup.

Definition except_FileNotFoundError {A : Type} (cmd : list str) (k : M A) (e : exn)
  : option (M A) :=
  match e with
  | OSError => if not_found S cmd then Some k else None
  | _ => None
  end.

Definition is_pandoc_installed : M bool :=
  let cmd := [kw_pandoc; kw_version] in
  try_except (run_command E cmd;; ret true)
             (except_FileNotFoundError cmd (ret false)).

Definition is_wkhtmltopdf_installed : M bool :=
  let cmd := [kw_wkhtmltopdf; kw_version] in
  try_except (run_command E cmd;; ret true)
             (except_FileNotFoundError cmd (ret false)).

(** [os.path.isfile(p)] and [os.path.isdir(p)] on a path given as text *)
Definition os_isfile (p : str) : M bool := test_file E (mkpath (py E) p).
Definition os_isdir (p : str) : M bool := test_dir E (mkpath (py E) p).

Definition is_css_file_exists (css : str) : M bool :=
  os_isfile (os_join S (script_dir S) css).

Definition is_target_folder_exists : M bool := os_isdir (target_folder S).

(** The messages are printed only; the stylesheet is looked for and the
    answer used for a warning. *)
Definition check_prerequisites : M bool :=
  bind is_pandoc_installed (fun pandoc : bool =>
    if negb pandoc then ret false
    else
      bind is_wkhtmltopdf_installed (fun wkhtml : bool =>
        if negb wkhtml then ret false
        else
          bind is_target_folder_exists (fun folder : bool =>
            if negb folder then ret false
            else bind (is_css_file_exists (css_path S)) (fun _ : bool => ret true)))).

Definition get_css_abs_path : str :=
  if isabs S (css_path S) then css_path S
  else os_join S (script_dir S) (css_path S).

Definition to_file_uri (file_path : str) : str :=
  as_uri (py E) (resolve (py E) (mkpath (py E) file_path)).

Definition get_css_uri : M (option str) :=
  bind (os_isfile get_css_abs_path) (fun found : bool =>
    ret (if found then Some (to_file_uri get_css_abs_path) else None)).

Definition get_compat_css_uri : M (option str) :=
  let compat_abs_path := os_join S (script_dir S) compat_css_path in
  bind (os_isfile compat_abs_path) (fun found : bool =>
    ret (if found then Some (to_file_uri compat_abs_path) else None)).

(** [[u for u in [css_uri, compat_css_uri] if u]]: [None] and the empty
    string are dropped. *)
Definition truthy (u : option str) : list str :=
  match u with
  | Some (c :: s) => [c :: s]
  | _ => []
  end.

(** [iter_markdown_files], from the items of [os.walk]: the names that end
    in [.md], joined to their directory, in the order of the walk. *)
Definition iter_markdown_files (walk : list walk_item) : list path :=
  flat_map (fun item : walk_item =>
              let '(root, _, files) := item in
              map (joinpath (py E) (mkpath (py E) root))
                  (List.filter (endswith kw_md) files))
           walk.

(** The loop of [convert] over the files; the value is [count]. *)
Definition convert_files (css_uris : list str) (count : nat) (mds : list path) : M nat :=
  foldM (fun (count : nat) (md_path : path) =>
           bind (convert_one_file E md_path css_uris) (fun ok : bool =>
             ret (if ok then Datatypes.S count else count)))
        count mds.

(** [convert]: the value is the count it prints at the end, [None] when it
    returns early. *)
Definition convert : M (option nat) :=
  bind check_prerequisites (fun ok : bool =>
    if negb ok then ret None
    else
      bind get_css_uri (fun css_uri : option str =>
        bind get_compat_css_uri (fun compat_css_uri : option str =>
          let css_uris := truthy css_uri ++ truthy compat_css_uri in
          bind (convert_files css_uris 0%nat
                  (iter_markdown_files (os_walk S (target_folder S))))
               (fun count : nat => ret (Some count))))).

End Batch.

(** * Properties *)

(** ** The reference normaliser *)

(** C3. A reference that, once stripped of surrounding white space, is empty
    or starts with [#], [http://], [https://], [data:], [mailto:] or
    [file://] is returned unchanged, whatever the library, the base
    directory and the file system are. *)
Theorem to_uri_if_exists_keep :
  forall (L : pylib) (is_file : path -> bool) (base_dir : path) (url : str),
    strip url = []
    \/ startswith [hash] (strip url) = true
    \/ startswith kw_http (strip url) = true
    \/ startswith kw_https (strip url) = true
    \/ startswith kw_data (strip url) = true
    \/ startswith kw_mailto (strip url) = true
    \/ startswith kw_file (strip url) = true ->
    to_uri_if_exists L is_file base_dir url = url.
Proof.
  intros L is_file base_dir url H.
  unfold to_uri_if_exists.
  assert (K : should_keep url = true).
  { unfold should_keep.
    destruct H as [H | [H | [H | [H | [H | [H | H]]]]]]; rewrite H;
      rewrite ?orb_true_r; reflexivity. }
  rewrite K. reflexivity.
Qed.

Lemma to_uri_if_exists_keep_witness :
  to_uri_if_exists (Posix.lib [slash]) (fun _ => true) (lit "/doc")
    (lit "  https://example.org/a.png ")
  = lit "  https://example.org/a.png ".
Proof.
  apply to_uri_if_exists_keep.
  right; right; right; left. vm_compute. reflexivity.
Defined.



(** ** Lemmas on strings *)

Definition is_token (t : str) : Prop :=
  t <> [] /\ Forall (fun c => isspace c = false) t.

(** a string that starts and ends with a character that is not white space *)
Definition first_ok (s : str) : bool :=
  match s with c :: _ => negb (isspace c) | [] => false end.

Definition trimmed (s : str) : Prop :=
  first_ok s = true /\ first_ok (rev s) = true.

Lemma strip_trimmed (s : str) : trimmed s -> strip s = s.
Proof.
  intros [Hf Hl]. unfold strip, lstrip_ws, rstrip_ws.
  destruct s as [|c s]; [discriminate|].
  simpl in Hf. apply negb_true_iff in Hf.
  cbn [drop_while]. rewrite Hf.
  destruct (rev (c :: s)) as [|z r] eqn:E; [discriminate|].
  simpl in Hl. apply negb_true_iff in Hl.
  cbn [drop_while]. rewrite Hl, <- E. apply rev_involutive.
Qed.

Lemma drop_while_Forall (P : char -> Prop) (p : char -> bool) (s : str) :
  Forall P s -> Forall P (drop_while p s).
Proof.
  induction 1 as [|c s Hc Hs IH]; simpl; [constructor|].
  destruct (p c); [exact IH | constructor; assumption].
Qed.

Lemma Forall_rev_str (P : char -> Prop) (s : str) : Forall P s -> Forall P (rev s).
Proof.
  intros H. apply List.Forall_forall. intros x Hx.
  apply List.in_rev in Hx. revert x Hx. apply List.Forall_forall. exact H.
Qed.

Lemma strip_Forall (P : char -> Prop) (s : str) : Forall P s -> Forall P (strip s).
Proof.
  intros H. unfold strip, rstrip_ws, lstrip_ws.
  apply Forall_rev_str, drop_while_Forall, Forall_rev_str, drop_while_Forall, H.
Qed.

Lemma token_first_ok (t : str) : is_token t -> first_ok t = true.
Proof.
  intros [Hne Hall]. destruct t as [|c t]; [congruence|].
  inversion Hall; subst. simpl. apply negb_true_iff. assumption.
Qed.

Lemma token_last_ok (t : str) : is_token t -> first_ok (rev t) = true.
Proof.
  intros [Hne Hall]. apply token_first_ok. split.
  - intros E. apply Hne. rewrite <- (rev_involutive t), E. reflexivity.
  - apply Forall_rev_str, Hall.
Qed.

Lemma first_ok_app (a b : str) : first_ok a = true -> first_ok (a ++ b) = true.
Proof. destruct a; simpl; [discriminate | auto]. Qed.

Lemma split_ws_tokens (s : str) : Forall is_token (split_ws s).
Proof.
  induction s as [|c s IH]; simpl; [constructor|].
  destruct (isspace c) eqn:Ec; [exact IH|].
  destruct s as [|d s'].
  - repeat constructor; [discriminate | assumption].
  - destruct (isspace d) eqn:Ed.
    + constructor; [|exact IH]. repeat constructor; [discriminate | assumption].
    + destruct (split_ws (d :: s')) as [|t ts].
      * repeat constructor; [discriminate | assumption].
      * inversion IH as [|? ? [Hne Hall] Hts]; subst.
        constructor; [|exact Hts].
        split; [discriminate | constructor; assumption].
Qed.

Lemma split_ws_app_token (t r : str) :
  is_token t ->
  first_ok r = false ->
  split_ws (t ++ r) = t :: split_ws r.
Proof.
  intros [Hne Hall] Hr. induction t as [|c t IH]; [congruence|].
  inversion Hall as [|? ? Hc Ht]; subst.
  destruct t as [|c2 t'].
  - simpl. rewrite Hc. destruct r as [|d r']; [reflexivity|].
    simpl in Hr. apply negb_false_iff in Hr. rewrite Hr. reflexivity.
  - specialize (IH ltac:(discriminate) Ht).
    inversion Ht as [|? ? Hc2 _]; subst.
    cbn [app] in *. cbn [split_ws]. rewrite Hc.
    cbn [split_ws] in IH. rewrite Hc2 in *.
    fold split_ws in *. rewrite IH. reflexivity.
Qed.

Lemma split_ws_space (c : char) (s : str) :
  isspace c = true -> split_ws (c :: s) = split_ws s.
Proof. intros H. simpl. rewrite H. reflexivity. Qed.

Lemma split_ws_join (toks : list str) :
  Forall is_token toks -> split_ws (join [space] toks) = toks.
Proof.
  induction 1 as [|t toks Ht Hts IH]; [reflexivity|].
  destruct toks as [|t2 toks'].
  - simpl. rewrite <- (app_nil_r t) at 1.
    rewrite split_ws_app_token; auto.
  - change (join [space] (t :: t2 :: toks'))
      with (t ++ [space] ++ join [space] (t2 :: toks')).
    rewrite split_ws_app_token; auto.
    cbn [app]. rewrite split_ws_space by reflexivity.
    rewrite IH. reflexivity.
Qed.

Lemma join_space_trimmed (toks : list str) :
  toks <> [] -> Forall is_token toks -> trimmed (join [space] toks).
Proof.
  intros Hne Hall. split.
  - destruct toks as [|t toks]; [congruence|].
    inversion Hall; subst.
    destruct toks; simpl; [|apply first_ok_app]; apply token_first_ok; assumption.
  - induction Hall as [|t toks Ht Hts IH]; [congruence|].
    destruct toks as [|t2 toks'].
    + simpl. apply token_last_ok, Ht.
    + change (join [space] (t :: t2 :: toks'))
        with (t ++ [space] ++ join [space] (t2 :: toks')).
      rewrite !rev_app_distr. rewrite <- app_assoc.
      apply first_ok_app, IH. discriminate.
Qed.

Lemma split_char_nonempty (sep : char) (s : str) : split_char sep s <> [].
Proof.
  destruct s as [|c s]; simpl; [discriminate|].
  destruct (c =? sep); [discriminate|].
  destruct (split_char sep s); discriminate.
Qed.

Lemma split_char_pieces (sep : char) (s : str) :
  Forall (Forall (fun c => c <> sep)) (split_char sep s).
Proof.
  induction s as [|c s IH]; simpl; [repeat constructor|].
  destruct (N.eqb_spec c sep) as [E|E].
  - constructor; [constructor | exact IH].
  - destruct (split_char sep s) as [|x xs]; [repeat constructor; assumption|].
    inversion IH; subst. constructor; [constructor|]; assumption.
Qed.

Lemma split_char_plain (sep : char) (p : str) :
  Forall (fun c => c <> sep) p -> split_char sep p = [p].
Proof.
  induction 1 as [|c p Hc Hp IH]; [reflexivity|].
  simpl. rewrite (proj2 (N.eqb_neq c sep) Hc), IH. reflexivity.
Qed.

Lemma split_char_app (sep : char) (p r : str) :
  Forall (fun c => c <> sep) p ->
  split_char sep (p ++ sep :: r) = p :: split_char sep r.
Proof.
  induction 1 as [|c p Hc Hp IH]; simpl.
  - rewrite N.eqb_refl. reflexivity.
  - rewrite (proj2 (N.eqb_neq c sep) Hc), IH. reflexivity.
Qed.

Lemma strip_leading_space (c : char) (s : str) :
  isspace c = true -> strip (c :: s) = strip s.
Proof. intros H. unfold strip, lstrip_ws. simpl. rewrite H. reflexivity. Qed.

Lemma map_strip_split_leading (sep c : char) (s : str) :
  isspace c = true -> c <> sep ->
  map strip (split_char sep (c :: s)) = map strip (split_char sep s).
Proof.
  intros Hc Hne. simpl. rewrite (proj2 (N.eqb_neq c sep) Hne).
  pose proof (split_char_nonempty sep s) as Hs.
  destruct (split_char sep s) as [|x xs]; [congruence|].
  simpl. rewrite strip_leading_space by assumption. reflexivity.
Qed.

Lemma split_ws_Forall (P : char -> Prop) (s : str) :
  Forall P s -> Forall (Forall P) (split_ws s).
Proof.
  induction 1 as [|c s Hc Hs IH]; simpl; [constructor|].
  destruct (isspace c); [exact IH|].
  destruct s as [|d s']; [repeat constructor; assumption|].
  destruct (isspace d); [constructor; [repeat constructor; assumption | exact IH]|].
  destruct (split_ws (d :: s')) as [|t ts]; [repeat constructor; assumption|].
  inversion IH; subst. constructor; [constructor|]; assumption.
Qed.

Lemma trimmed_nonempty (s : str) : trimmed s -> nonempty s = true.
Proof. intros [H _]. destruct s; [discriminate | reflexivity]. Qed.

(** ** The characters of a locator *)

Lemma uri_char_plain (c : char) :
  uri_char c = true ->
  isspace c = false /\ c <> comma /\ c <> dq /\ c <> sq /\ c <> nl /\ c <> 61.
Proof.
  unfold uri_char, always_safe, is_ascii_letter, is_digit, isspace,
    comma, dq, sq, nl.
  cbn [existsb]. intros H.
  repeat rewrite ?orb_true_iff, ?andb_true_iff, ?N.leb_le, ?N.eqb_eq in H.
  repeat split; try lia.
  repeat rewrite ?orb_false_iff, ?N.eqb_neq. repeat split; try lia.
Qed.

Lemma kw_file_uri_chars : forallb uri_char kw_file = true.
Proof. reflexivity. Qed.

Section NormalizerFacts.
Variable L : pylib.
Variable is_file : path -> bool.
Variable base_dir : path.
Hypothesis law : as_uri_law L.

Let f := to_uri_if_exists L is_file base_dir.

Lemma as_uri_chars (p : path) :
  as_uri L p <> [] /\ Forall (fun c => uri_char c = true) (as_uri L p).
Proof.
  destruct (law p) as (t & E & Ht). rewrite E. split; [discriminate|].
  apply Forall_app. split.
  - apply List.Forall_forall. apply forallb_forall. exact kw_file_uri_chars.
  - apply List.Forall_forall. apply forallb_forall. exact Ht.
Qed.

Lemma to_uri_cases (u : str) : f u = u \/ exists p, f u = as_uri L p.
Proof.
  unfold f, to_uri_if_exists.
  repeat match goal with
         | |- context [if ?b then _ else _] => destruct b
         end; eauto.
Qed.

Lemma to_uri_keeps (P : char -> Prop) (u : str) :
  (forall c, uri_char c = true -> P c) ->
  u <> [] -> Forall P u -> f u <> [] /\ Forall P (f u).
Proof.
  intros HP Hne Hu. destruct (to_uri_cases u) as [E | [p E]]; rewrite E.
  - auto.
  - destruct (as_uri_chars p) as [H1 H2]. split; [exact H1|].
    eapply List.Forall_impl; [|exact H2]. exact HP.
Qed.

Lemma to_uri_token (u : str) : is_token u -> is_token (f u).
Proof.
  intros [Hne Hu]. apply to_uri_keeps; auto.
  intros c Hc. apply uri_char_plain, Hc.
Qed.

Lemma to_uri_no_comma (u : str) :
  u <> [] -> Forall (fun c => c <> comma) u -> Forall (fun c => c <> comma) (f u).
Proof.
  intros Hne Hu. apply to_uri_keeps; auto.
  intros c Hc. apply uri_char_plain, Hc.
Qed.
End NormalizerFacts.

(** ** The entries of a [srcset] value *)

Definition entry_ok (p : str) : Prop :=
  trimmed p /\ Forall (fun c => c <> comma) p.

Lemma srcset_entries_join (parts : list str) :
  Forall entry_ok parts -> srcset_entries (join [comma; space] parts) = parts.
Proof.
  unfold srcset_entries.
  induction 1 as [|p parts [Hp Hc] Hparts IH]; [reflexivity|].
  destruct parts as [|p2 parts'].
  - simpl join. rewrite split_char_plain by assumption.
    cbn [map List.filter]. rewrite strip_trimmed by assumption.
    rewrite (trimmed_nonempty p Hp). reflexivity.
  - change (join [comma; space] (p :: p2 :: parts'))
      with (p ++ comma :: space :: join [comma; space] (p2 :: parts')).
    rewrite split_char_app by assumption.
    cbn [map]. rewrite map_strip_split_leading by (reflexivity || discriminate).
    cbn [List.filter]. rewrite strip_trimmed by assumption.
    rewrite (trimmed_nonempty p Hp).
    f_equal. exact IH.
Qed.

Lemma drop_while_head (p : char -> bool) (s : str) (c : char) (r : str) :
  drop_while p s = c :: r -> p c = false.
Proof.
  induction s as [|d s IH]; simpl; [discriminate|].
  destruct (p d) eqn:E; [exact IH|].
  intros H. injection H as -> _. exact E.
Qed.

Lemma strip_nonempty_first_ok (s : str) :
  nonempty (strip s) = true -> first_ok (strip s) = true.
Proof.
  unfold strip, rstrip_ws. set (x := lstrip_ws s).
  assert (Hx : x = [] \/ first_ok x = true).
  { unfold x, lstrip_ws. destruct (drop_while isspace s) as [|c r] eqn:E; [auto|].
    right. simpl. rewrite (drop_while_head _ _ _ _ E). reflexivity. }
  clearbody x. intros Hne.
  destruct Hx as [-> | Hx]; [discriminate|].
  destruct (drop_while isspace (rev x)) as [|z r] eqn:E; [discriminate|].
  assert (Hz : isspace z = false) by (eapply drop_while_head; exact E).
  (* the characters dropped at the end leave the first character in place *)
  destruct x as [|c x']; [discriminate|].
  simpl in Hx. apply negb_true_iff in Hx.
  assert (Hin : exists pre, rev (c :: x') = pre ++ z :: r).
  { clear -E. revert E. generalize (rev (c :: x')). intros l.
    induction l as [|d l IH]; simpl; [discriminate|].
    destruct (isspace d).
    - intros H. destruct (IH H) as [pre ->]. exists (d :: pre). reflexivity.
    - intros H. exists []. rewrite H. reflexivity. }
  destruct Hin as [pre Hpre].
  assert (Hrev : c :: x' = rev r ++ z :: rev pre).
  { rewrite <- (rev_involutive (c :: x')), Hpre, rev_app_distr. simpl.
    rewrite <- app_assoc. reflexivity. }
  simpl rev. destruct (rev r) as [|a r'] eqn:Er.
  - simpl in *. injection Hrev as <- _. rewrite Hz. reflexivity.
  - simpl in *. injection Hrev as <- _. rewrite Hx. reflexivity.
Qed.

Lemma split_ws_first (s : str) : first_ok s = true -> split_ws s <> [].
Proof.
  destruct s as [|c s]; [discriminate|]. simpl. intros H.
  apply negb_true_iff in H. rewrite H.
  destruct s as [|d s']; [discriminate|].
  destruct (isspace d); [discriminate|].
  destruct (split_ws (d :: s')); discriminate.
Qed.

(** The entry that [replace_srcset] splits always has a first token: the
    [IndexError] of [tokens[0]] cannot happen. *)
Lemma split_ws_nonempty (item : str) :
  nonempty (strip item) = true -> split_ws (strip item) <> [].
Proof. intros H. apply split_ws_first, strip_nonempty_first_ok, H. Qed.

Lemma srcset_entries_spec (value : str) :
  Forall (fun e => split_ws e <> [] /\ Forall (fun c => c <> comma) e)
         (srcset_entries value).
Proof.
  unfold srcset_entries. apply List.Forall_forall. intros e He.
  apply filter_In in He. destruct He as [He Hne].
  apply in_map_iff in He. destruct He as (item & <- & Hitem).
  split; [apply split_ws_nonempty, Hne|].
  apply strip_Forall.
  pose proof (split_char_pieces comma value) as H.
  rewrite List.Forall_forall in H. apply H, Hitem.
Qed.

Section Srcset.
Variable L : pylib.
Variable is_file : path -> bool.
Variable base_dir : path.
Hypothesis law : as_uri_law L.

Let f := to_uri_if_exists L is_file base_dir.

Lemma srcset_item_spec (e url : str) (descr : list str) :
  split_ws e = url :: descr ->
  Forall (fun c => c <> comma) e ->
  srcset_item L is_file base_dir e = join [space] (f url :: descr)
  /\ entry_ok (join [space] (f url :: descr))
  /\ Forall is_token (f url :: descr).
Proof.
  intros Hs Hc.
  pose proof (split_ws_tokens e) as Htok. rewrite Hs in Htok.
  pose proof (split_ws_Forall _ e Hc) as Hcom. rewrite Hs in Hcom.
  inversion Htok as [|? ? Hu Hds]; subst.
  inversion Hcom as [|? ? Hcu Hcds]; subst.
  assert (Htoks : Forall is_token (f url :: descr)).
  { constructor; [apply to_uri_token; assumption | assumption]. }
  assert (Hok : entry_ok (join [space] (f url :: descr))).
  { split; [apply join_space_trimmed; [discriminate | assumption]|].
    assert (Hall : Forall (Forall (fun c => c <> comma)) (f url :: descr)).
    { constructor; [|assumption].
      apply to_uri_no_comma; [assumption | apply Hu | assumption]. }
    clear -Hall. induction Hall as [|t ts Ht Hts IH]; [constructor|].
    destruct ts as [|t2 ts']; [exact Ht|].
    change (join [space] (t :: t2 :: ts'))
      with (t ++ space :: join [space] (t2 :: ts')).
    apply Forall_app. split; [exact Ht|].
    constructor; [discriminate | exact IH]. }
  split; [|split; assumption].
  unfold srcset_item. rewrite Hs. fold f.
  assert (E : f url ++ match join [space] descr with
                       | [] => []
                       | _ :: _ => space :: join [space] descr
                       end = join [space] (f url :: descr)).
  { destruct descr as [|d ds]; [simpl; apply app_nil_r|].
    change (join [space] (f url :: d :: ds))
      with (f url ++ space :: join [space] (d :: ds)).
    destruct (join [space] (d :: ds)) eqn:Ej; [|reflexivity].
    exfalso. inversion Hds as [|? ? [Hd _] _]; subst.
    destruct ds; simpl in Ej; [congruence|].
    destruct d; [congruence | discriminate]. }
  rewrite E. apply strip_trimmed, Hok.
Qed.

Lemma replace_srcset_value_entries (value : str) :
  srcset_entries (replace_srcset_value L is_file base_dir value)
  = map (srcset_item L is_file base_dir) (srcset_entries value).
Proof.
  unfold replace_srcset_value. apply srcset_entries_join.
  apply List.Forall_forall. intros p Hp.
  apply in_map_iff in Hp. destruct Hp as (e & <- & He).
  pose proof (srcset_entries_spec value) as H.
  rewrite List.Forall_forall in H. destruct (H e He) as [Hne Hc].
  destruct (split_ws e) as [|url descr] eqn:Hs; [congruence|].
  destruct (srcset_item_spec e url descr Hs Hc) as (-> & Hok & _).
  exact Hok.
Qed.
End Srcset.


(** ** The concrete library satisfies the law of [as_uri] *)

Lemma hex_digit_uri_char (n : N) : uri_char (Posix.hex_digit n) = true.
Proof.
  unfold Posix.hex_digit.
  pose proof (N.mod_upper_bound n 16 ltac:(discriminate)) as Hlt.
  set (m := n mod 16) in *. clearbody m.
  unfold uri_char, always_safe, is_ascii_letter, is_digit.
  destruct (N.ltb_spec m 10).
  - replace ((48 <=? 48 + m) && (48 + m <=? 57)) with true;
      [rewrite ?orb_true_r; reflexivity|].
    symmetry. apply andb_true_iff. split; apply N.leb_le; lia.
  - replace ((65 <=? 55 + m) && (55 + m <=? 90)) with true; [reflexivity|].
    symmetry. apply andb_true_iff. split; apply N.leb_le; lia.
Qed.

Lemma quote_byte_uri_chars (b : N) : forallb uri_char (Posix.quote_byte b) = true.
Proof.
  unfold Posix.quote_byte.
  destruct (always_safe b || (b =? slash)) eqn:E.
  - simpl. rewrite andb_true_r. unfold uri_char.
    apply orb_true_iff in E. destruct E as [E | E]; [rewrite E; reflexivity|].
    apply N.eqb_eq in E. subst b. reflexivity.
  - cbn [forallb]. rewrite !hex_digit_uri_char. reflexivity.
Qed.

Lemma posix_as_uri_law (cwd : path) : as_uri_law (Posix.lib cwd).
Proof.
  intros p. exists (flat_map Posix.quote_byte (utf8_encode p)).
  split; [reflexivity|].
  induction (utf8_encode p) as [|b bs IH]; [reflexivity|].
  cbn [flat_map]. rewrite forallb_app, quote_byte_uri_chars, IH. reflexivity.
Qed.

(** A small document directory used by the examples below. *)
Definition demo_files (p : path) : bool :=
  existsb (fun q => bool_decide (p = q)) [lit "/doc/a.png"; lit "/doc/img/b c.png"].

Example replace_srcset_value_demo :
  replace_srcset_value (Posix.lib [slash]) demo_files (lit "/doc")
    (lit "a.png   1x ,, img/b%20c.png 2x , missing.png  300w  ")
  = lit "file:///doc/a.png 1x, file:///doc/img/b%20c.png 2x, missing.png 300w".
Proof. vm_compute. reflexivity. Qed.


(** ** The quoted-attribute pattern *)

Definition ci_pre (kw pre : str) : Prop :=
  Forall2 (fun a b => ci_eq a b = true) kw pre.

Definition value_ok (q : char) (v : str) : Prop :=
  Forall (fun c => c <> q /\ c <> nl) v.

Lemma lazy_value_spec (q : char) (s v : str) :
  lazy_value q s = Some v <-> exists rest, s = v ++ q :: rest /\ value_ok q v.
Proof.
  split.
  - revert v. induction s as [|c s IH]; simpl; [discriminate|].
    intros v. destruct (N.eqb_spec c q) as [->|Hq].
    + intros [= <-]. exists s. split; [reflexivity | constructor].
    + destruct (N.eqb_spec c nl) as [->|Hn]; [discriminate|].
      destruct (lazy_value q s) as [v'|]; [|discriminate].
      intros [= <-]. destruct (IH v' eq_refl) as (rest & -> & Hv).
      exists rest. split; [reflexivity|]. constructor; auto.
  - intros (rest & -> & Hv). induction Hv as [|c v [Hq Hn] Hv IH]; simpl.
    + rewrite N.eqb_refl. reflexivity.
    + rewrite (proj2 (N.eqb_neq c q) Hq), (proj2 (N.eqb_neq c nl) Hn), IH.
      reflexivity.
Qed.

Lemma lazy_value_skip (q : char) (l x : str) :
  value_ok q l -> lazy_value q (l ++ x) = option_map (app l) (lazy_value q x).
Proof.
  induction 1 as [|c l [Hq Hn] Hl IH]; simpl.
  - destruct (lazy_value q x); reflexivity.
  - rewrite (proj2 (N.eqb_neq c q) Hq), (proj2 (N.eqb_neq c nl) Hn), IH.
    destruct (lazy_value q x); reflexivity.
Qed.

Lemma lazy_value_none_app (q : char) (l x : str) :
  Forall (fun c => c <> nl) l ->
  lazy_value q (l ++ x) = None ->
  value_ok q l /\ lazy_value q x = None.
Proof.
  induction 1 as [|c l Hn Hl IH]; simpl; [intros H; split; [constructor | exact H]|].
  destruct (N.eqb_spec c q) as [->|Hq]; [discriminate|].
  rewrite (proj2 (N.eqb_neq c nl) Hn).
  destruct (lazy_value q (l ++ x)) eqn:E; [discriminate|].
  intros _. destruct (IH eq_refl) as [H1 H2]. split; [constructor; auto | exact H2].
Qed.

Lemma startswith_ci_spec (kw s : str) :
  startswith_ci kw s = true <->
  exists pre rest, s = pre ++ rest /\ ci_pre kw pre.
Proof.
  split.
  - revert s. induction kw as [|a kw IH]; intros s H.
    + exists [], s. split; [reflexivity | constructor].
    + destruct s as [|b s]; [discriminate|]. simpl in H.
      apply andb_true_iff in H. destruct H as [Hab H].
      destruct (IH s H) as (pre & rest & -> & Hpre).
      exists (b :: pre), rest. split; [reflexivity | constructor; assumption].
  - intros (pre & rest & -> & Hpre).
    induction Hpre as [|a b kw pre Hab Hpre IH]; [destruct rest; reflexivity|].
    simpl. rewrite Hab, IH. reflexivity.
Qed.

Lemma ci_pre_length (kw pre : str) : ci_pre kw pre -> length pre = length kw.
Proof. induction 1; simpl; congruence. Qed.

Lemma match_kw_spec (kw s pre v : str) (q : char) :
  match_kw kw s = Some (pre, q, v) <->
  exists rest,
    s = pre ++ q :: v ++ q :: rest
    /\ ci_pre kw pre /\ is_quote q = true /\ value_ok q v.
Proof.
  unfold match_kw. split.
  - destruct (startswith_ci kw s) eqn:E; [|discriminate].
    apply startswith_ci_spec in E. destruct E as (pre0 & rest0 & -> & Hpre).
    pose proof (ci_pre_length _ _ Hpre) as Hlen.
    rewrite <- Hlen, List.skipn_app, List.firstn_app, List.skipn_all, List.firstn_all.
    rewrite Nat.sub_diag. cbn [skipn firstn app]. rewrite app_nil_r.
    destruct rest0 as [|q0 r]; simpl; [discriminate|].
    destruct (is_quote q0) eqn:Eq; [|discriminate].
    destruct (lazy_value q0 r) as [v0|] eqn:Ev; [|discriminate].
    intros [= <- <- <-]. apply lazy_value_spec in Ev.
    destruct Ev as (rest & -> & Hv). exists rest. auto.
  - intros (rest & -> & Hpre & Hq & Hv).
    assert (E : startswith_ci kw (pre ++ q :: v ++ q :: rest) = true).
    { apply startswith_ci_spec. eauto. }
    rewrite E. pose proof (ci_pre_length _ _ Hpre) as Hlen.
    rewrite <- Hlen, List.skipn_app, List.firstn_app, List.skipn_all, List.firstn_all.
    rewrite Nat.sub_diag. simpl. rewrite app_nil_r, Hq.
    rewrite (proj2 (lazy_value_spec q (v ++ q :: rest) v)) by eauto.
    reflexivity.
Qed.

Lemma str_length_ind (P : str -> Prop) :
  (forall s, (forall s', (length s' < length s)%nat -> P s') -> P s) ->
  forall s, P s.
Proof.
  intros H s. remember (length s) as n eqn:E. revert s E.
  induction n as [n IH] using lt_wf_ind. intros s ->.
  apply H. intros s' Hlt. exact (IH _ Hlt s' eq_refl).
Qed.

Lemma ci_eq_inv (p c : char) :
  ci_eq p c = true ->
  c = p \/ (97 <= p <= 122 /\ c = p - 32) \/ (p = 115 /\ c = 383)
  \/ (p = 105 /\ (c = 304 \/ c = 305)).
Proof.
  unfold ci_eq. intros H.
  repeat rewrite ?orb_true_iff, ?andb_true_iff, ?N.leb_le, ?N.eqb_eq in H.
  intuition auto.
Qed.

Section Substitution.
Variable L : pylib.
Variable kws : list str.
Variable f : str -> str.

Lemma sub_from_skip (x r : str) (prev : option char) :
  x <> [] ->
  sub_from L kws f (length x) prev (x ++ r)
  = sub_from L kws f 0 (Some (List.last x 0)) r.
Proof.
  revert prev. induction x as [|c x IH]; intros prev Hne; [congruence|].
  destruct x as [|c2 x']; [reflexivity|].
  change (length (c :: c2 :: x')) with (S (length (c2 :: x'))).
  change ((c :: c2 :: x') ++ r) with (c :: (c2 :: x') ++ r).
  cbn [sub_from]. rewrite IH by discriminate. reflexivity.
Qed.

Lemma match_quoted_shape (prev : option char) (s pre v : str) (q : char) :
  match_quoted L kws prev s = Some (pre, q, v) ->
  exists kw rest,
    In kw kws /\ s = pre ++ q :: v ++ q :: rest
    /\ ci_pre kw pre /\ is_quote q = true /\ value_ok q v.
Proof.
  unfold match_quoted. destruct (word_boundary L prev s); [|discriminate].
  induction kws as [|kw kws' IH]; simpl; [discriminate|].
  destruct (match_kw kw s) as [m|] eqn:E.
  - intros [= ->]. apply match_kw_spec in E. destruct E as (rest & H).
    exists kw, rest. intuition auto.
  - intros H. destruct (IH H) as (kw' & rest & Hin & H'). eauto 10.
Qed.

Lemma sub_from_nomatch (prev : option char) (c : char) (s : str) :
  match_quoted L kws prev (c :: s) = None ->
  sub_from L kws f 0 prev (c :: s) = c :: sub_from L kws f 0 (Some c) s.
Proof. intros H. cbn [sub_from]. rewrite H. reflexivity. Qed.

Lemma sub_from_match (prev : option char) (s pre v : str) (q : char) :
  Forall (fun kw : str => kw <> []) kws ->
  match_quoted L kws prev s = Some (pre, q, v) ->
  exists rest,
    s = pre ++ q :: v ++ q :: rest
    /\ (length rest < length s)%nat
    /\ sub_from L kws f 0 prev s
       = pre ++ q :: f v ++ q :: sub_from L kws f 0 (Some q) rest.
Proof.
  intros Hkws H.
  destruct (match_quoted_shape _ _ _ _ _ H) as (kw & rest & Hin & -> & Hpre & Hq & Hv).
  exists rest. split; [reflexivity|]. split.
  { rewrite !length_app. simpl. rewrite length_app. simpl. lia. }
  rewrite List.Forall_forall in Hkws. specialize (Hkws kw Hin).
  destruct pre as [|c pre']; [inversion Hpre; subst; congruence|].
  change ((c :: pre') ++ q :: v ++ q :: rest)
    with (c :: pre' ++ q :: v ++ q :: rest) in *.
  cbn [sub_from]. rewrite H.
  replace (pre' ++ q :: v ++ q :: rest) with ((pre' ++ q :: v ++ [q]) ++ rest)
    by (rewrite <- !app_assoc; simpl; rewrite <- app_assoc; reflexivity).
  replace (length (c :: pre') + length v + 1)%nat
    with (length (pre' ++ q :: v ++ [q]))
    by (rewrite !length_app; simpl; rewrite length_app; simpl; lia).
  rewrite sub_from_skip by (destruct pre'; discriminate).
  replace (List.last (pre' ++ q :: v ++ [q]) 0) with q; [reflexivity|].
  replace (pre' ++ q :: v ++ [q]) with ((pre' ++ q :: v) ++ [q])
    by (rewrite <- !app_assoc; reflexivity).
  rewrite List.last_last. reflexivity.
Qed.
End Substitution.

(** ** The [src]/[href] pass applied to its own output *)

(** the characters a match of [src=] or [href=] can start with *)
Definition is_start (c : char) : bool := ci_eq 115 c || ci_eq 104 c.

Lemma ci_char_facts (p c : char) :
  In p [115; 114; 99; 61; 104; 101; 102] ->
  ci_eq p c = true ->
  c <> dq /\ c <> sq /\ c <> nl
  /\ is_start c = ((p =? 115) || (p =? 104))
  /\ (p = 104 -> ci_eq 115 c = false).
Proof.
  intros Hin H. apply ci_eq_inv in H. unfold dq, sq, nl.
  simpl in Hin.
  repeat match goal with
         | H : _ \/ _ |- _ => destruct H
         | H : _ /\ _ |- _ => destruct H
         | H : False |- _ => destruct H
         end; subst; try lia;
    (split; [lia|]); (split; [lia|]); (split; [lia|]); (split; [reflexivity|]);
    intros E; first [reflexivity | discriminate E | lia].
Qed.

Lemma quote_cases (q : char) : is_quote q = true -> q = dq \/ q = sq.
Proof.
  unfold is_quote. rewrite orb_true_iff, !N.eqb_eq. auto.
Qed.

Lemma quote_not_start (q : char) : is_quote q = true -> is_start q = false.
Proof. intros H. destruct (quote_cases q H) as [-> | ->]; reflexivity. Qed.

Lemma kw_pre_chars (kw pre : str) :
  In kw [kw_src; kw_href] -> ci_pre kw pre ->
  Forall (fun c => c <> dq /\ c <> sq /\ c <> nl) pre
  /\ exists c0 pre',
      pre = c0 :: pre' /\ is_start c0 = true
      /\ Forall (fun c => is_start c = false) pre'
      /\ (kw = kw_href -> ci_eq 115 c0 = false).
Proof.
  intros Hin Hpre.
  assert (Hall : Forall2 (fun a b =>
            b <> dq /\ b <> sq /\ b <> nl
            /\ is_start b = ((a =? 115) || (a =? 104))
            /\ (a = 104 -> ci_eq 115 b = false)) kw pre).
  { assert (Hk : Forall (fun a => In a [115; 114; 99; 61; 104; 101; 102]) kw).
    { destruct Hin as [<- | [<- | []]]; unfold kw_src, kw_href;
        repeat (apply List.Forall_cons; [simpl; tauto|]); apply List.Forall_nil. }
    clear Hin. induction Hpre as [|a b kw pre Hab Hpre IH]; [constructor|].
    inversion Hk; subst. constructor; [apply ci_char_facts; assumption | auto]. }
  clear Hpre. split.
  - clear -Hall. induction Hall as [|a b kw' pre' H Hall IH]; [constructor|].
    constructor; [tauto | exact IH].
  - destruct Hin as [<- | [<- | []]]; unfold kw_src, kw_href in Hall;
      repeat match goal with
             | H : Forall2 _ (_ :: _) _ |- _ => inversion H; clear H; subst
             | H : Forall2 _ [] _ |- _ => inversion H; clear H; subst
             end;
      eexists _, _; (split; [reflexivity|]);
      repeat match goal with
             | H : _ /\ _ |- _ => destruct H
             end;
      (split; [assumption|]); (split; [repeat constructor; assumption|]);
      intros E; try discriminate E; auto.
Qed.

Section AttrPass.
Variable L : pylib.
Variable f : str -> str.
Hypothesis f_idem : forall v, f (f v) = f v.
Hypothesis f_clean :
  forall (x : char) (v : str),
    x = dq \/ x = sq \/ x = nl ->
    Forall (fun c => c <> x) v -> Forall (fun c => c <> x) (f v).

Abbreviation kws := [kw_src; kw_href].
Abbreviation A := (sub_from L kws f 0).

Lemma kws_nonempty : Forall (fun kw : str => kw <> []) kws.
Proof. repeat constructor; discriminate. Qed.

Lemma f_value_ok (q : char) (v : str) :
  is_quote q = true -> value_ok q v -> value_ok q (f v).
Proof.
  intros Hq Hv. unfold value_ok in *.
  assert (H1 : Forall (fun c => c <> q) (f v)).
  { apply f_clean; [destruct (quote_cases q Hq); auto|].
    eapply List.Forall_impl; [|exact Hv]. simpl. tauto. }
  assert (H2 : Forall (fun c => c <> nl) (f v)).
  { apply f_clean; [auto|].
    eapply List.Forall_impl; [|exact Hv]. simpl. tauto. }
  rewrite List.Forall_forall in *. auto.
Qed.

Lemma nonstart_nomatch (prev : option char) (c : char) (s : str) :
  is_start c = false -> match_quoted L kws prev (c :: s) = None.
Proof.
  intros Hc. destruct (match_quoted L kws prev (c :: s)) as [[[pre q] v]|] eqn:E;
    [|reflexivity].
  destruct (match_quoted_shape L _ f _ _ _ _ _ E) as (kw & rest & Hin & Hs & Hpre & _).
  destruct (kw_pre_chars kw pre Hin Hpre) as (_ & c0 & pre' & -> & H0 & _).
  injection Hs as -> _. congruence.
Qed.

Lemma sub_nil (prev : option char) (z : str) : A prev z = [] -> z = [].
Proof.
  destruct z as [|c z']; [reflexivity|].
  destruct (match_quoted L kws prev (c :: z')) as [[[pre q] v]|] eqn:E.
  - destruct (sub_from_match L kws f prev _ _ _ _ kws_nonempty E) as (rest & _ & _ & ->).
    destruct pre; discriminate.
  - rewrite sub_from_nomatch by assumption. discriminate.
Qed.

Lemma sub_cons_inv (prev : option char) (z : str) (x : char) (tl : str) :
  A prev z = x :: tl -> is_start x = false ->
  exists z', z = x :: z' /\ tl = A (Some x) z'.
Proof.
  intros H Hx. destruct z as [|c z']; [discriminate|].
  destruct (match_quoted L kws prev (c :: z')) as [[[pre q] v]|] eqn:E.
  - exfalso.
    destruct (sub_from_match L kws f prev _ _ _ _ kws_nonempty E) as (rest & _ & _ & E2).
    destruct (match_quoted_shape L _ f _ _ _ _ _ E) as (kw & rest' & Hin & _ & Hpre & _).
    destruct (kw_pre_chars kw pre Hin Hpre) as (_ & c0 & pre' & -> & H0 & _).
    rewrite E2 in H. injection H as -> _. congruence.
  - rewrite sub_from_nomatch in H by assumption.
    injection H as -> <-. eauto.
Qed.

Lemma sub_peel (xs : str) :
  Forall (fun c => is_start c = false) xs ->
  forall (prev : option char) (z tl : str),
    xs <> [] ->
    A prev z = xs ++ tl ->
    exists z', z = xs ++ z' /\ tl = A (Some (List.last xs 0)) z'.
Proof.
  induction 1 as [|x xs Hx Hxs IH]; intros prev z tl Hne H; [congruence|].
  destruct (sub_cons_inv prev z x (xs ++ tl) H Hx) as (z1 & -> & H1).
  destruct xs as [|x2 xs'].
  - exists z1. split; [reflexivity | exact H1].
  - destruct (IH (Some x) z1 tl ltac:(discriminate) (eq_sym H1)) as (z' & -> & H2).
    exists z'. split; [reflexivity | exact H2].
Qed.

Lemma lazy_value_sub_none (q : char) :
  is_quote q = true ->
  forall (s : str) (prev : option char),
    lazy_value q s = None -> lazy_value q (A prev s) = None.
Proof.
  intros Hq. induction s as [s IH] using str_length_ind. intros prev Hs.
  destruct s as [|c s']; [reflexivity|].
  destruct (match_quoted L kws prev (c :: s')) as [[[pre q'] v]|] eqn:E.
  - destruct (sub_from_match L kws f prev _ _ _ _ kws_nonempty E)
      as (rest & Es & Hlt & ->).
    destruct (match_quoted_shape L _ f _ _ _ _ _ E)
      as (kw & rest' & Hin & _ & Hpre & Hq' & Hv).
    destruct (kw_pre_chars kw pre Hin Hpre) as (Hchars & _).
    rewrite Es in Hs.
    assert (Hpq : value_ok q pre).
    { eapply List.Forall_impl; [|exact Hchars]. simpl.
      destruct (quote_cases q Hq) as [-> | ->]; tauto. }
    rewrite lazy_value_skip in Hs by assumption.
    destruct (lazy_value q (q' :: v ++ q' :: rest)) eqn:E1; [discriminate|].
    clear Hs. simpl in E1.
    destruct (N.eqb_spec q' q) as [->|Hne]; [discriminate|].
    assert (Hq'n : q' <> nl) by (destruct (quote_cases q' Hq') as [-> | ->]; discriminate).
    rewrite (proj2 (N.eqb_neq q' nl) Hq'n) in E1.
    destruct (lazy_value q (v ++ q' :: rest)) eqn:E2; [discriminate|]. clear E1.
    apply lazy_value_none_app in E2;
      [|eapply List.Forall_impl; [|exact Hv]; simpl; tauto].
    destruct E2 as [Hvq E3]. simpl in E3.
    rewrite (proj2 (N.eqb_neq q' q) Hne), (proj2 (N.eqb_neq q' nl) Hq'n) in E3.
    destruct (lazy_value q rest) eqn:E4; [discriminate|].
    assert (Hrest : (length rest < length (c :: s'))%nat) by exact Hlt.
    pose proof (IH rest Hrest (Some q') E4) as IHr.
    rewrite lazy_value_skip by assumption.
    simpl. rewrite (proj2 (N.eqb_neq q' q) Hne), (proj2 (N.eqb_neq q' nl) Hq'n).
    rewrite lazy_value_skip by (apply f_value_ok; assumption).
    simpl. rewrite (proj2 (N.eqb_neq q' q) Hne), (proj2 (N.eqb_neq q' nl) Hq'n).
    rewrite IHr. reflexivity.
  - rewrite sub_from_nomatch by assumption.
    simpl in Hs |- *.
    destruct (c =? q); [discriminate|].
    destruct (c =? nl); [reflexivity|].
    destruct (lazy_value q s') eqn:E1; [discriminate|].
    rewrite (IH s' ltac:(simpl; lia) (Some c) E1). reflexivity.
Qed.
Lemma match_quoted_rewritten (prev : option char) (s pre v x : str) (q : char) :
  match_quoted L kws prev s = Some (pre, q, v) ->
  match_quoted L kws prev (pre ++ q :: f v ++ q :: x) = Some (pre, q, f v).
Proof.
  intros E.
  destruct (match_quoted_shape L _ f _ _ _ _ _ E)
    as (kw & rest & Hin & Hs & Hpre & Hq & Hv).
  destruct (kw_pre_chars kw pre Hin Hpre) as (_ & c0 & pre' & -> & H0 & _ & Hex).
  unfold match_quoted in *.
  assert (Hb : word_boundary L prev ((c0 :: pre') ++ q :: f v ++ q :: x)
               = word_boundary L prev s) by (rewrite Hs; reflexivity).
  rewrite Hb. destruct (word_boundary L prev s); [|discriminate].
  assert (Hm : match_kw kw ((c0 :: pre') ++ q :: f v ++ q :: x)
               = Some (c0 :: pre', q, f v)).
  { apply match_kw_spec. exists x. repeat split; auto using f_value_ok. }
  destruct Hin as [<- | [<- | []]]; cbn [match_alternatives].
  - rewrite Hm. reflexivity.
  - rewrite Hm.
    destruct (match_kw kw_src ((c0 :: pre') ++ q :: f v ++ q :: x)) eqn:E1;
      [|reflexivity].
    exfalso. unfold match_kw in E1. cbn [app startswith_ci kw_src] in E1.
    rewrite (Hex eq_refl) in E1. discriminate.
Qed.

Lemma match_quoted_none_sub (prev : option char) (c : char) (s : str) :
  match_quoted L kws prev (c :: s) = None ->
  match_quoted L kws prev (c :: A (Some c) s) = None.
Proof.
  intros Hnone.
  destruct (match_quoted L kws prev (c :: A (Some c) s)) as [[[pre q] v]|] eqn:E;
    [exfalso | reflexivity].
  destruct (match_quoted_shape L _ f _ _ _ _ _ E)
    as (kw & rest & Hin & Hs & Hpre & Hq & Hv).
  destruct (kw_pre_chars kw pre Hin Hpre) as (_ & c0 & pre' & -> & H0 & Hpre' & _).
  injection Hs as <- Hs.
  assert (Hxs : Forall (fun c => is_start c = false) (pre' ++ [q])).
  { apply Forall_app. split; [exact Hpre'|].
    constructor; [apply quote_not_start, Hq | constructor]. }
  replace (pre' ++ q :: v ++ q :: rest) with ((pre' ++ [q]) ++ v ++ q :: rest) in Hs
    by (rewrite <- app_assoc; reflexivity).
  destruct (sub_peel (pre' ++ [q]) Hxs (Some c) s _ ltac:(destruct pre'; discriminate) Hs)
    as (s5 & -> & Hv').
  rewrite List.last_last in Hv'.
  assert (Hl : lazy_value q (A (Some q) s5) = Some v).
  { apply lazy_value_spec. exists rest. split; [symmetry; exact Hv' | exact Hv]. }
  destruct (lazy_value q s5) as [v0|] eqn:E5.
  - apply lazy_value_spec in E5. destruct E5 as (rest0 & -> & Hv0).
    assert (Hm : match_kw kw (c :: (pre' ++ [q]) ++ v0 ++ q :: rest0)
                 = Some (c :: pre', q, v0)).
    { apply match_kw_spec. exists rest0. repeat split; auto.
      rewrite <- app_assoc. reflexivity. }
    unfold match_quoted in Hnone, E.
    assert (Hb : word_boundary L prev (c :: (pre' ++ [q]) ++ v0 ++ q :: rest0)
                 = word_boundary L prev (c :: A (Some c) ((pre' ++ [q]) ++ v0 ++ q :: rest0)))
      by reflexivity.
    rewrite Hb in Hnone.
    destruct (word_boundary L prev (c :: A (Some c) ((pre' ++ [q]) ++ v0 ++ q :: rest0)));
      [|discriminate].
    destruct Hin as [<- | [<- | []]]; cbn [match_alternatives] in Hnone;
      rewrite ?Hm in Hnone; try discriminate.
    destruct (match_kw kw_src (c :: (pre' ++ [q]) ++ v0 ++ q :: rest0));
      discriminate.
  - rewrite (lazy_value_sub_none q Hq s5 (Some q) E5) in Hl. discriminate.
Qed.

Lemma sub_idempotent : forall (s : str) (prev : option char), A prev (A prev s) = A prev s.
Proof.
  induction s as [s IH] using str_length_ind. intros prev.
  destruct s as [|c s']; [reflexivity|].
  destruct (match_quoted L kws prev (c :: s')) as [[[pre q] v]|] eqn:E.
  - destruct (sub_from_match L kws f prev _ _ _ _ kws_nonempty E)
      as (rest & Es & Hlt & ->).
    pose proof (match_quoted_rewritten prev _ pre v (A (Some q) rest) q E) as E2.
    destruct (sub_from_match L kws f prev _ _ _ _ kws_nonempty E2)
      as (rest2 & Es2 & _ & ->).
    apply app_inv_head in Es2. injection Es2 as Es2.
    apply app_inv_head in Es2. injection Es2 as <-.
    rewrite f_idem, (IH rest Hlt). reflexivity.
  - rewrite sub_from_nomatch by assumption.
    rewrite sub_from_nomatch by (apply match_quoted_none_sub; assumption).
    rewrite (IH s' ltac:(simpl; lia)). reflexivity.
Qed.
End AttrPass.

(** ** The normaliser applied to its own result *)

Section NormalizerIdempotent.
Variable L : pylib.
Variable is_file : path -> bool.
Variable base_dir : path.
Hypothesis law : as_uri_law L.

Abbreviation f := (to_uri_if_exists L is_file base_dir).

Lemma as_uri_kept (p : path) : should_keep (as_uri L p) = true.
Proof.
  destruct (as_uri_chars L law p) as [Hne Hall].
  assert (Htok : is_token (as_uri L p)).
  { split; [exact Hne|]. eapply List.Forall_impl; [|exact Hall].
    intros c Hc. apply uri_char_plain, Hc. }
  unfold should_keep.
  rewrite strip_trimmed
    by (split; [apply token_first_ok | apply token_last_ok]; exact Htok).
  destruct (law p) as (t & -> & _).
  replace (startswith kw_file (kw_file ++ t)) with true by reflexivity.
  rewrite orb_true_r. reflexivity.
Qed.

Lemma to_uri_idem (u : str) : f (f u) = f u.
Proof.
  destruct (to_uri_cases L is_file base_dir u) as [E | [p E]]; rewrite E.
  - exact E.
  - unfold to_uri_if_exists. rewrite as_uri_kept. reflexivity.
Qed.

Lemma to_uri_clean (x : char) (v : str) :
  x = dq \/ x = sq \/ x = nl ->
  Forall (fun c => c <> x) v -> Forall (fun c => c <> x) (f v).
Proof.
  intros Hx Hv. destruct (to_uri_cases L is_file base_dir v) as [E | [p E]]; rewrite E.
  - exact Hv.
  - destruct (as_uri_chars L law p) as [_ Hall].
    eapply List.Forall_impl; [|exact Hall].
    intros c Hc. pose proof (uri_char_plain c Hc) as H.
    destruct Hx as [-> | [-> | ->]]; tauto.
Qed.

Lemma attr_pass_idem (html : str) :
  attr_pass L is_file base_dir (attr_pass L is_file base_dir html)
  = attr_pass L is_file base_dir html.
Proof.
  unfold attr_pass, sub_quoted.
  apply sub_idempotent; [exact to_uri_idem | exact to_uri_clean].
Qed.
End NormalizerIdempotent.

(** ** The rewriter applied twice *)

(** The document directory of the example holds one file, [a b]. *)
Definition one_file (p : path) : bool := bool_decide (p = lit "/doc/a b").

(** [<img srcset=Q href='a  b' Q>] with Q the double quote: the value of the
    embedded [href] has two spaces. *)
Definition nested_srcset : str :=
  lit "<img srcset=" ++ [dq] ++ lit "href='a  b'" ++ [dq] ++ lit ">".




(** ** Decoding the captured standard error *)

Lemma decode_replace_ok (d : decoder) (raw : bytes) :
  exists s, decode d Replace raw = Ok s.
Proof. eexists. reflexivity. Qed.

(** With [errors="replace"] the first decoding always returns, so the
    branch that decodes with [gb18030] is never taken. *)
Lemma decode_stderr_utf8_only (E : env) (b : N) (rest : bytes) :
  decode_stderr E (b :: rest)
  = strip (map (fun item => match item with
                            | Some c => c
                            | None => replacement_char
                            end) (utf8 (b :: rest))).
Proof. reflexivity. Qed.

(** C9.  The bytes D6 D0 are not valid UTF-8 and are the GB18030 form of
    U+4E2D; [decode_stderr] returns two replacement characters for them,
    not U+4E2D: the decoding with [gb18030] is never reached. *)
Theorem decode_stderr_gbk_bytes :
  decode utf8 Strict [214; 208] = Raise UnicodeDecodeError
  /\ decode Demo.gb_decoder Replace [214; 208] = Ok [20013]
  /\ decode_stderr (Demo.demo_env [] [] false) [214; 208]
     = [replacement_char; replacement_char].
Proof. repeat split. Qed.

(** ** Exceptions of the encoding probe *)

Lemma ensure_failure_propagates (E : env) (md_path : path) (css_uris : list str)
      (w w' : world) (e : exn) :
  ensure_utf8_markdown E md_path
    (with_name (py E) md_path (stem (py E) md_path ++ lit ".__pandoc_tmp__.md")) w
  = (Raise e, w') ->
  convert_one_file E md_path css_uris w = (Raise e, w').
Proof.
  intros H. unfold convert_one_file, bind. cbv zeta. rewrite H. reflexivity.
Qed.

(** the demo environment with every path read-only *)
Definition readonly_env : env :=
  {| py := Posix.lib [slash];
     locked := fun _ => true;
     tool := Demo.scripted_tool [] [];
     gb18030 := Demo.gb_decoder;
     image_lib := true;
     transcode := Demo.demo_transcode;
     enum_set := fromkeys;
     bytes_repr := fun b => b;
     keep_html_on_success := false |}.

(** C1.  [convert_one_file] lets exceptions of the encoding probe through:
    a source file holding the single byte FF decodes under none of the
    three encodings and the [UnicodeDecodeError] of the last attempt leaves
    the function; a source file in GB18030 whose temporary copy cannot be
    written makes it raise [OSError].  In both cases no boolean is
    returned. *)
Theorem convert_one_file_raises :
  fst (convert_one_file (Demo.demo_env [] [] false) Demo.md_path []
         (Demo.world_of [(Demo.md_path, File [255])]))
  = Raise UnicodeDecodeError
  /\ fst (convert_one_file readonly_env Demo.md_path []
            (Demo.world_of [(Demo.md_path, File [214; 208])]))
     = Raise OSError.
Proof. split; vm_compute; reflexivity. Qed.

(** ** The order of the clean-up *)

Definition longer_first (a b : path) : Prop := (length b <= length a)%nat.

Lemma insert_longest_first_perm (p : path) (l : list path) :
  Permutation (insert_longest_first p l) (p :: l).
Proof.
  induction l as [|q l IH]; simpl; [reflexivity|].
  destruct (length q <? length p)%nat; [reflexivity|].
  rewrite IH. apply perm_swap.
Qed.

Lemma sort_longest_first_perm (l : list path) :
  Permutation (sort_longest_first l) l.
Proof.
  induction l as [|p l IH]; simpl; [reflexivity|].
  rewrite insert_longest_first_perm, IH. reflexivity.
Qed.

Lemma insert_longest_first_sorted (p : path) (l : list path) :
  StronglySorted longer_first l ->
  StronglySorted longer_first (insert_longest_first p l).
Proof.
  induction 1 as [|q l Hs IH Hq]; simpl; [repeat constructor|].
  destruct (Nat.ltb_spec (length q) (length p)) as [Hlt|Hge].
  - constructor; [constructor; assumption|].
    constructor; [unfold longer_first; lia|].
    eapply List.Forall_impl; [|exact Hq]. unfold longer_first. intros; lia.
  - constructor; [exact IH|].
    apply List.Forall_forall. intros x Hx.
    apply (Permutation_in _ (insert_longest_first_perm p l)) in Hx.
    destruct Hx as [<- | Hx]; [exact Hge|].
    rewrite List.Forall_forall in Hq. apply Hq, Hx.
Qed.

Lemma sort_longest_first_sorted (l : list path) :
  StronglySorted longer_first (sort_longest_first l).
Proof.
  induction l as [|p l IH]; simpl; [constructor|].
  apply insert_longest_first_sorted, IH.
Qed.

(** [p] comes before [d] in [l] *)
Definition before (p d : path) (l : list path) : Prop :=
  exists l1 l2 l3, l = l1 ++ p :: l2 ++ d :: l3.

Lemma sorted_longer_before (l : list path) (p d : path) :
  StronglySorted longer_first l ->
  In p l -> In d l -> (length d < length p)%nat -> before p d l.
Proof.
  intros Hs Hp Hd Hlt.
  apply in_split in Hd. destruct Hd as (l1 & l3 & ->).
  apply in_app_or in Hp. destruct Hp as [Hp | [-> | Hp]].
  - apply in_split in Hp. destruct Hp as (l1' & l2 & ->).
    exists l1', l2, l3. rewrite <- app_assoc. reflexivity.
  - lia.
  - exfalso. clear -Hs Hp Hlt. induction l1 as [|x l1 IH]; simpl in Hs.
    + inversion Hs as [|? ? _ Hall]; subst.
      rewrite List.Forall_forall in Hall. specialize (Hall p Hp).
      unfold longer_first in Hall. lia.
    + inversion Hs; subst. auto.
Qed.

(** ** Deleting the tracked artifacts *)

Ltac unfold_job :=
  unfold mbind, job_bind, mret, job_ret, bind, ret, raise, try_except,
    except_OSError, except_Exception, unless, test_file, test_dir in *.

Section Cleanup.
Variable E : env.

Lemma is_file_not_dir (w : world) (p : path) :
  is_dir E w p = true -> is_file E w p = false.
Proof.
  unfold is_dir, is_file. destruct (lookup_node E w p) as [[c|]|]; congruence.
Qed.

Lemma delete_artifact_cases (p : path) (w : world) :
  delete_artifact E p w = (Ok tt, w)
  \/ (delete_artifact E p w
      = (Ok tt, set_files (delete (resolve (py E) p) (files w)) w)
      /\ locked E (resolve (py E) p) = false
      /\ (is_file E w p = true
          \/ (is_dir E w p = true
              /\ dir_empty E (files w) (resolve (py E) p) = true))).
Proof.
  unfold delete_artifact, unlink, rmdir. unfold_job. cbv beta.
  destruct (is_file E w p) eqn:Hf; cbv beta iota; rewrite ?Hf; simpl.
  - destruct (locked E (resolve (py E) p)) eqn:Hl; simpl; auto.
  - destruct (is_dir E w p) eqn:Hd; cbv beta iota; rewrite ?Hd; simpl; auto.
    destruct (dir_empty E (files w) (resolve (py E) p)) eqn:He; simpl; auto.
    destruct (locked E (resolve (py E) p)) eqn:Hl; simpl; auto 6.
Qed.

Lemma delete_artifact_ok (p : path) (w : world) :
  exists w', delete_artifact E p w = (Ok tt, w').
Proof.
  destruct (delete_artifact_cases p w) as [H | [H _]]; eauto.
Qed.

Lemma delete_artifacts_ok (l : list path) (w : world) :
  exists w', delete_artifacts E l w = (Ok tt, w').
Proof.
  revert w. induction l as [|p l IH]; intros w; simpl.
  - eexists. reflexivity.
  - destruct (delete_artifact_ok p w) as [w1 H1].
    destruct (IH w1) as [w2 H2]. exists w2.
    unfold_job. rewrite H1. exact H2.
Qed.

Lemma delete_artifact_dir_only_empty (p : path) (w w' : world) :
  delete_artifact E p w = (Ok tt, w') ->
  is_dir E w p = true -> is_dir E w' p = false ->
  dir_empty E (files w) (resolve (py E) p) = true.
Proof.
  intros H Hd Hd'.
  destruct (delete_artifact_cases p w) as [H1 | (H1 & _ & [Hf | [_ He]])].
  - rewrite H1 in H. injection H as <-. congruence.
  - rewrite (is_file_not_dir w p Hd) in Hf. discriminate.
  - exact He.
Qed.

Lemma is_file_after_delete (w : world) (k q : path) :
  is_file E w q = false ->
  is_file E (set_files (delete k (files w)) w) q = false.
Proof.
  unfold is_file, lookup_node, set_files. simpl. intros H.
  destruct (decide (k = resolve (py E) q)) as [->|Hne].
  - rewrite lookup_delete_eq. reflexivity.
  - rewrite lookup_delete_ne by assumption. exact H.
Qed.

Lemma delete_artifact_no_file_back (p q : path) (w w' : world) :
  delete_artifact E p w = (Ok tt, w') ->
  is_file E w q = false -> is_file E w' q = false.
Proof.
  intros H Hq.
  destruct (delete_artifact_cases p w) as [H1 | (H1 & _)];
    rewrite H1 in H; injection H as <-; [exact Hq|].
  apply is_file_after_delete, Hq.
Qed.

Lemma delete_artifact_removes_file (p : path) (w w' : world) :
  delete_artifact E p w = (Ok tt, w') ->
  locked E (resolve (py E) p) = false ->
  is_file E w' p = false.
Proof.
  intros H Hl.
  destruct (is_file E w p) eqn:Hf;
    [|eapply delete_artifact_no_file_back; eassumption].
  revert H. unfold delete_artifact, unlink. unfold_job. cbv beta.
  rewrite Hf. cbv beta iota. rewrite Hf, Hl. simpl. intros [= <-].
  unfold is_file, lookup_node, set_files. simpl.
  rewrite lookup_delete_eq. reflexivity.
Qed.

Lemma delete_artifacts_no_file_back (l : list path) (q : path) (w w' : world) :
  delete_artifacts E l w = (Ok tt, w') ->
  is_file E w q = false -> is_file E w' q = false.
Proof.
  revert w. induction l as [|p l IH]; intros w; simpl.
  - unfold_job. intros [= <-]. auto.
  - destruct (delete_artifact_ok p w) as [w1 H1].
    unfold_job. rewrite H1. intros H Hq.
    apply (IH w1 H). eapply delete_artifact_no_file_back; eassumption.
Qed.

Lemma delete_artifacts_removes_files (l : list path) (w w' : world) (p : path) :
  delete_artifacts E l w = (Ok tt, w') ->
  In p l -> locked E (resolve (py E) p) = false ->
  is_file E w' p = false.
Proof.
  revert w. induction l as [|q l IH]; intros w H Hin Hl; [destruct Hin|].
  simpl in H. destruct (delete_artifact_ok q w) as [w1 H1].
  unfold_job. rewrite H1 in H.
  destruct Hin as [-> | Hin].
  - eapply delete_artifacts_no_file_back; [exact H|].
    eapply delete_artifact_removes_file; eassumption.
  - eapply IH; eassumption.
Qed.

(** With the keep-HTML mode off, the [finally] clause of a successful job
    removes the HTML and the temporary Markdown copy and then runs the loop
    over the tracked artifacts, provided the two removals are permitted. *)
Lemma cleanup_runs_loop (html_path md_tmp_path : path) (arts : list path) (w : world) :
  keep_html_on_success E = false ->
  locked E (resolve (py E) html_path) = false ->
  locked E (resolve (py E) md_tmp_path) = false ->
  exists w1,
    log w1 = log w
    /\ cleanup E html_path md_tmp_path true arts w
       = delete_artifacts E (cleanup_order E arts) w1.
Proof.
  intros Hk Hh Hm. unfold cleanup, unlink. unfold_job. cbv beta.
  rewrite Hk, Hh, Hm, ?orb_false_r, ?andb_true_r.
  destruct (is_file E w html_path) eqn:Hf; simpl; rewrite ?Hf; simpl;
    match goal with
    | |- context [is_file E ?w1 md_tmp_path] =>
        destruct (is_file E w1 md_tmp_path) eqn:Hf2; simpl; rewrite ?Hf2; simpl
    end;
    match goal with
    | |- context [delete_artifacts E ?l ?w1] =>
        exists w1; split; [reflexivity|];
          destruct (delete_artifacts_ok l w1) as [w2 ->]; reflexivity
    end.
Qed.
End Cleanup.

(** What iterating over [set(l)] guarantees: every element of [l], once. *)
Definition set_order_law (E : env) : Prop :=
  forall l : list path,
    List.NoDup (enum_set E l) /\ (forall p, In p (enum_set E l) <-> In p l).

Lemma fromkeys_In (l : list str) (p : str) : In p (fromkeys l) <-> In p l.
Proof.
  induction l as [|x l IH]; simpl; [tauto|].
  rewrite filter_In, IH. unfold str_eqb.
  destruct (decide (x = p)) as [->|Hne].
  - tauto.
  - rewrite bool_decide_eq_false_2 by assumption. simpl. tauto.
Qed.

Lemma fromkeys_NoDup (l : list str) : List.NoDup (fromkeys l).
Proof.
  induction l as [|x l IH]; simpl; [apply List.NoDup_nil|].
  apply List.NoDup_cons.
  - rewrite filter_In. unfold str_eqb.
    rewrite bool_decide_eq_true_2 by reflexivity. simpl. intros [_ H]. discriminate.
  - apply List.NoDup_filter, IH.
Qed.

Lemma demo_set_order_law (html : bytes) (script : list outcome) (keep : bool) :
  set_order_law (Demo.demo_env html script keep).
Proof. intros l. split; [apply fromkeys_NoDup | intros p; apply fromkeys_In]. Qed.

Lemma cleanup_order_spec (E : env) (arts : list path) :
  set_order_law E ->
  List.NoDup (cleanup_order E arts)
  /\ (forall p, In p (cleanup_order E arts) <-> In p arts)
  /\ StronglySorted longer_first (cleanup_order E arts).
Proof.
  intros law. destruct (law arts) as [Hnd Hin]. unfold cleanup_order.
  pose proof (sort_longest_first_perm (enum_set E arts)) as Hp.
  split; [|split].
  - eapply Permutation_NoDup; [symmetry; exact Hp | exact Hnd].
  - intros p. rewrite <- Hin. split; apply Permutation_in; [exact Hp | symmetry; exact Hp].
  - apply sort_longest_first_sorted.
Qed.

(** The HTML of the example refers to one local webp image. *)
Definition webp_html : bytes := lit "<p><img src='pic.webp' alt='p'></p>".

Definition webp_world : world :=
  Demo.world_of [(Demo.md_path, File (lit "# title"));
                 (lit "/doc/pic.webp", File (lit "RIFF"))].


Example default_mode_removes_artifacts :
  let E := Demo.demo_env webp_html [] false in
  let end_state := convert_one_file E Demo.md_path [] webp_world in
  fst end_state = Ok true
  /\ files (snd end_state)
     = list_to_map [(Demo.md_path, File (lit "# title"));
                    (lit "/doc/pic.webp", File (lit "RIFF"))].
Proof. vm_compute. repeat split. Qed.



(** ** The transcoder and images with the same stem *)

Section Transcoder.
Variable E : env.

Lemma is_file_after_write (w : world) (k : path) (c : bytes) (q : path) :
  is_file E w q = true ->
  is_file E (set_files (<[k := File c]> (files w)) w) q = true.
Proof.
  unfold is_file, lookup_node, set_files. simpl. intros H.
  destruct (decide (k = resolve (py E) q)) as [->|Hne].
  - rewrite lookup_insert_eq. reflexivity.
  - rewrite lookup_insert_ne by assumption. exact H.
Qed.

Lemma image_convert_cases (src dst : path) (w : world) :
  (exists e, image_convert E src dst w
             = (Raise e, {| files := files w; log := log w ++ [Decoded src] |}))
  \/ (exists c, image_convert E src dst w
                = (Ok tt, {| files := <[resolve (py E) dst := File c]> (files w);
                             log := log w ++ [Decoded src] |})).
Proof.
  unfold image_convert, emit, read_bytes, write_bytes, is_dir, lookup_node, set_files.
  unfold_job. simpl.
  destruct (files w !! resolve (py E) src) as [[c|]|]; simpl; eauto.
  destruct (transcode E c) as [png|]; simpl; eauto.
  destruct (locked E (resolve (py E) dst)); simpl; eauto.
  destruct (files w !! resolve (py E) dst) as [[c'|]|]; simpl; eauto.
Qed.

(** The turn of the loop for a locator whose image is there and whose
    converted copy already exists: nothing is decoded or written. *)
Lemma transcode_one_cached (out_dir : path) (st : str * list path) (uri : str)
      (p : path) (w : world) :
  webp_source E uri = Some p ->
  is_file E w p = true ->
  is_file E w (png_target E out_dir p) = true ->
  transcode_one E out_dir st uri w
  = (Ok (replace uri (as_uri (py E) (resolve (py E) (png_target E out_dir p))) (fst st),
         snd st ++ [png_target E out_dir p]), w).
Proof.
  intros Hs Hp Hc. unfold transcode_one. rewrite Hs. unfold_job.
  rewrite Hp. simpl. rewrite Hc. reflexivity.
Qed.

(** A turn of the loop always completes; it either leaves the state as it
    was, or the converted copy exists afterwards and the locator is
    rewritten to it. *)
Lemma transcode_one_cases (out_dir : path) (st : str * list path) (uri : str)
      (w : world) :
  exists st' w',
    transcode_one E out_dir st uri w = (Ok st', w')
    /\ (forall q, is_file E w q = true -> is_file E w' q = true)
    /\ (st' = st
        \/ exists p,
            webp_source E uri = Some p
            /\ is_file E w' (png_target E out_dir p) = true
            /\ st' = (replace uri (as_uri (py E) (resolve (py E) (png_target E out_dir p)))
                        (fst st),
                      snd st ++ [png_target E out_dir p])).
Proof.
  unfold transcode_one.
  destruct (webp_source E uri) as [p|] eqn:Hs; unfold_job; [|eauto 10].
  destruct (is_file E w p) eqn:Hp; simpl; [|eauto 10].
  destruct (is_file E w (png_target E out_dir p)) eqn:Hc; simpl.
  - do 2 eexists. split; [reflexivity|]. split; [auto|]. right. eauto.
  - destruct (image_convert_cases p (png_target E out_dir p) w) as [[e H] | [c H]];
      rewrite H; simpl.
    + do 2 eexists. split; [reflexivity|]. split; [|auto].
      intros q Hq. exact Hq.
    + do 2 eexists. split; [reflexivity|]. split.
      * intros q Hq. apply (is_file_after_write w _ c q Hq).
      * right. exists p. split; [reflexivity|]. split; [|reflexivity].
        unfold is_file, lookup_node. simpl. rewrite lookup_insert_eq. reflexivity.
Qed.

Lemma transcode_loop_keeps_files (out_dir : path) (l : list str)
      (st st' : str * list path) (w w' : world) (q : path) :
  foldM (transcode_one E out_dir) st l w = (Ok st', w') ->
  is_file E w q = true -> is_file E w' q = true.
Proof.
  revert st w. induction l as [|u l IH]; intros st w; simpl.
  - unfold_job. intros [= <- <-]. auto.
  - destruct (transcode_one_cases out_dir st u w) as (st1 & w1 & H1 & Hk & _).
    unfold_job. rewrite H1. intros H Hq. eapply IH; [exact H | apply Hk, Hq].
Qed.

Lemma transcode_loop_ok (out_dir : path) (l : list str) (st : str * list path)
      (w : world) :
  exists st' w', foldM (transcode_one E out_dir) st l w = (Ok st', w').
Proof.
  revert st w. induction l as [|u l IH]; intros st w; simpl.
  - do 2 eexists. reflexivity.
  - destruct (transcode_one_cases out_dir st u w) as (st1 & w1 & H1 & _).
    unfold_job. rewrite H1. apply IH.
Qed.

Lemma foldM_app (out_dir : path) (l1 l2 : list str) (st : str * list path)
      (w : world) :
  foldM (transcode_one E out_dir) st (l1 ++ l2) w
  = match foldM (transcode_one E out_dir) st l1 w with
    | (Ok st1, w1) => foldM (transcode_one E out_dir) st1 l2 w1
    | (Raise e, w1) => (Raise e, w1)
    end.
Proof.
  revert st w. induction l1 as [|u l1 IH]; intros st w; simpl; [reflexivity|].
  unfold_job. destruct (transcode_one E out_dir st u w) as [[st1|e] w1]; [apply IH | reflexivity].
Qed.
End Transcoder.

(** Two images with the same stem, [pic], in two directories; the first
    cannot be decoded. *)
Definition two_webp_html : str :=
  lit "<img src='file:///doc/a/pic.webp'><img src='file:///doc/b/pic.webp'>".

Definition two_webp_world (first second : bytes) : world :=
  Demo.world_of [(lit "/doc/a/pic.webp", File first);
                 (lit "/doc/b/pic.webp", File second)].


Example same_stem_first_image_wins :
  let E := Demo.demo_env [] [] false in
  let done := convert_webp_images_in_html E two_webp_html (lit "/doc") []
                (two_webp_world (lit "RIFF-A") (lit "RIFF-B")) in
  log (snd done) = [Decoded (lit "doc/a/pic.webp")]
  /\ files (snd done) !! lit "/doc/.__wkhtml_img_tmp__/pic.png"
     = Some (File (lit "PNG:RIFF-A"))
  /\ fst done
     = Ok (lit "<img src='file:///doc/.__wkhtml_img_tmp__/pic.png'><img src='file:///doc/.__wkhtml_img_tmp__/pic.png'>",
           [lit "/doc/.__wkhtml_img_tmp__/pic.png"; lit "/doc/.__wkhtml_img_tmp__/pic.png";
            lit "/doc/.__wkhtml_img_tmp__"]).
Proof. vm_compute. repeat split. Qed.



(** ** What a job writes to the log *)

Definition is_renderer_run (ev : event) : bool :=
  match ev with
  | Run (prog :: _) _ => str_eqb prog (lit "wkhtmltopdf")
  | _ => false
  end.

(** the number of renderer invocations recorded *)
Definition renderer_runs (evs : list event) : nat :=
  length (List.filter is_renderer_run evs).

Definition no_run (ev : event) : Prop :=
  match ev with Run _ _ => False | _ => True end.

(** a computation that adds to the log only events that satisfy [P] *)
Definition logs {A : Type} (P : event -> Prop) (m : M A) : Prop :=
  forall w, exists evs, log (snd (m w)) = log w ++ evs /\ Forall P evs.

(** a computation that runs no external program *)
Abbreviation quiet := (logs no_run).

(** a computation that leaves the log as it is *)
Abbreviation silent := (logs (fun _ => False)).

Lemma silent_log {A : Type} (m : M A) (w : world) :
  silent m -> log (snd (m w)) = log w.
Proof.
  intros H. destruct (H w) as (evs & -> & F).
  destruct evs as [|ev evs]; [apply app_nil_r | inversion F; contradiction].
Qed.

Lemma renderer_runs_app (l1 l2 : list event) :
  renderer_runs (l1 ++ l2) = (renderer_runs l1 + renderer_runs l2)%nat.
Proof. unfold renderer_runs. rewrite List.filter_app, length_app. reflexivity. Qed.

Lemma renderer_runs_no_run (evs : list event) :
  Forall no_run evs -> renderer_runs evs = 0%nat.
Proof.
  unfold renderer_runs. induction 1 as [|ev evs Hev _ IH]; [reflexivity|].
  simpl. destruct ev; simpl in *; [contradiction | exact IH | exact IH].
Qed.

Lemma logs_ret (P : event -> Prop) {A : Type} (a : A) : logs P (ret a).
Proof. intros w. exists []. rewrite app_nil_r. split; [reflexivity | constructor]. Qed.

Lemma logs_raise (P : event -> Prop) {A : Type} (e : exn) : logs P (@raise A e).
Proof. intros w. exists []. rewrite app_nil_r. split; [reflexivity | constructor]. Qed.

Lemma logs_bind (P : event -> Prop) {A B : Type} (m : M A) (k : A -> M B) :
  logs P m -> (forall a, logs P (k a)) -> logs P (bind m k).
Proof.
  intros Hm Hk w. unfold bind. destruct (Hm w) as (e1 & H1 & F1).
  destruct (m w) as [[a|e] w1]; simpl in *.
  - destruct (Hk a w1) as (e2 & H2 & F2). exists (e1 ++ e2).
    rewrite H2, H1, <- app_assoc. split; [reflexivity | apply Forall_app; auto].
  - exists e1. auto.
Qed.

Lemma logs_try_except (P : event -> Prop) {A : Type} (m : M A) (h : exn -> option (M A)) :
  logs P m -> (forall e k, h e = Some k -> logs P k) -> logs P (try_except m h).
Proof.
  intros Hm Hh w. unfold try_except. destruct (Hm w) as (e1 & H1 & F1).
  destruct (m w) as [[a|e] w1]; simpl in *.
  - exists e1. auto.
  - destruct (h e) as [k|] eqn:Ek; simpl.
    + destruct (Hh e k Ek w1) as (e2 & H2 & F2). exists (e1 ++ e2).
      rewrite H2, H1, <- app_assoc. split; [reflexivity | apply Forall_app; auto].
    + exists e1. auto.
Qed.

Lemma logs_same_log (P : event -> Prop) {A : Type} (m : M A) :
  (forall w, log (snd (m w)) = log w) -> logs P m.
Proof.
  intros H w. exists []. rewrite app_nil_r. split; [apply H | constructor].
Qed.

Lemma logs_unless (P : event -> Prop) (b : bool) (m : M unit) : logs P m -> logs P (unless b m).
Proof. intros H. unfold unless. destruct b; [apply logs_ret | exact H]. Qed.

Lemma logs_except_OSError (P : event -> Prop) {A : Type} (k : M A) :
  logs P k -> forall e k', except_OSError k e = Some k' -> logs P k'.
Proof. intros Hk e k'. destruct e; simpl; try discriminate. intros [= <-]. exact Hk. Qed.

Lemma logs_except_Exception (P : event -> Prop) {A : Type} (k : M A) :
  logs P k -> forall e k', except_Exception k e = Some k' -> logs P k'.
Proof. intros Hk e k' [= <-]. exact Hk. Qed.

Section Quiet.
Variable E : env.

Lemma logs_test_file (P : event -> Prop) (p : path) : logs P (test_file E p).
Proof. apply logs_same_log. reflexivity. Qed.

Lemma logs_test_dir (P : event -> Prop) (p : path) : logs P (test_dir E p).
Proof. apply logs_same_log. reflexivity. Qed.

Lemma logs_read_bytes (P : event -> Prop) (p : path) : logs P (read_bytes E p).
Proof.
  apply logs_same_log. intros w. unfold read_bytes.
  destruct (lookup_node E w p) as [[c|]|]; reflexivity.
Qed.

Lemma logs_write_bytes (P : event -> Prop) (p : path) (c : bytes) : logs P (write_bytes E p c).
Proof.
  apply logs_same_log. intros w. unfold write_bytes.
  destruct (locked E (resolve (py E) p) || is_dir E w p); reflexivity.
Qed.

Lemma logs_unlink (P : event -> Prop) (p : path) : logs P (unlink E p).
Proof.
  apply logs_same_log. intros w. unfold unlink.
  destruct (is_file E w p && negb (locked E (resolve (py E) p))); reflexivity.
Qed.

Lemma logs_rmdir (P : event -> Prop) (p : path) : logs P (rmdir E p).
Proof.
  apply logs_same_log. intros w. unfold rmdir.
  destruct (is_dir E w p && dir_empty E (files w) (resolve (py E) p)
            && negb (locked E (resolve (py E) p))); reflexivity.
Qed.

Lemma logs_mkdir (P : event -> Prop) (p : path) : logs P (mkdir E p).
Proof.
  apply logs_same_log. intros w. unfold mkdir.
  destruct (lookup_node E w p) as [[c|]|]; try reflexivity.
  destruct (locked E (resolve (py E) p)); reflexivity.
Qed.

Lemma logs_emit (P : event -> Prop) (ev : event) : P ev -> logs P (emit ev).
Proof. intros H w. exists [ev]. split; [reflexivity | repeat constructor; exact H]. Qed.

Lemma logs_read_text (P : event -> Prop) (p : path) : logs P (read_text E p).
Proof.
  unfold read_text. apply logs_bind; [apply logs_read_bytes|].
  intros raw. destruct (decode utf8 Strict raw); [apply logs_ret | apply logs_raise].
Qed.

Lemma logs_write_text (P : event -> Prop) (p : path) (s : str) : logs P (write_text E p s).
Proof. apply logs_write_bytes. Qed.

Lemma quiet_image_convert (src dst : path) : quiet (image_convert E src dst).
Proof.
  unfold image_convert. apply logs_bind; [apply logs_emit; exact I|].
  intros _. apply logs_bind; [apply logs_read_bytes|].
  intros c. destruct (transcode E c); [apply logs_write_bytes | apply logs_raise].
Qed.

Lemma quiet_transcode_one (out_dir : path) (st : str * list path) (uri : str) :
  quiet (transcode_one E out_dir st uri).
Proof.
  unfold transcode_one. apply logs_try_except;
    [|apply logs_except_Exception, logs_ret].
  destruct (webp_source E uri) as [p|]; [|apply logs_raise].
  apply logs_bind; [apply logs_test_file|]. intros present.
  destruct (negb present); [apply logs_ret|].
  apply logs_bind; [apply logs_test_file|]. intros cached.
  apply logs_bind; [apply logs_unless, quiet_image_convert|].
  intros _. apply logs_ret.
Qed.

Lemma quiet_foldM (out_dir : path) (l : list str) (st : str * list path) :
  quiet (foldM (transcode_one E out_dir) st l).
Proof.
  revert st. induction l as [|u l IH]; intros st; simpl; [apply logs_ret|].
  apply logs_bind; [apply quiet_transcode_one | exact IH].
Qed.

Lemma quiet_convert_webp (html : str) (html_dir : path) (arts : list path) :
  quiet (convert_webp_images_in_html E html html_dir arts).
Proof.
  unfold convert_webp_images_in_html.
  destruct (negb (image_lib E)); [apply logs_ret|].
  destruct (fromkeys (findall_webp 0 html)); [apply logs_ret|].
  apply logs_bind.
  - apply logs_try_except; [|apply logs_except_OSError, logs_ret].
    apply logs_bind; [apply logs_mkdir | intros _; apply logs_ret].
  - intros made. destruct made; [|apply logs_ret].
    apply logs_bind; [apply quiet_foldM | intros st; apply logs_ret].
Qed.

Lemma quiet_sanitize_text (html_path : path) (html : str) (arts : list path) :
  quiet (sanitize_text E html_path html arts).
Proof.
  unfold sanitize_text. apply logs_bind.
  - apply logs_same_log. reflexivity.
  - intros h. apply quiet_convert_webp.
Qed.

Lemma quiet_sanitize (html_path : path) (arts : list path) :
  quiet (sanitize_html_for_wkhtmltopdf E html_path arts).
Proof.
  unfold sanitize_html_for_wkhtmltopdf.
  apply logs_bind; [apply logs_emit; exact I|]. intros _.
  apply logs_bind.
  - apply logs_try_except; [|apply logs_except_OSError, logs_ret].
    apply logs_bind; [apply logs_read_text | intros h; apply logs_ret].
  - intros [html|]; [|apply logs_ret].
    apply logs_bind; [apply quiet_sanitize_text|]. intros st.
    apply logs_bind; [|intros _; apply logs_ret].
    apply logs_try_except; [apply logs_write_text|].
    apply logs_except_OSError, logs_ret.
Qed.

Lemma logs_delete_artifacts (P : event -> Prop) (l : list path) : logs P (delete_artifacts E l).
Proof.
  induction l as [|p l IH]; simpl; [apply logs_ret|].
  apply logs_bind; [|intros _; exact IH].
  unfold delete_artifact. apply logs_try_except;
    [|apply logs_except_OSError, logs_ret].
  apply logs_bind; [apply logs_test_file|]. intros f.
  destruct f; [apply logs_unlink|].
  apply logs_bind; [apply logs_test_dir|]. intros d.
  destruct d; [apply logs_rmdir | apply logs_ret].
Qed.

Lemma logs_cleanup (P : event -> Prop) (html_path md_tmp_path : path) (success : bool) (arts : list path) :
  logs P (cleanup E html_path md_tmp_path success arts).
Proof.
  unfold cleanup. apply logs_try_except; [|apply logs_except_OSError, logs_ret].
  destruct success; [|apply logs_ret].
  apply logs_bind; [apply logs_test_file|]. intros h.
  apply logs_bind; [apply logs_unless, logs_unlink|]. intros _.
  apply logs_bind; [apply logs_test_file|]. intros m.
  apply logs_bind; [apply logs_unless, logs_unlink|]. intros _.
  apply logs_unless, logs_delete_artifacts.
Qed.

Lemma cleanup_ok (html_path md_tmp_path : path) (success : bool) (arts : list path)
      (w : world) :
  exists w', cleanup E html_path md_tmp_path success arts w = (Ok tt, w').
Proof.
  unfold cleanup, try_except.
  match goal with |- context [match ?m w with _ => _ end] => destruct (m w) as [[[]|e] w1] eqn:Hm end.
  - eauto.
  - destruct e; simpl; eauto; exfalso.
    all: revert Hm; destruct success; [|unfold_job; discriminate].
    all: unfold unlink; unfold_job; cbv beta.
    all: destruct (is_file E w html_path) eqn:Hf; simpl; rewrite ?Hf; simpl.
    all: repeat match goal with
           | |- context [if ?b then _ else _] => destruct b eqn:?; simpl
           end; try discriminate.
    all: match goal with
         | |- context [delete_artifacts E ?l ?w1] =>
             destruct (delete_artifacts_ok E l w1) as [w2 ->]; discriminate
         end.
Qed.
End Quiet.

(** ** The retry without stylesheets *)

Section Retry.
Variable E : env.

Lemma logs_ensure (P : event -> Prop) (input_path md_tmp_path : path) :
  logs P (ensure_utf8_markdown E input_path md_tmp_path).
Proof.
  unfold ensure_utf8_markdown. apply logs_bind.
  - apply logs_try_except; [|apply logs_except_OSError, logs_ret].
    apply logs_bind; [apply logs_read_bytes | intros raw; apply logs_ret].
  - intros [raw|]; [|apply logs_ret].
    destruct (decode utf8 Strict raw); [apply logs_ret|].
    apply logs_bind.
    + destruct (decode utf8_sig Strict raw); [apply logs_ret|].
      destruct (decode (gb18030 E) Strict raw); [apply logs_ret | apply logs_raise].
    + intros text. apply logs_bind; [apply logs_write_text | intros _; apply logs_ret].
Qed.

Lemma runs_after_quiet {A : Type} (m : M A) (w w' : world) (r : result A) :
  quiet m -> m w = (r, w') -> renderer_runs (log w') = renderer_runs (log w).
Proof.
  intros Hq H. destruct (Hq w) as (evs & Hl & F). rewrite H in Hl. simpl in Hl.
  rewrite Hl, renderer_runs_app, (renderer_runs_no_run evs F). lia.
Qed.

Lemma run_command_log (cmd : list str) (w w' : world) (r : result unit) :
  run_command E cmd w = (r, w') -> exists o, log w' = log w ++ [Run cmd o].
Proof.
  unfold run_command. destruct (tool E (log w) cmd (files w)) as [o fs].
  destruct o; intros [= <- <-]; eexists; reflexivity.
Qed.

Lemma run_renderer_count (html_path output_pdf : path) (w w' : world) (r : result unit) :
  run_command E (build_wkhtmltopdf_cmd html_path output_pdf) w = (r, w') ->
  renderer_runs (log w') = S (renderer_runs (log w)).
Proof.
  intros H. destruct (run_command_log _ _ _ _ H) as [o ->].
  rewrite renderer_runs_app. unfold renderer_runs at 2. simpl. lia.
Qed.

Lemma run_converter_count (input html_path : path) (title : str) (css : list str)
      (w w' : world) (r : result unit) :
  run_command E (build_pandoc_cmd input html_path title css) w = (r, w') ->
  renderer_runs (log w') = renderer_runs (log w).
Proof.
  intros H. destruct (run_command_log _ _ _ _ H) as [o ->].
  rewrite renderer_runs_app. unfold renderer_runs at 2. simpl. lia.
Qed.

(** the steps of the retry: regenerate without stylesheets, sanitise again,
    render once *)
Definition retry (pandoc_input html_path output_pdf : path) (title : str)
           (arts : list path) : M (list path) :=
  bind (run_command E (build_pandoc_cmd pandoc_input html_path title []))
       (fun _ =>
          bind (sanitize_html_for_wkhtmltopdf E html_path arts)
               (fun arts' =>
                  bind (run_command E (build_wkhtmltopdf_cmd html_path output_pdf))
                       (fun _ => ret arts'))).

Lemma conversion_after_failure (pandoc_input html_path output_pdf : path) (title : str)
      (css : list str) (w0 wa w1 w2 : world) (arts : list path) (err : bytes) :
  run_command E (build_pandoc_cmd pandoc_input html_path title css) w0 = (Ok tt, wa) ->
  sanitize_html_for_wkhtmltopdf E html_path [] wa = (Ok arts, w1) ->
  run_command E (build_wkhtmltopdf_cmd html_path output_pdf) w1
  = (Raise (CalledProcessError err), w2) ->
  conversion E pandoc_input html_path output_pdf title css w0
  = match css with
    | [] => (Raise (CalledProcessError err), w2)
    | _ :: _ => retry pandoc_input html_path output_pdf title arts w2
    end.
Proof.
  intros H1 H2 H3. unfold conversion, retry. unfold mbind, job_bind.
  unfold bind at 1. rewrite H1. unfold bind at 1. rewrite H2.
  unfold try_except. unfold bind at 1. rewrite H3.
  destruct css; reflexivity.
Qed.
End Retry.

(** the paths and commands of the job for one Markdown file *)
Definition job_html (E : env) (md_path : path) : path :=
  with_name (py E) md_path (stem (py E) md_path ++ lit ".html").
Definition job_md_tmp (E : env) (md_path : path) : path :=
  with_name (py E) md_path (stem (py E) md_path ++ lit ".__pandoc_tmp__.md").
Definition job_pdf (E : env) (md_path : path) : path :=
  with_suffix (py E) md_path (lit ".pdf").
Definition convert_cmd (E : env) (md_path input : path) (css : list str) : list str :=
  build_pandoc_cmd input (job_html E md_path) (stem (py E) md_path) css.
Definition render_cmd (E : env) (md_path : path) : list str :=
  build_wkhtmltopdf_cmd (job_html E md_path) (job_pdf E md_path).

Lemma job_result (E : env) (md_path : path) (css : list str) (w w0 : world)
      (input : path) :
  ensure_utf8_markdown E md_path (job_md_tmp E md_path) w = (Ok input, w0) ->
  convert_one_file E md_path css w
  = guarded_conversion E input (job_html E md_path) (job_md_tmp E md_path)
      (job_pdf E md_path) (stem (py E) md_path) css w0.
Proof.
  intros H. unfold convert_one_file, job_md_tmp in *. cbv zeta.
  unfold bind. rewrite H. reflexivity.
Qed.

(** what the [try] statement returns, from what its block returns *)
Lemma guarded_cases (E : env) (input html_path md_tmp_path output_pdf : path)
      (title : str) (css : list str) (w w1 : world) (r : result (list path)) :
  conversion E input html_path output_pdf title css w = (r, w1) ->
  exists wf,
    renderer_runs (log wf) = renderer_runs (log w1)
    /\ guarded_conversion E input html_path md_tmp_path output_pdf title css w
       = (match r with
          | Ok _ => Ok true
          | Raise (CalledProcessError _) => Ok false
          | Raise e => Raise e
          end, wf).
Proof.
  intros H. unfold guarded_conversion. rewrite H.
  destruct r as [arts|e].
  - destruct (cleanup_ok E html_path md_tmp_path true arts w1) as [wf Hc].
    exists wf. rewrite Hc. split; [|reflexivity].
    eapply runs_after_quiet; [apply logs_cleanup | exact Hc].
  - destruct (cleanup_ok E html_path md_tmp_path false [] w1) as [wf Hc].
    exists wf. split; [eapply runs_after_quiet; [apply logs_cleanup | exact Hc]|].
    destruct e; rewrite Hc; reflexivity.
Qed.

(** C2, amended.  In a job whose HTML was produced and sanitised and whose
    renderer invocation then failed: with an empty stylesheet list the job
    fails with no further renderer invocation.  With a non-empty list the
    converter is run again with an empty stylesheet list; if that run fails,
    or sanitising the regenerated HTML raises, the job does not succeed and
    the renderer is not invoked again; otherwise the renderer is invoked
    exactly one more time, and the job succeeds exactly when that invocation
    does. *)
Theorem renderer_retry_policy :
  forall (E : env) (md_path : path) (css : list str) (input : path)
         (w w0 wa w1 w2 : world) (arts : list path) (err : bytes),
    ensure_utf8_markdown E md_path (job_md_tmp E md_path) w = (Ok input, w0) ->
    run_command E (convert_cmd E md_path input css) w0 = (Ok tt, wa) ->
    sanitize_html_for_wkhtmltopdf E (job_html E md_path) [] wa = (Ok arts, w1) ->
    run_command E (render_cmd E md_path) w1 = (Raise (CalledProcessError err), w2) ->
    let job := convert_one_file E md_path css w in
    let runs := renderer_runs (log (snd job)) in
    let earlier := renderer_runs (log w) in
    (css = [] -> fst job = Ok false /\ runs = S earlier)
    /\ (css <> [] ->
        forall r3 w3,
          run_command E (convert_cmd E md_path input []) w2 = (r3, w3) ->
          match r3 with
          | Raise _ => fst job <> Ok true /\ runs = S earlier
          | Ok _ =>
              forall r4 w4,
                sanitize_html_for_wkhtmltopdf E (job_html E md_path) arts w3 = (r4, w4) ->
                match r4 with
                | Raise _ => fst job <> Ok true /\ runs = S earlier
                | Ok _ =>
                    forall r5 w5,
                      run_command E (render_cmd E md_path) w4 = (r5, w5) ->
                      runs = S (S earlier)
                      /\ (fst job = Ok true <-> r5 = Ok tt)
                      /\ (forall e, r5 = Raise (CalledProcessError e) -> fst job = Ok false)
                end
          end).
Proof.
  intros E md_path css input w w0 wa w1 w2 arts err Hens Hpd Hsan Hwk job runs earlier.
  assert (R0 : renderer_runs (log w0) = earlier)
    by (eapply runs_after_quiet; [apply logs_ensure | exact Hens]).
  assert (Ra : renderer_runs (log wa) = earlier)
    by (rewrite <- R0; eapply run_converter_count; exact Hpd).
  assert (R1 : renderer_runs (log w1) = earlier)
    by (rewrite <- Ra; eapply runs_after_quiet; [apply quiet_sanitize | exact Hsan]).
  assert (R2 : renderer_runs (log w2) = S earlier)
    by (rewrite <- R1; eapply run_renderer_count; exact Hwk).
  pose proof (conversion_after_failure E input (job_html E md_path) (job_pdf E md_path)
                (stem (py E) md_path) css w0 wa w1 w2 arts err Hpd Hsan Hwk) as Hconv.
  assert (Hjob : job = guarded_conversion E input (job_html E md_path)
                         (job_md_tmp E md_path) (job_pdf E md_path)
                         (stem (py E) md_path) css w0)
    by (apply job_result; exact Hens).
  split.
  - intros ->.
    destruct (guarded_cases E input (job_html E md_path) (job_md_tmp E md_path)
                (job_pdf E md_path) (stem (py E) md_path) [] w0 _ _ Hconv)
      as (wf & Hr & Hg).
    unfold runs. rewrite Hjob, Hg. simpl. split; [reflexivity | congruence].
  - intros Hne r3 w3 H3. destruct css as [|c css']; [congruence|].
    assert (R3 : renderer_runs (log w3) = S earlier)
      by (rewrite <- R2; eapply run_converter_count; exact H3).
    unfold retry in Hconv. unfold bind at 1 in Hconv.
    unfold convert_cmd in H3. rewrite H3 in Hconv.
    destruct r3 as [[]|e3].
    + intros r4 w4 H4.
      assert (R4 : renderer_runs (log w4) = S earlier)
        by (rewrite <- R3; eapply runs_after_quiet; [apply quiet_sanitize | exact H4]).
      unfold bind at 1 in Hconv. rewrite H4 in Hconv.
      destruct r4 as [arts'|e4].
      * intros r5 w5 H5.
        assert (R5 : renderer_runs (log w5) = S (S earlier))
          by (rewrite <- R4; eapply run_renderer_count; exact H5).
        unfold bind in Hconv. unfold render_cmd in H5. rewrite H5 in Hconv.
        destruct r5 as [[]|e5];
          destruct (guarded_cases E input (job_html E md_path) (job_md_tmp E md_path)
                      (job_pdf E md_path) (stem (py E) md_path) (c :: css') w0 _ _ Hconv)
            as (wf & Hr & Hg);
          unfold runs; rewrite Hjob, Hg; simpl;
          (split; [congruence|]); split.
        -- tauto.
        -- intros e [=].
        -- destruct e5; split; intros [=].
        -- intros e [= ->]. reflexivity.
      * destruct (guarded_cases E input (job_html E md_path) (job_md_tmp E md_path)
                    (job_pdf E md_path) (stem (py E) md_path) (c :: css') w0 _ _ Hconv)
          as (wf & Hr & Hg).
        unfold runs. rewrite Hjob, Hg. simpl.
        split; [destruct e4; discriminate | congruence].
    + destruct (guarded_cases E input (job_html E md_path) (job_md_tmp E md_path)
                  (job_pdf E md_path) (stem (py E) md_path) (c :: css') w0 _ _ Hconv)
        as (wf & Hr & Hg).
      unfold runs. rewrite Hjob, Hg. simpl.
      split; [destruct e3; discriminate | congruence].
Qed.

Definition plain_html : bytes := lit "<p>hello</p>".

Definition plain_world : world :=
  Demo.world_of [(Demo.md_path, File (lit "hello"))].

(** C2, as stated, fails when the regeneration itself fails: the converter
    succeeds, the renderer fails, the converter run without stylesheets
    fails; the job is declared failed after a single renderer invocation. *)
Lemma retry_skipped_when_regeneration_fails :
  let E := Demo.demo_env plain_html [Done; Failed (lit "render"); Failed (lit "convert")] false in
  let css := [lit "file:///theme/whitey.css"] in
  let job := convert_one_file E Demo.md_path css plain_world in
  fst job = Ok false
  /\ log (snd job)
     = [Run (convert_cmd E Demo.md_path Demo.md_path css) Done;
        Sanitized (lit "/doc/a.html");
        Run (render_cmd E Demo.md_path) (Failed (lit "render"));
        Run (convert_cmd E Demo.md_path Demo.md_path []) (Failed (lit "convert"))]
  /\ renderer_runs (log (snd job)) = 1%nat.
Proof. vm_compute. repeat split. Qed.

Lemma renderer_retry_policy_witness :
  let E := Demo.demo_env plain_html
             [Done; Failed (lit "render"); Done; Failed (lit "again")] false in
  let css := [lit "file:///theme/whitey.css"] in
  let job := convert_one_file E Demo.md_path css plain_world in
  renderer_runs (log (snd job)) = 2%nat /\ fst job = Ok false.
Proof.
  intros E css job.
  pose (w0 := plain_world).
  pose (wa := snd (run_command E (convert_cmd E Demo.md_path Demo.md_path css) w0)).
  pose (s1 := sanitize_html_for_wkhtmltopdf E (job_html E Demo.md_path) [] wa).
  pose (w1 := snd s1).
  pose (w2 := snd (run_command E (render_cmd E Demo.md_path) w1)).
  pose (w3 := snd (run_command E (convert_cmd E Demo.md_path Demo.md_path []) w2)).
  pose (s4 := sanitize_html_for_wkhtmltopdf E (job_html E Demo.md_path) [] w3).
  pose (w5 := snd (run_command E (render_cmd E Demo.md_path) (snd s4))).
  assert (H0 : ensure_utf8_markdown E Demo.md_path (job_md_tmp E Demo.md_path) plain_world
               = (Ok Demo.md_path, w0)) by (vm_compute; reflexivity).
  assert (Ha : run_command E (convert_cmd E Demo.md_path Demo.md_path css) w0 = (Ok tt, wa))
    by (vm_compute; reflexivity).
  assert (H1 : s1 = (Ok [], w1)) by (vm_compute; reflexivity).
  assert (H2 : run_command E (render_cmd E Demo.md_path) w1
               = (Raise (CalledProcessError (lit "render")), w2))
    by (vm_compute; reflexivity).
  assert (H3 : run_command E (convert_cmd E Demo.md_path Demo.md_path []) w2 = (Ok tt, w3))
    by (vm_compute; reflexivity).
  assert (H4 : s4 = (Ok [], snd s4)) by (vm_compute; reflexivity).
  assert (H5 : run_command E (render_cmd E Demo.md_path) (snd s4)
               = (Raise (CalledProcessError (lit "again")), w5))
    by (vm_compute; reflexivity).
  destruct (renderer_retry_policy E Demo.md_path css Demo.md_path
              plain_world w0 wa w1 w2 [] (lit "render") H0 Ha H1 H2) as [_ Hretry].
  specialize (Hretry ltac:(discriminate) (Ok tt) w3 H3 (Ok []) (snd s4) H4
                     (Raise (CalledProcessError (lit "again"))) w5 H5).
  destruct Hretry as (Hruns & _ & Hfail).
  split; [exact Hruns | exact (Hfail _ eq_refl)].
Defined.

(** ** Empty [href] and [src] attributes *)

(** [<a href=QQ></a><img srcset=Q href=_ QQ>], with Q the double quote and
    _ a space: the value of [srcset] is [href=] followed by a space, and a
    second double quote follows the closing one. *)
Definition trailing_space_srcset : str :=
  lit "<a href=" ++ [dq; dq] ++ lit "></a><img srcset=" ++ [dq] ++ lit "href= "
      ++ [dq; dq] ++ lit ">".


(** [P] occurs in [s] *)
Definition occurs (P s : str) : Prop := exists l r, s = l ++ P ++ r.

Lemma startswith_spec (p s : str) :
  startswith p s = true <-> exists r, s = p ++ r.
Proof.
  split.
  - revert s. induction p as [|a p IH]; intros s H; [exists s; reflexivity|].
    destruct s as [|b s]; [discriminate|]. simpl in H.
    apply andb_true_iff in H. destruct H as [Hab H]. apply N.eqb_eq in Hab. subst b.
    destruct (IH s H) as [r ->]. exists r. reflexivity.
  - intros [r ->]. induction p as [|a p IH]; [reflexivity|].
    simpl. rewrite N.eqb_refl. exact IH.
Qed.

Lemma contains_spec (P s : str) : contains P s = true <-> occurs P s.
Proof.
  split.
  - induction s as [|c s IH]; simpl; rewrite orb_true_iff; intros [H | H].
    + apply startswith_spec in H. destruct H as [r ->]. exists [], r. reflexivity.
    + discriminate.
    + apply startswith_spec in H. destruct H as [r ->]. exists [], r. reflexivity.
    + destruct (IH H) as (l & r & ->). exists (c :: l), r. reflexivity.
  - intros (l & r & ->). induction l as [|c l IH].
    + simpl app. destruct (P ++ r) eqn:E; simpl; rewrite <- ?E;
        rewrite (proj2 (startswith_spec P (P ++ r))) by eauto; reflexivity.
    + simpl. rewrite IH. apply orb_true_r.
Qed.

Lemma contains_false (P s : str) : contains P s = false <-> ~ occurs P s.
Proof.
  rewrite <- contains_spec. destruct (contains P s); split; congruence.
Qed.

Lemma occurs_app_l (P x y : str) : occurs P x -> occurs P (x ++ y).
Proof.
  intros (l & r & ->). exists l, (r ++ y). rewrite <- !app_assoc. reflexivity.
Qed.

Lemma occurs_app_r (P x y : str) : occurs P y -> occurs P (x ++ y).
Proof.
  intros (l & r & ->). exists (x ++ l), r. rewrite <- !app_assoc. reflexivity.
Qed.

Lemma occurs_cons (P : str) (c : char) (r : str) :
  occurs P (c :: r) -> startswith P (c :: r) = true \/ occurs P r.
Proof.
  intros (l & r' & H). destruct l as [|d l].
  - left. apply startswith_spec. exists r'. exact H.
  - right. injection H as -> ->. exists l, r'. reflexivity.
Qed.

Lemma occurs_snoc (P l : str) (c : char) :
  occurs P (l ++ [c]) -> occurs P l \/ exists l', l ++ [c] = l' ++ P.
Proof.
  intros (a & b & H).
  destruct b as [|z b] using rev_ind.
  - right. exists a. rewrite app_nil_r in H. exact H.
  - left. clear IHb. rewrite !app_assoc in H. apply app_inj_tail in H.
    destruct H as [-> _]. exists a, b. rewrite <- app_assoc. reflexivity.
Qed.

Lemma occurs_split_char (P l r : str) (x : char) :
  ~ In x P -> occurs P (l ++ x :: r) -> occurs P l \/ occurs P r.
Proof.
  intros Hx (a & b & H).
  apply List.app_eq_app in H. destruct H as [z [[-> H] | [-> H]]].
  - apply List.app_eq_app in H.
    destruct H as [z' [[-> H] | [-> H]]].
    + destruct z' as [|y z'].
      * left. exists a, []. rewrite !app_nil_r. reflexivity.
      * injection H as <- _. exfalso. apply Hx. apply in_or_app. right. left. reflexivity.
    + left. exists a, z'. reflexivity.
  - destruct z as [|y z].
    + simpl in H. destruct P as [|p P].
      * right. exists [], r. reflexivity.
      * injection H as <- _. exfalso. apply Hx. left. reflexivity.
    + injection H as _ ->. right. exists z, b. reflexivity.
Qed.

(** ** [str.replace] and the occurrences of a pattern *)

Lemma replace_from_skip (old new : str) (k : nat) (s : str) :
  replace_from old new k s = replace_from old new 0 (skipn k s).
Proof.
  revert k. induction s as [|c s IH]; intros k; destruct k; try reflexivity.
  simpl. apply IH.
Qed.

Lemma replace_cons (old new : str) (c : char) (s : str) :
  replace old new (c :: s)
  = if startswith old (c :: s)
    then new ++ replace old new (skipn (length old - 1) s)
    else c :: replace old new s.
Proof.
  unfold replace. cbn [replace_from].
  destruct (startswith old (c :: s)); [|reflexivity].
  rewrite replace_from_skip. reflexivity.
Qed.

(** a text that no occurrence of [P] can touch *)
Definition inert (P t : str) : Prop :=
  forall l r, occurs P (l ++ t ++ r) -> occurs P l \/ occurs P r.

Lemma replace_preserves (P old new : str) :
  inert P new ->
  forall s w, occurs P (w ++ replace old new s) -> occurs P (w ++ s).
Proof.
  intros Hin. induction s as [s IH] using str_length_ind. intros w.
  destruct s as [|c s']; [auto|].
  rewrite replace_cons. destruct (startswith old (c :: s')).
  - intros H. apply Hin in H. destruct H as [H | H].
    + apply occurs_app_l, H.
    + assert (Hlt : (length (skipn (length old - 1) s') < length (c :: s'))%nat).
      { rewrite List.length_skipn. simpl. lia. }
      apply (IH _ Hlt []) in H. simpl in H.
      apply occurs_app_r.
      rewrite <- (firstn_skipn (length old - 1) s').
      change (c :: firstn (length old - 1) s' ++ skipn (length old - 1) s')
        with ((c :: firstn (length old - 1) s') ++ skipn (length old - 1) s').
      apply occurs_app_r, H.
  - intros H.
    change (w ++ c :: replace old new s') with (w ++ [c] ++ replace old new s') in H.
    rewrite app_assoc in H. apply (IH s' ltac:(simpl; lia)) in H.
    rewrite <- app_assoc in H. exact H.
Qed.

Lemma firstn_succ_split (m : nat) (l : str) :
  firstn (S m) l = firstn m l ++ firstn 1 (skipn m l).
Proof.
  revert l. induction m as [|m IH]; intros l; destruct l as [|c l]; try reflexivity.
  change (firstn (S (S m)) (c :: l)) with (c :: firstn (S m) l).
  rewrite IH. reflexivity.
Qed.

Lemma firstn_keeps_prefix (a y : str) (m : nat) :
  (length a <= m)%nat -> firstn m (a ++ y) = a ++ firstn (m - length a) y.
Proof.
  intros H. rewrite List.firstn_app, List.firstn_all2 by exact H. reflexivity.
Qed.

(** After [s.replace(old, new)], where [new] is [old] with a character
    foreign to [old] put inside, [old] does not occur any more. *)
Lemma replace_kills (old a b : str) (x : char) :
  ~ In x old ->
  (exists a', a' <> [] /\ old = a ++ a') ->
  (forall t, (length t < length old)%nat -> ~ occurs old (b ++ t)) ->
  forall s, ~ occurs old (replace old (a ++ x :: b) s).
Proof.
  intros Hx (a' & Ha' & Hold) HK.
  assert (Hn : (length a < length old)%nat).
  { rewrite Hold, length_app. destruct a'; [congruence | simpl; lia]. }
  assert (T : forall s w,
             occurs old (w ++ replace old (a ++ x :: b) s) ->
             occurs old (w ++ firstn (length old - 1) s)).
  { induction s as [s IH] using str_length_ind. intros w.
    destruct s as [|c s'].
    - rewrite firstn_nil. auto.
    - rewrite replace_cons. destruct (startswith old (c :: s')) eqn:Hsw.
      + apply startswith_spec in Hsw. destruct Hsw as [rest Hs].
        assert (Hskip : skipn (length old - 1) s' = rest).
        { destruct old as [|o old']; [simpl in Hn; lia|].
          injection Hs as _ ->. simpl. rewrite Nat.sub_0_r.
          rewrite List.skipn_app, List.skipn_all, Nat.sub_diag. reflexivity. }
        rewrite Hskip. intros H.
        replace (w ++ (a ++ x :: b) ++ replace old (a ++ x :: b) rest)
          with ((w ++ a) ++ x :: (b ++ replace old (a ++ x :: b) rest)) in H
          by (rewrite <- !app_assoc; reflexivity).
        apply occurs_split_char in H; [|exact Hx]. destruct H as [H | H].
        * assert (Hs' : c :: s' = a ++ (a' ++ rest))
            by (rewrite Hs; rewrite Hold at 1; rewrite <- app_assoc; reflexivity).
          rewrite Hs', firstn_keeps_prefix by lia.
          rewrite app_assoc. apply occurs_app_l, H.
        * exfalso.
          assert (Hlt : (length rest < length (c :: s'))%nat).
          { rewrite Hs, length_app. lia. }
          apply (IH rest Hlt b) in H. revert H. apply HK.
          rewrite List.length_firstn. lia.
      + intros H.
        change (w ++ c :: replace old (a ++ x :: b) s')
          with (w ++ [c] ++ replace old (a ++ x :: b) s') in H.
        rewrite app_assoc in H. apply (IH s' ltac:(simpl; lia)) in H.
        rewrite <- app_assoc in H. simpl in H.
        remember (length old - 1)%nat as m eqn:Hm.
        change (c :: firstn m s') with (firstn (S m) (c :: s')) in H.
        rewrite firstn_succ_split, app_assoc in H.
        destruct (firstn 1 (skipn m (c :: s'))) as [|z [|z2 e]] eqn:He.
        * rewrite app_nil_r in H. exact H.
        * apply occurs_snoc in H. destruct H as [H | [l' H]]; [exact H|].
          exfalso.
          assert (Hlen : length (firstn m (c :: s') ++ [z]) = length old).
          { rewrite length_app, List.length_firstn. simpl length.
            assert (H1 : length (firstn 1 (skipn m (c :: s'))) = 1%nat)
              by (rewrite He; reflexivity).
            rewrite List.length_firstn, List.length_skipn in H1. simpl length in H1. lia. }
          rewrite <- app_assoc in H.
          apply app_inj_2 in H; [|exact Hlen]. destruct H as [_ H].
          assert (Hst : startswith old (c :: s') = true).
          { apply startswith_spec. exists (skipn (S m) (c :: s')).
            rewrite <- H, <- He, <- firstn_succ_split, firstn_skipn. reflexivity. }
          congruence.
        * exfalso.
          assert (H1 : (length (firstn 1 (skipn m (c :: s'))) <= 1)%nat)
            by (rewrite List.length_firstn; lia).
          rewrite He in H1. simpl in H1. lia. }
  intros s H. apply (T s []) in H. simpl in H.
  destruct H as (l & r & H). apply (f_equal (@length char)) in H.
  rewrite List.length_firstn, !length_app in H. lia.
Qed.

Lemma no_room (old : str) (c : char) (t : str) :
  hd c old <> c -> old <> [] ->
  (length t < length old)%nat -> ~ occurs old ([c] ++ t).
Proof.
  intros Hhd Hne Hlt (l & r & H).
  assert (Hlen : (length l + length r = 0)%nat).
  { apply (f_equal (@length char)) in H. rewrite !length_app in H. simpl in H. lia. }
  destruct l; [|simpl in Hlen; lia]. destruct old as [|o old']; [congruence|].
  simpl in H. injection H as -> _. simpl in Hhd. congruence.
Qed.

(** ** Deciding that a text keeps a pattern out *)

Definition suffix_clash (P t : str) : bool :=
  negb (startswith (rev P) (rev t) || startswith (rev t) (rev P)).

Definition prefix_clash (P t : str) : bool :=
  negb (startswith P t || startswith t P).

Lemma common_start (x1 y1 x2 y2 : str) :
  x1 ++ y1 = x2 ++ y2 -> startswith x1 x2 = true \/ startswith x2 x1 = true.
Proof.
  intros H. apply List.app_eq_app in H. destruct H as [z [[-> _] | [-> _]]].
  - right. apply startswith_spec. eauto.
  - left. apply startswith_spec. eauto.
Qed.

Lemma ends_no_clash (P l l' t : str) :
  l ++ t = l' ++ P -> suffix_clash P t = false.
Proof.
  intros H. apply (f_equal (@rev char)) in H. rewrite !rev_app_distr in H.
  unfold suffix_clash. apply common_start in H.
  destruct H as [H | H]; rewrite H; rewrite ?orb_true_r; reflexivity.
Qed.

Definition right_free (P t : str) : bool :=
  forallb (fun k => suffix_clash P (firstn k t)) (seq 1 (length t)).

Definition left_free (P t : str) : bool :=
  forallb (fun k => prefix_clash P (skipn k t)) (seq 0 (length t)).

Lemma peel_right (P t : str) :
  right_free P t = true -> forall l, occurs P (l ++ t) -> occurs P l.
Proof.
  unfold right_free. rewrite forallb_forall.
  induction t as [|z t0 IH] using rev_ind; intros Hfree l H.
  - rewrite app_nil_r in H. exact H.
  - rewrite app_assoc in H. apply occurs_snoc in H. destruct H as [H | [l' H]].
    + apply IH; [|exact H]. intros k Hk. apply in_seq in Hk.
      specialize (Hfree k). rewrite List.firstn_app in Hfree.
      replace (k - length t0)%nat with 0%nat in Hfree by lia.
      simpl in Hfree. rewrite app_nil_r in Hfree. apply Hfree.
      apply in_seq. rewrite length_app. simpl. lia.
    + exfalso. rewrite <- app_assoc in H. apply ends_no_clash in H.
      specialize (Hfree (length (t0 ++ [z]))).
      rewrite List.firstn_all in Hfree. rewrite Hfree in H; [discriminate|].
      apply in_seq. rewrite length_app. simpl. lia.
Qed.

Lemma peel_left (P t : str) :
  left_free P t = true -> forall r, occurs P (t ++ r) -> occurs P r.
Proof.
  unfold left_free. rewrite forallb_forall.
  induction t as [|c t IH]; intros Hfree r H; [exact H|].
  simpl in H. apply occurs_cons in H. destruct H as [H | H].
  - exfalso. apply startswith_spec in H. destruct H as [r' H].
    change (c :: t ++ r) with ((c :: t) ++ r) in H. symmetry in H.
    apply common_start in H. specialize (Hfree 0%nat).
    unfold prefix_clash in Hfree. simpl skipn in Hfree.
    destruct H as [H | H]; rewrite H in Hfree; rewrite ?orb_true_r in Hfree;
      (discriminate Hfree; [apply in_seq; simpl; lia]).
  - apply IH; [|exact H]. intros k Hk. apply in_seq in Hk.
    apply (Hfree (S k)). apply in_seq. simpl. lia.
Qed.

Definition inert_by (P a : str) (x : char) (b : str) : bool :=
  negb (existsb (N.eqb x) P) && right_free P a && left_free P b.

Lemma inert_by_spec (P a b : str) (x : char) :
  inert_by P a x b = true -> inert P (a ++ x :: b).
Proof.
  unfold inert_by. rewrite !andb_true_iff, negb_true_iff.
  intros [[Hx Ha] Hb] l r H.
  replace (l ++ (a ++ x :: b) ++ r) with ((l ++ a) ++ x :: (b ++ r)) in H
    by (rewrite <- !app_assoc; reflexivity).
  apply occurs_split_char in H.
  - destruct H as [H | H]; [left; eapply peel_right | right; eapply peel_left]; eassumption.
  - intros Hin. assert (existsb (N.eqb x) P = true); [|congruence].
    apply existsb_exists. exists x. split; [exact Hin | apply N.eqb_refl].
Qed.

(** ** The fixed substitutions *)

Definition empty_attr_patterns : list str :=
  [href_dq_empty; href_sq_empty; src_dq_empty; src_sq_empty].

Lemma replace_keeps_out (P old a b : str) (x : char) (s : str) :
  inert_by P a x b = true ->
  ~ occurs P s -> ~ occurs P (replace old (a ++ x :: b) s).
Proof.
  intros Hi Hs H. apply Hs.
  apply (replace_preserves P old (a ++ x :: b) (inert_by_spec P a b x Hi) s []). exact H.
Qed.

Lemma replace_empty_attr_kills (kw : str) (q : char) (s : str) :
  ~ In hash (kw ++ [q; q]) -> hd q (kw ++ [q; q]) <> q ->
  ~ occurs (kw ++ [q; q]) (replace (kw ++ [q; q]) (kw ++ [q; hash; q]) s).
Proof.
  intros Hx Hhd.
  replace (kw ++ [q; hash; q]) with ((kw ++ [q]) ++ hash :: [q])
    by (rewrite <- app_assoc; reflexivity).
  apply replace_kills.
  - exact Hx.
  - exists [q]. split; [discriminate | rewrite <- app_assoc; reflexivity].
  - intros t Ht. apply no_room; [exact Hhd | destruct kw; discriminate | exact Ht].
Qed.

Lemma fixed_substitutions_clean (P html : str) :
  In P empty_attr_patterns -> ~ occurs P (fixed_substitutions html).
Proof.
  intros HP. unfold fixed_substitutions.
  set (t1 := replace href_dq_empty href_dq_hash html).
  set (t2 := replace href_sq_empty href_sq_hash t1).
  set (t3 := replace src_dq_empty src_dq_hash t2).
  set (t4 := replace src_sq_empty src_sq_hash t3).
  assert (K1 : ~ occurs href_dq_empty t1).
  { apply (replace_empty_attr_kills (lit "href=") dq html);
      [vm_compute; intuition discriminate | discriminate]. }
  assert (K2 : ~ occurs href_sq_empty t2).
  { apply (replace_empty_attr_kills (lit "href=") sq t1);
      [vm_compute; intuition discriminate | discriminate]. }
  assert (K3 : ~ occurs src_dq_empty t3).
  { apply (replace_empty_attr_kills (lit "src=") dq t2);
      [vm_compute; intuition discriminate | discriminate]. }
  assert (K4 : ~ occurs src_sq_empty t4).
  { apply (replace_empty_attr_kills (lit "src=") sq t3);
      [vm_compute; intuition discriminate | discriminate]. }
  assert (S2 : forall P s, In P empty_attr_patterns -> ~ occurs P s ->
                           ~ occurs P (replace href_sq_empty href_sq_hash s)).
  { intros P' s HP' Hs.
    apply (replace_keeps_out P' href_sq_empty (lit "href='") [sq] hash s); [|exact Hs].
    destruct HP' as [<- | [<- | [<- | [<- | []]]]]; vm_compute; reflexivity. }
  assert (S3 : forall P s, In P empty_attr_patterns -> ~ occurs P s ->
                           ~ occurs P (replace src_dq_empty src_dq_hash s)).
  { intros P' s HP' Hs.
    apply (replace_keeps_out P' src_dq_empty (lit "src=" ++ [dq]) [dq] hash s); [|exact Hs].
    destruct HP' as [<- | [<- | [<- | [<- | []]]]]; vm_compute; reflexivity. }
  assert (S4 : forall P s, In P empty_attr_patterns -> ~ occurs P s ->
                           ~ occurs P (replace src_sq_empty src_sq_hash s)).
  { intros P' s HP' Hs.
    apply (replace_keeps_out P' src_sq_empty (lit "src='") [sq] hash s); [|exact Hs].
    destruct HP' as [<- | [<- | [<- | [<- | []]]]]; vm_compute; reflexivity. }
  assert (S5 : forall P s, In P empty_attr_patterns -> ~ occurs P s ->
                           ~ occurs P (replace about_blank [hash] s)).
  { intros P' s HP' Hs.
    apply (replace_keeps_out P' about_blank [] [] hash s); [|exact Hs].
    destruct HP' as [<- | [<- | [<- | [<- | []]]]]; vm_compute; reflexivity. }
  apply S5; [exact HP|].
  destruct HP as [<- | [<- | [<- | [<- | []]]]].
  - apply S4, S3, S2, K1; simpl; auto.
  - apply S4, S3, K2; simpl; auto.
  - apply S4, K3; simpl; auto.
  - exact K4.
Qed.

(** ** The [src]/[href] pass and the transcoder bring no empty attribute *)

Lemma pattern_shape (P : str) :
  In P empty_attr_patterns ->
  exists kw q,
    P = kw ++ 61 :: [q; q]
    /\ Forall (fun c => is_quote c = false) kw
    /\ is_quote q = true
    /\ ~ In 105 P /\ ~ In 103 P.
Proof.
  intros [<- | [<- | [<- | [<- | []]]]];
    [exists (lit "href"), dq | exists (lit "href"), sq
     | exists (lit "src"), dq | exists (lit "src"), sq];
    (split; [reflexivity|]); (split; [repeat constructor|]);
    (split; [reflexivity|]); split; vm_compute; intuition discriminate.
Qed.

Lemma uri_char_not_quote (c : char) : uri_char c = true -> is_quote c = false.
Proof.
  intros H. destruct (uri_char_plain c H) as (_ & _ & Hd & Hs & _).
  unfold is_quote. rewrite (proj2 (N.eqb_neq c dq) Hd), (proj2 (N.eqb_neq c sq) Hs).
  reflexivity.
Qed.

Lemma startswith_blocked (kw tailP u x : str) (q : char) :
  Forall (fun c => is_quote c = false) kw ->
  Forall (fun c => uri_char c = true) u ->
  is_quote q = true ->
  startswith (kw ++ 61 :: tailP) (u ++ q :: x) = false.
Proof.
  intros Hkw Hu Hq. revert u Hu.
  induction Hkw as [|a kw Ha Hkw IH]; intros u Hu.
  - destruct Hu as [|c u Hc Hu]; cbn [startswith app].
    + destruct (quote_cases q Hq) as [-> | ->]; reflexivity.
    + destruct (uri_char_plain c Hc) as (_ & _ & _ & _ & _ & H61).
      rewrite (proj2 (N.eqb_neq 61 c)) by congruence. reflexivity.
  - destruct Hu as [|c u Hc Hu]; cbn [startswith app].
    + destruct (N.eqb_spec a q) as [->|]; [congruence | reflexivity].
    + rewrite IH by assumption. apply andb_false_r.
Qed.

Lemma peel_left_uri (P u x : str) (q : char) :
  In P empty_attr_patterns ->
  Forall (fun c => uri_char c = true) u ->
  is_quote q = true ->
  occurs P (u ++ q :: x) -> occurs P (q :: x).
Proof.
  intros HP Hu Hq. destruct (pattern_shape P HP) as (kw & q0 & -> & Hkw & _).
  induction Hu as [|c u Hc Hu IH]; [auto|].
  intros H. simpl in H. apply occurs_cons in H. destruct H as [H | H]; [|auto].
  change (c :: u ++ q :: x) with ((c :: u) ++ q :: x) in H.
  rewrite startswith_blocked in H; [discriminate | exact Hkw | constructor; assumption | exact Hq].
Qed.

Lemma peel_right_chars (P0 t : str) (q : char) :
  Forall (fun c => c <> q) t ->
  forall l, occurs (P0 ++ [q]) (l ++ t) -> occurs (P0 ++ [q]) l.
Proof.
  induction t as [|z t0 IH] using rev_ind; intros Ht l H.
  - rewrite app_nil_r in H. exact H.
  - apply Forall_app in Ht. destruct Ht as [Ht0 Hz].
    rewrite app_assoc in H. apply occurs_snoc in H. destruct H as [H | [l' H]].
    + apply IH; assumption.
    + exfalso. rewrite app_assoc in H. apply app_inj_tail in H. destruct H as [_ ->].
      inversion Hz; subst. congruence.
Qed.

Lemma peel_right_uri (P t : str) :
  In P empty_attr_patterns ->
  Forall (fun c => uri_char c = true) t ->
  forall l, occurs P (l ++ t) -> occurs P l.
Proof.
  intros HP Ht. destruct (pattern_shape P HP) as (kw & q & -> & _ & Hq & _).
  replace (kw ++ 61 :: [q; q]) with ((kw ++ [61; q]) ++ [q])
    by (rewrite <- app_assoc; reflexivity).
  apply peel_right_chars. eapply List.Forall_impl; [|exact Ht].
  intros c Hc E. subst c. apply uri_char_not_quote in Hc. congruence.
Qed.

Section KeepsOut.
Variable L : pylib.
Variable is_file : path -> bool.
Variable base_dir : path.
Hypothesis law : as_uri_law L.

Lemma attr_pass_keeps_out (P : str) :
  In P empty_attr_patterns ->
  forall (s : str) (prev : option char) (w : str),
    occurs P (w ++ sub_from L [kw_src; kw_href]
                      (to_uri_if_exists L is_file base_dir) 0 prev s) ->
    occurs P (w ++ s).
Proof.
  intros HP. destruct (pattern_shape P HP) as (kw & q0 & EP & _ & _ & H105 & _).
  induction s as [s IH] using str_length_ind. intros prev w.
  destruct s as [|c s']; [auto|].
  destruct (match_quoted L [kw_src; kw_href] prev (c :: s')) as [[[pre q] v]|] eqn:E.
  - destruct (sub_from_match L [kw_src; kw_href] (to_uri_if_exists L is_file base_dir)
                prev _ _ _ _ kws_nonempty E)
      as (rest & Es & Hlt & ->).
    destruct (match_quoted_shape L _ (to_uri_if_exists L is_file base_dir) _ _ _ _ _ E)
      as (kw' & rest' & _ & _ & _ & Hq & _).
    rewrite Es.
    destruct (to_uri_cases L is_file base_dir v) as [Ev | [p Ev]]; rewrite Ev.
    + intros H.
      replace (w ++ pre ++ q :: v ++ q :: sub_from L [kw_src; kw_href]
                 (to_uri_if_exists L is_file base_dir) 0 (Some q) rest)
        with ((w ++ pre ++ q :: v ++ [q]) ++ sub_from L [kw_src; kw_href]
                 (to_uri_if_exists L is_file base_dir) 0 (Some q) rest) in H
        by (rewrite <- !app_assoc; simpl; rewrite <- app_assoc; reflexivity).
      apply (IH rest Hlt) in H.
      rewrite <- !app_assoc in H. simpl in H. rewrite <- app_assoc in H. exact H.
    + destruct (law p) as (t & Et & Ht). rewrite Et. intros H.
      assert (Htail : Forall (fun c => uri_char c = true) ([108; 101; 58; 47; 47] ++ t)).
      { apply Forall_app. split; [repeat constructor|].
        apply List.Forall_forall. apply forallb_forall. exact Ht. }
      replace (w ++ pre ++ q :: (kw_file ++ t) ++ q :: sub_from L [kw_src; kw_href]
                 (to_uri_if_exists L is_file base_dir) 0 (Some q) rest)
        with (((w ++ pre ++ [q]) ++ [102]) ++ 105 ::
              (([108; 101; 58; 47; 47] ++ t) ++ q :: sub_from L [kw_src; kw_href]
                 (to_uri_if_exists L is_file base_dir) 0 (Some q) rest)) in H
        by (unfold kw_file; rewrite <- !app_assoc; reflexivity).
      apply occurs_split_char in H; [|exact H105]. destruct H as [H | H].
      * apply peel_right_uri in H; [|exact HP | repeat constructor].
        replace (w ++ pre ++ q :: v ++ q :: rest)
          with ((w ++ pre ++ [q]) ++ v ++ q :: rest)
          by (rewrite <- !app_assoc; reflexivity).
        apply occurs_app_l. exact H.
      * apply peel_left_uri in H; [|exact HP | exact Htail | exact Hq].
        change (q :: sub_from L [kw_src; kw_href]
                       (to_uri_if_exists L is_file base_dir) 0 (Some q) rest)
          with ([q] ++ sub_from L [kw_src; kw_href]
                       (to_uri_if_exists L is_file base_dir) 0 (Some q) rest) in H.
        apply (IH rest Hlt) in H.
        replace (w ++ pre ++ q :: v ++ q :: rest)
          with ((w ++ pre ++ q :: v) ++ [q] ++ rest)
          by (rewrite <- !app_assoc; reflexivity).
        apply occurs_app_r, H.
  - rewrite sub_from_nomatch by assumption. intros H.
    change (w ++ c :: sub_from L [kw_src; kw_href]
                        (to_uri_if_exists L is_file base_dir) 0 (Some c) s')
      with (w ++ [c] ++ sub_from L [kw_src; kw_href]
                        (to_uri_if_exists L is_file base_dir) 0 (Some c) s') in H.
    rewrite app_assoc in H. apply (IH s' ltac:(simpl; lia)) in H.
    rewrite <- app_assoc in H. exact H.
Qed.
End KeepsOut.

(** ** The locator of a converted image *)

(** On every platform the locator of [out_dir / (stem + ".png")] ends in
    [.png]: neither joining, resolving nor escaping touches the suffix of
    the last component. *)
Definition png_uri_law (L : pylib) : Prop :=
  forall (d : path) (name : str),
    exists t, as_uri L (resolve L (joinpath L d (name ++ kw_png))) = t ++ kw_png.

Lemma split_char_last_piece (sep : char) (a b : str) :
  Forall (fun c => c <> sep) b ->
  exists ps x, split_char sep (a ++ b) = ps ++ [x ++ b].
Proof.
  intros Hb. induction a as [|c a IH].
  - exists [], []. simpl. apply split_char_plain, Hb.
  - destruct IH as (ps & x & IH). simpl. rewrite IH.
    destruct (c =? sep).
    + exists ([] :: ps), x. reflexivity.
    + destruct ps as [|p ps]; simpl.
      * exists [], (c :: x). reflexivity.
      * exists ((c :: p) :: ps), x. reflexivity.
Qed.

Lemma parts_of_png (a : str) :
  exists ps x, Posix.parts_of (a ++ kw_png) = ps ++ [x ++ kw_png].
Proof.
  destruct (split_char_last_piece slash a kw_png) as (ps & x & H).
  { repeat constructor; discriminate. }
  unfold Posix.parts_of. rewrite H, List.filter_app.
  eexists _, x. f_equal. cbn [List.filter].
  replace (nonempty (x ++ kw_png)) with true by (destruct x; reflexivity).
  replace (str_eqb (x ++ kw_png) Posix.dot) with false; [reflexivity|].
  symmetry. apply bool_decide_eq_false_2. intros E.
  apply (f_equal (@length char)) in E. rewrite length_app in E. simpl in E. lia.
Qed.

Lemma join_last (sep : str) (qs : list str) (y : str) :
  exists pre, join sep (qs ++ [y]) = pre ++ y.
Proof.
  induction qs as [|q qs IH]; [exists []; reflexivity|].
  destruct IH as [pre IH]. simpl app.
  destruct (qs ++ [y]) as [|z zs] eqn:E; [destruct qs; discriminate|].
  change (join sep (q :: z :: zs)) with (q ++ sep ++ join sep (z :: zs)).
  rewrite IH. exists (q ++ sep ++ pre). rewrite <- !app_assoc. reflexivity.
Qed.

Lemma render_last (root : str) (qs : list str) (y : str) :
  exists pre, Posix.render root (qs ++ [y]) = pre ++ y.
Proof.
  destruct (join_last [slash] qs y) as [pre H].
  exists (root ++ pre). unfold Posix.render.
  destruct (qs ++ [y]) as [|z zs] eqn:E; [destruct qs; discriminate|].
  rewrite H. destruct root; rewrite <- ?app_assoc; reflexivity.
Qed.

Lemma collapse_last (ps stack : list str) (y : str) :
  y <> Posix.dotdot ->
  exists zs, Posix.collapse stack (ps ++ [y]) = zs ++ [y].
Proof.
  intros Hy. revert stack. induction ps as [|p ps IH]; intros stack; simpl.
  - unfold str_eqb. rewrite bool_decide_eq_false_2 by exact Hy.
    exists (rev stack). reflexivity.
  - destruct (str_eqb p Posix.dotdot); apply IH.
Qed.

Lemma png_not_dotdot (x : str) : x ++ kw_png <> Posix.dotdot.
Proof.
  intros E. apply (f_equal (@length char)) in E. rewrite length_app in E. simpl in E. lia.
Qed.

Lemma posix_joinpath_png (d : path) (name : str) :
  exists t, Posix.joinpath d (name ++ kw_png) = t ++ kw_png.
Proof.
  destruct (parts_of_png name) as (ps & x & H).
  unfold Posix.joinpath, Posix.mkpath. rewrite H.
  destruct (Posix.root_of (name ++ kw_png)).
  - destruct (render_last (Posix.root_of d) (Posix.parts_of d ++ ps) (x ++ kw_png))
      as [pre Hr].
    exists (pre ++ x).
    rewrite <- (app_assoc pre x kw_png), <- Hr, <- (app_assoc (Posix.parts_of d) ps).
    reflexivity.
  - destruct (render_last (c :: s) ps (x ++ kw_png)) as [pre Hr].
    exists (pre ++ x). rewrite <- (app_assoc pre x kw_png). exact Hr.
Qed.

Lemma posix_resolve_png (cwd : path) (a : str) :
  exists t, Posix.resolve cwd (a ++ kw_png) = t ++ kw_png.
Proof.
  destruct (parts_of_png a) as (ps & x & H).
  unfold Posix.resolve. rewrite H.
  destruct (Posix.root_of (a ++ kw_png)).
  - destruct (collapse_last (Posix.parts_of cwd ++ ps) [] (x ++ kw_png) (png_not_dotdot x))
      as [zs Hz].
    destruct (render_last (Posix.root_of cwd) zs (x ++ kw_png)) as [pre Hr].
    exists (pre ++ x).
    rewrite <- (app_assoc pre x kw_png), <- Hr, <- Hz, <- (app_assoc (Posix.parts_of cwd) ps).
    reflexivity.
  - destruct (collapse_last ps [] (x ++ kw_png) (png_not_dotdot x)) as [zs Hz].
    destruct (render_last (c :: s) zs (x ++ kw_png)) as [pre Hr].
    exists (pre ++ x). rewrite <- (app_assoc pre x kw_png), <- Hr, <- Hz. reflexivity.
Qed.

Lemma posix_as_uri_png (a : str) :
  exists t, Posix.as_uri (a ++ kw_png) = t ++ kw_png.
Proof.
  exists (kw_file ++ flat_map Posix.quote_byte (utf8_encode a)).
  unfold Posix.as_uri, utf8_encode.
  rewrite !flat_map_app, <- app_assoc. reflexivity.
Qed.

Lemma posix_png_uri_law (cwd : path) : png_uri_law (Posix.lib cwd).
Proof.
  intros d name. simpl.
  destruct (posix_joinpath_png d name) as [t1 ->].
  destruct (posix_resolve_png cwd t1) as [t2 ->].
  apply posix_as_uri_png.
Qed.

Lemma png_uri_inert (P R : str) :
  In P empty_attr_patterns ->
  Forall (fun c => uri_char c = true) R ->
  (exists t, R = t ++ kw_png) ->
  inert P R.
Proof.
  intros HP HR [t ->]. destruct (pattern_shape P HP) as (_ & _ & _ & _ & _ & _ & H103).
  intros l r H.
  replace (l ++ (t ++ kw_png) ++ r) with ((l ++ t ++ [46; 112; 110]) ++ 103 :: r) in H
    by (unfold kw_png; rewrite <- !app_assoc; reflexivity).
  apply occurs_split_char in H; [|exact H103]. destruct H as [H | H]; [left | right; exact H].
  apply (peel_right_uri P (t ++ [46; 112; 110]) HP); [|exact H].
  apply Forall_app in HR. destruct HR as [Ht _].
  apply Forall_app. split; [exact Ht | repeat constructor].
Qed.

Section TranscoderKeepsOut.
Variable E : env.
Hypothesis law : as_uri_law (py E).
Hypothesis png_law : png_uri_law (py E).

Lemma transcode_one_keeps_out (P : str) (out_dir : path) (st st' : str * list path)
      (uri : str) (w w' : world) :
  In P empty_attr_patterns ->
  transcode_one E out_dir st uri w = (Ok st', w') ->
  ~ occurs P (fst st) -> ~ occurs P (fst st').
Proof.
  intros HP H Hst.
  destruct (transcode_one_cases E out_dir st uri w) as (st1 & w1 & H1 & _ & Hc).
  rewrite H1 in H. injection H as <- <-.
  destruct Hc as [-> | (p & _ & _ & ->)]; [exact Hst|].
  simpl. intros Hocc. apply Hst.
  apply (replace_preserves P uri
           (as_uri (py E) (resolve (py E) (png_target E out_dir p)))) with (w := []);
    [|exact Hocc].
  apply png_uri_inert; [exact HP | apply as_uri_chars, law | apply png_law].
Qed.

Lemma transcode_loop_keeps_out (P : str) (out_dir : path) (l : list str)
      (st st' : str * list path) (w w' : world) :
  In P empty_attr_patterns ->
  foldM (transcode_one E out_dir) st l w = (Ok st', w') ->
  ~ occurs P (fst st) -> ~ occurs P (fst st').
Proof.
  intros HP. revert st w. induction l as [|u l IH]; intros st w; simpl.
  - unfold_job. intros [= <- <-]. auto.
  - destruct (transcode_one_cases E out_dir st u w) as (st1 & w1 & H1 & _).
    unfold_job. rewrite H1. intros H Hst. eapply IH; [exact H|].
    eapply transcode_one_keeps_out; eassumption.
Qed.

Lemma convert_webp_keeps_out (P html : str) (html_dir : path) (arts : list path)
      (w : world) :
  In P empty_attr_patterns ->
  ~ occurs P html ->
  exists text arts' w',
    convert_webp_images_in_html E html html_dir arts w = (Ok (text, arts'), w')
    /\ ~ occurs P text.
Proof.
  intros HP Hh. unfold convert_webp_images_in_html.
  destruct (negb (image_lib E)); [do 3 eexists; split; [reflexivity | exact Hh]|].
  destruct (fromkeys (findall_webp 0 html)) as [|u us];
    [do 3 eexists; split; [reflexivity | exact Hh]|].
  set (out_dir := joinpath (py E) html_dir scratch_name).
  unfold bind at 1. unfold try_except.
  destruct ((mkdir E out_dir ≫= λ _ : (), ret true) w) as [[made|e] w1] eqn:Hm.
  - destruct made; [|do 3 eexists; split; [reflexivity | exact Hh]].
    destruct (transcode_loop_ok E out_dir (u :: us) (html, arts) w1) as (st' & w' & Hl).
    unfold_job. rewrite Hl. exists (fst st'), (snd st' ++ [out_dir]), w'.
    split; [reflexivity|].
    eapply transcode_loop_keeps_out; [exact HP | exact Hl | exact Hh].
  - destruct e; simpl; try (do 3 eexists; split; [reflexivity | exact Hh]);
      exfalso; revert Hm; unfold mkdir; unfold_job;
      destruct (lookup_node E w out_dir) as [[c|]|]; try discriminate;
      destruct (locked E (resolve (py E) out_dir)); discriminate.
Qed.
End TranscoderKeepsOut.


Definition empty_attr_html : str :=
  lit "<a href=" ++ [dq; dq] ++ lit ">x</a><img src='pic.webp'><img src=''>".


Example sanitize_text_demo :
  fst (sanitize_text (Demo.demo_env [] [] false) (lit "/doc/a.html") empty_attr_html []
         webp_world)
  = Ok (lit "<a href=" ++ [dq; hash; dq]
          ++ lit ">x</a><img src='file:///doc/.__wkhtml_img_tmp__/pic.png'><img src='#'>",
        [lit "/doc/.__wkhtml_img_tmp__/pic.png"; lit "/doc/.__wkhtml_img_tmp__"]).
Proof. vm_compute. reflexivity. Qed.

(** * Further properties of the script *)

(** ** What [strip] leaves *)

Lemma strip_head (s : str) (c : char) (r : str) :
  strip s = c :: r -> isspace c = false.
Proof.
  intros H. pose proof (strip_nonempty_first_ok s) as F. rewrite H in F.
  simpl in F. apply negb_true_iff, F. reflexivity.
Qed.

Lemma strip_last (s l : str) (c : char) :
  strip s = l ++ [c] -> isspace c = false.
Proof.
  unfold strip, rstrip_ws. intros H.
  apply (f_equal (@rev char)) in H. rewrite rev_involutive, rev_app_distr in H.
  simpl in H. eapply drop_while_head, H.
Qed.

Lemma strip_idem (s : str) : strip (strip s) = strip s.
Proof.
  destruct (strip s) as [|c r] eqn:H; [reflexivity|].
  apply strip_trimmed. split.
  - simpl. rewrite (strip_head s c r H). reflexivity.
  - destruct (rev (c :: r)) as [|z t] eqn:R.
    + apply (f_equal (@length char)) in R. rewrite length_rev in R. discriminate.
    + simpl. apply negb_true_iff. apply (strip_last s (rev t) z).
      rewrite H, <- (rev_involutive (c :: r)), R. reflexivity.
Qed.

(** X1.  The text [decode_stderr] returns carries no white space at either end:
    it is its own [strip], its first character and its last character are
    not white space. *)
Theorem decode_stderr_is_stripped :
  forall (E : env) (err_bytes : bytes),
    strip (decode_stderr E err_bytes) = decode_stderr E err_bytes
    /\ (forall c r, decode_stderr E err_bytes = c :: r -> isspace c = false)
    /\ (forall l c, decode_stderr E err_bytes = l ++ [c] -> isspace c = false).
Proof.
  intros E err_bytes.
  assert (H : exists s, decode_stderr E err_bytes = strip s).
  { unfold decode_stderr. destruct err_bytes as [|b r]; [exists []; reflexivity|].
    unfold decode. eexists. reflexivity. }
  destruct H as [s ->]. split; [apply strip_idem|]. split.
  - intros c r. apply strip_head.
  - intros l c. apply strip_last.
Qed.

(** ** The reference normaliser and the quoted-attribute pattern *)



Lemma src_not_href (pre : str) :
  ci_pre kw_href pre -> forall r, startswith_ci kw_src (pre ++ r) = false.
Proof.
  intros H r. inversion H as [|a b kw pre' Hab _]; subst. simpl.
  apply ci_eq_inv in Hab.
  assert (b = 104 \/ b = 72) as [-> | ->] by lia; reflexivity.
Qed.

(** X3.  A match of the [src]/[href] pattern at the head of a text, by its
    groups: the text stands at a word boundary and begins with [src=] or
    [href=] in any letter case, a quote, a value that holds neither that
    quote nor a line feed, and the same quote again.  The value is thus the
    shortest one, and a value that runs over a line end is no match. *)
Theorem match_quoted_attr_spec :
  forall (L : pylib) (prev : option char) (s pre v : str) (q : char),
    match_quoted L [kw_src; kw_href] prev s = Some (pre, q, v) <->
    word_boundary L prev s = true
    /\ exists rest,
        s = pre ++ q :: v ++ q :: rest
        /\ (ci_pre kw_src pre \/ ci_pre kw_href pre)
        /\ is_quote q = true
        /\ value_ok q v.
Proof.
  intros L prev s pre v q. split.
  - intros H. split.
    + unfold match_quoted in H. destruct (word_boundary L prev s); [reflexivity | discriminate].
    + destruct (match_quoted_shape L _ (fun x => x) _ _ _ _ _ H)
        as (kw & rest & Hin & Hs & Hpre & Hq & Hv).
      exists rest. repeat split; try assumption.
      destruct Hin as [<- | [<- | []]]; auto.
  - intros (Hb & rest & -> & Hpre & Hq & Hv). unfold match_quoted. rewrite Hb.
    cbn [match_alternatives]. destruct Hpre as [Hpre | Hpre].
    + rewrite (proj2 (match_kw_spec kw_src _ pre v q)) by eauto. reflexivity.
    + replace (match_kw kw_src (pre ++ q :: v ++ q :: rest)) with (@None (str * char * str))
        by (unfold match_kw; rewrite (src_not_href pre Hpre); reflexivity).
      rewrite (proj2 (match_kw_spec kw_href _ pre v q)) by eauto. reflexivity.
Qed.

Lemma sub_from_identity (L : pylib) (kws : list str) :
  Forall (fun kw : str => kw <> []) kws ->
  forall s prev, sub_from L kws (fun v => v) 0 prev s = s.
Proof.
  intros Hk s. induction s as [s IH] using str_length_ind. intros prev.
  destruct s as [|c s']; [reflexivity|].
  destruct (match_quoted L kws prev (c :: s')) as [[[pre q] v]|] eqn:M.
  - destruct (sub_from_match L kws (fun v => v) prev _ _ _ _ Hk M) as (rest & Hs & Hlt & ->).
    rewrite (IH rest Hlt). symmetry. exact Hs.
  - rewrite (sub_from_nomatch L kws (fun v => v) prev c s' M).
    rewrite (IH s') by (simpl; lia). reflexivity.
Qed.

(** X4.  Both substitutions put a match back together from its groups without
    loss: with a replacement that returns every value as it is, the
    [src]/[href] pass and the [srcset] pass reproduce the text, the closing
    quote included once. *)
Theorem sub_quoted_identity :
  forall (L : pylib) (html : str),
    sub_quoted L [kw_src; kw_href] (fun v => v) html = html
    /\ sub_quoted L [kw_srcset] (fun v => v) html = html.
Proof.
  intros L html. unfold sub_quoted.
  split; apply sub_from_identity; repeat constructor; discriminate.
Qed.

Lemma blank_entries (value : str) :
  Forall (fun c => isspace c = true \/ c = comma) value ->
  srcset_entries value = [].
Proof.
  unfold srcset_entries. induction 1 as [|c s [Hc | ->] _ IH]; [reflexivity | |].
  - destruct (N.eqb_spec c comma) as [-> | Hn].
    + simpl. exact IH.
    + rewrite map_strip_split_leading by assumption. exact IH.
  - simpl. exact IH.
Qed.

(** X5.  A [srcset] value made of commas and white space only has no entry: it
    is rewritten to the empty value. *)
Theorem replace_srcset_blank :
  forall (L : pylib) (is_file : path -> bool) (base_dir : path) (value : str),
    Forall (fun c => isspace c = true \/ c = comma) value ->
    replace_srcset_value L is_file base_dir value = [].
Proof.
  intros L is_file base_dir value H. unfold replace_srcset_value.
  rewrite (blank_entries value H). reflexivity.
Qed.

Lemma replace_srcset_blank_witness :
  replace_srcset_value (Posix.lib [slash]) demo_files (lit "/doc") (lit " , ,,  ") = [].
Proof.
  apply replace_srcset_blank.
  repeat (apply List.Forall_cons; [vm_compute; auto|]). constructor.
Defined.

(** ** The image transcoder *)

Lemma webp_body_spec (s m : str) :
  webp_body s = Some m ->
  exists body ext rest,
    s = m ++ rest /\ m = body ++ ext /\ body <> []
    /\ Forall (fun c => webp_class c = true) body /\ ci_pre kw_webp ext.
Proof.
  revert m. induction s as [|c s IH]; intros m; cbn [webp_body]; [discriminate|].
  destruct (webp_class c) eqn:Hc; [|discriminate].
  destruct (startswith_ci kw_webp s) eqn:Hw.
  - intros [= <-]. apply startswith_ci_spec in Hw.
    destruct Hw as (ext & rest & -> & Hext).
    pose proof (ci_pre_length _ _ Hext) as Hlen. change (length kw_webp) with 5%nat in Hlen.
    exists [c], ext, rest. rewrite <- Hlen, List.firstn_app, List.firstn_all, Nat.sub_diag.
    simpl. rewrite app_nil_r. repeat split; auto; discriminate.
  - destruct (webp_body s) as [m'|]; [|discriminate]. intros [= <-].
    destruct (IH m' eq_refl) as (body & ext & rest & -> & -> & _ & Hb & Hext).
    exists (c :: body), ext, rest. repeat split; auto; discriminate.
Qed.

Lemma match_webp_spec (s m : str) :
  match_webp s = Some m ->
  exists pre body ext rest,
    s = m ++ rest /\ m = pre ++ body ++ ext /\ ci_pre kw_file3 pre /\ body <> []
    /\ Forall (fun c => webp_class c = true) body /\ ci_pre kw_webp ext.
Proof.
  unfold match_webp. destruct (startswith_ci kw_file3 s) eqn:Hf; [|discriminate].
  apply startswith_ci_spec in Hf. destruct Hf as (pre & r & -> & Hpre).
  pose proof (ci_pre_length _ _ Hpre) as Hlen. change (length kw_file3) with 8%nat in Hlen.
  rewrite <- Hlen, List.firstn_app, List.firstn_all, List.skipn_app, List.skipn_all,
    Nat.sub_diag.
  simpl. rewrite app_nil_r. change (skipn 0 r) with r.
  destruct (webp_body r) as [b|] eqn:Hb; simpl; [|discriminate]. intros [= <-].
  destruct (webp_body_spec r b Hb) as (body & ext & rest & -> & -> & Hne & Hbody & Hext).
  exists pre, body, ext, rest. rewrite <- !app_assoc. repeat split; auto.
Qed.

(** X6.  Every locator the transcoder finds is a piece of the text that begins
    with [file:///] and ends with [.webp], in any letter case, with at least
    one character between them and, between them, no quote, no white space
    and no [>]. *)
Theorem findall_webp_shape :
  forall (html m : str),
    In m (findall_webp 0 html) ->
    occurs m html
    /\ exists pre body ext,
        m = pre ++ body ++ ext
        /\ ci_pre kw_file3 pre
        /\ body <> []
        /\ Forall (fun c => webp_class c = true) body
        /\ ci_pre kw_webp ext.
Proof.
  intros html m. generalize 0%nat as k. induction html as [|c s IH]; intros k; simpl;
    [contradiction|].
  assert (Hrec : forall k', In m (findall_webp k' s) ->
                            occurs m (c :: s)
                            /\ exists pre body ext,
                                m = pre ++ body ++ ext /\ ci_pre kw_file3 pre /\ body <> []
                                /\ Forall (fun c => webp_class c = true) body
                                /\ ci_pre kw_webp ext).
  { intros k' H. destruct (IH k' H) as [Ho Hs]. split; [|exact Hs].
    apply (occurs_app_r m [c] s Ho). }
  destruct k as [|k]; [|apply Hrec].
  destruct (match_webp (c :: s)) as [m'|] eqn:Hm; [|apply Hrec].
  intros [<- | H]; [|eapply Hrec, H].
  destruct (match_webp_spec _ _ Hm) as (pre & body & ext & rest & Hs & Hshape).
  split; [exists [], rest; exact Hs | eauto].
Qed.

Lemma findall_webp_shape_witness :
  occurs (lit "file:///doc/pic.WEBP") (lit "<img src='file:///doc/pic.WEBP'>")
  /\ exists pre body ext,
      lit "file:///doc/pic.WEBP" = pre ++ body ++ ext
      /\ ci_pre kw_file3 pre
      /\ body <> []
      /\ Forall (fun c => webp_class c = true) body
      /\ ci_pre kw_webp ext.
Proof.
  apply (findall_webp_shape (lit "<img src='file:///doc/pic.WEBP'>")).
  vm_compute. left. reflexivity.
Defined.

Section TranscoderEffect.
Variable E : env.

(** what one turn of the loop does to the files and to the tracking list *)
Lemma transcode_one_effect (out_dir : path) (st : str * list path) (uri : str)
      (w : world) :
  exists st' w',
    transcode_one E out_dir st uri w = (Ok st', w')
    /\ ((files w' = files w /\ (st' = st \/ exists a, snd st' = snd st ++ [a]))
        \/ exists a c, files w' = <[resolve (py E) a := File c]> (files w)
                       /\ snd st' = snd st ++ [a]).
Proof.
  unfold transcode_one.
  destruct (webp_source E uri) as [p|] eqn:Hs; unfold_job; [|eauto 10].
  destruct (is_file E w p) eqn:Hp; simpl; [|eauto 10].
  destruct (is_file E w (png_target E out_dir p)) eqn:Hc; simpl.
  - do 2 eexists. split; [reflexivity|]. left. split; [reflexivity|]. right.
    eexists. reflexivity.
  - destruct (image_convert_cases E p (png_target E out_dir p) w) as [[e H] | [c H]];
      rewrite H; simpl.
    + do 2 eexists. split; [reflexivity|]. left. auto.
    + do 2 eexists. split; [reflexivity|]. right. do 2 eexists. split; reflexivity.
Qed.

Lemma transcode_loop_effect (out_dir : path) (l : list str) (st : str * list path)
      (w : world) :
  exists st' w' more,
    foldM (transcode_one E out_dir) st l w = (Ok st', w')
    /\ snd st' = snd st ++ more
    /\ forall k, files w' !! k <> files w !! k ->
                 exists a, In a more /\ k = resolve (py E) a.
Proof.
  revert st w. induction l as [|u l IH]; intros st w; simpl.
  - exists st, w, []. rewrite app_nil_r. repeat split. intros k H. congruence.
  - destruct (transcode_one_effect out_dir st u w) as (st1 & w1 & H1 & Hc).
    unfold_job. rewrite H1.
    destruct (IH st1 w1) as (st2 & w2 & more & H2 & Hm & Hk).
    destruct Hc as [[Hf [-> | [a Ha]]] | (a & c & Hf & Ha)].
    + exists st2, w2, more. rewrite <- Hf. auto.
    + exists st2, w2, (a :: more). split; [exact H2|]. split.
      * rewrite Hm, Ha, <- app_assoc. reflexivity.
      * intros k H. rewrite <- Hf in H. destruct (Hk k H) as (b & Hb & ->).
        exists b. split; [right; exact Hb | reflexivity].
    + exists st2, w2, (a :: more). split; [exact H2|]. split.
      * rewrite Hm, Ha, <- app_assoc. reflexivity.
      * intros k H. destruct (decide (k = resolve (py E) a)) as [-> | Hne].
        { exists a. split; [left; reflexivity | reflexivity]. }
        assert (H' : files w2 !! k <> files w1 !! k).
        { rewrite Hf, lookup_insert_ne by congruence. exact H. }
        destruct (Hk k H') as (b & Hb & ->). exists b. split; [right; exact Hb | reflexivity].
Qed.
End TranscoderEffect.

Lemma convert_webp_effect (E : env) (html : str) (html_dir : path) (arts : list path)
      (w : world) :
  exists text more w',
    convert_webp_images_in_html E html html_dir arts w = (Ok (text, arts ++ more), w')
    /\ forall k, files w' !! k <> files w !! k ->
                 exists a, In a more /\ k = resolve (py E) a.
Proof.
  unfold convert_webp_images_in_html.
  assert (Same : exists text more w',
             (Ok (html, arts), w) = (Ok (text, arts ++ more), w')
             /\ forall k, files w' !! k <> files w !! k ->
                          exists a, In a more /\ k = resolve (py E) a).
  { exists html, [], w. rewrite app_nil_r. split; [reflexivity | congruence]. }
  destruct (negb (image_lib E)); [exact Same|].
  destruct (fromkeys (findall_webp 0 html)) as [|u us]; [exact Same|].
  set (out_dir := joinpath (py E) html_dir scratch_name).
  unfold mkdir, lookup_node, set_files. unfold_job.
  destruct (files w !! resolve (py E) out_dir) as [[c|]|] eqn:Hd; simpl.
  - exact Same.
  - destruct (transcode_loop_effect E out_dir (u :: us) (html, arts) w)
      as (st' & w' & more & Hl & Hm & Hk).
    simpl in Hl. unfold_job. rewrite Hl. simpl in Hm.
    exists (fst st'), (more ++ [out_dir]), w'. rewrite Hm, <- app_assoc.
    split; [reflexivity|]. intros k H. destruct (Hk k H) as (a & Ha & ->).
    exists a. split; [apply in_or_app; left; exact Ha | reflexivity].
  - destruct (locked E (resolve (py E) out_dir)); simpl; [exact Same|].
    set (w1 := {| files := <[resolve (py E) out_dir := Dir]> (files w); log := log w |}).
    destruct (transcode_loop_effect E out_dir (u :: us) (html, arts) w1)
      as (st' & w' & more & Hl & Hm & Hk).
    simpl in Hl. unfold_job. rewrite Hl. simpl in Hm.
    exists (fst st'), (more ++ [out_dir]), w'. rewrite Hm, <- app_assoc.
    split; [reflexivity|]. intros k H.
    destruct (decide (k = resolve (py E) out_dir)) as [-> | Hne].
    { exists out_dir. split; [apply in_or_app; right; left; reflexivity | reflexivity]. }
    assert (H' : files w' !! k <> files w1 !! k).
    { unfold w1. simpl. rewrite lookup_insert_ne by congruence. exact H. }
    destruct (Hk k H') as (a & Ha & ->).
    exists a. split; [apply in_or_app; left; exact Ha | reflexivity].
Qed.

(** X7.  The transcoder always completes, only adds to the tracking list, and
    tracks whatever it creates or overwrites: a path whose entry in the file
    system differs afterwards is the path of one of the entries added,
    the scratch directory or a converted image. *)
Theorem transcoder_tracks_what_it_writes :
  forall (E : env) (html : str) (html_dir : path) (arts : list path) (w : world),
    exists text more w',
      convert_webp_images_in_html E html html_dir arts w = (Ok (text, arts ++ more), w')
      /\ forall k, files w' !! k <> files w !! k ->
                   exists a, In a more /\ k = resolve (py E) a.
Proof. exact convert_webp_effect. Qed.

(** ** The sanitiser *)

Lemma occurs_length (P s : str) : occurs P s -> (length P <= length s)%nat.
Proof. intros (l & r & ->). rewrite !length_app. lia. Qed.

Lemma replace_absent (old new s : str) :
  ~ occurs old s -> replace old new s = s.
Proof.
  induction s as [|c s IH]; intros H; [reflexivity|].
  rewrite replace_cons.
  destruct (startswith old (c :: s)) eqn:Hs.
  - exfalso. apply H. apply startswith_spec in Hs. destruct Hs as [r Hr].
    exists [], r. exact Hr.
  - rewrite IH; [reflexivity|]. intros Ho. apply H. apply (occurs_app_r old [c] s Ho).
Qed.

Lemma about_blank_gone (html : str) : ~ occurs about_blank (fixed_substitutions html).
Proof.
  unfold fixed_substitutions.
  apply (replace_kills about_blank [] [] hash).
  - vm_compute. intuition discriminate.
  - exists about_blank. split; [discriminate | reflexivity].
  - intros t Hlt Ho. apply occurs_length in Ho. simpl in Ho, Hlt. lia.
Qed.

(** X8.  After the fixed substitutions the text holds no [about:blank], and
    applying them again changes nothing. *)
Theorem fixed_substitutions_idempotent :
  forall html : str,
    contains about_blank (fixed_substitutions html) = false
    /\ fixed_substitutions (fixed_substitutions html) = fixed_substitutions html.
Proof.
  intros html. split; [apply contains_false, about_blank_gone|].
  set (t := fixed_substitutions html).
  assert (H : forall P, In P empty_attr_patterns -> ~ occurs P t)
    by (intros P HP; apply fixed_substitutions_clean, HP).
  unfold fixed_substitutions at 1.
  rewrite (replace_absent href_dq_empty) by (apply H; simpl; auto).
  rewrite (replace_absent href_sq_empty) by (apply H; simpl; auto).
  rewrite (replace_absent src_dq_empty) by (apply H; simpl; auto).
  rewrite (replace_absent src_sq_empty) by (apply H; simpl; auto).
  apply replace_absent, about_blank_gone.
Qed.

(** X9.  When the HTML file cannot be read (it is missing, or the path is a
    directory), the sanitiser gives the tracking list back as it was and
    changes no file. *)
Theorem sanitize_unreadable_html :
  forall (E : env) (html_path : path) (arts : list path) (w : world),
    is_file E w html_path = false ->
    sanitize_html_for_wkhtmltopdf E html_path arts w
    = (Ok arts, {| files := files w; log := log w ++ [Sanitized html_path] |}).
Proof.
  intros E html_path arts w H.
  unfold sanitize_html_for_wkhtmltopdf, read_text, read_bytes, emit, is_file, lookup_node in *.
  unfold_job. simpl.
  destruct (files w !! resolve (py E) html_path) as [[c|]|]; [discriminate | |]; reflexivity.
Qed.

Lemma sanitize_unreadable_html_witness :
  sanitize_html_for_wkhtmltopdf (Demo.demo_env [] [] false) (lit "/doc/a.html")
    [lit "/doc/x.png"] webp_world
  = (Ok [lit "/doc/x.png"],
     {| files := files webp_world;
        log := log webp_world ++ [Sanitized (lit "/doc/a.html")] |}).
Proof.
  apply sanitize_unreadable_html. vm_compute. reflexivity.
Defined.

Lemma cleanup_failure_noop (E : env) (html_path md_tmp_path : path) (arts : list path)
      (w : world) :
  cleanup E html_path md_tmp_path false arts w = (Ok tt, w).
Proof. reflexivity. Qed.

(** X10.  An HTML file that is not valid UTF-8 is not handled: the
    [UnicodeDecodeError] of reading it leaves the sanitiser and
    [convert_one_file]; the renderer is not run, no file is changed after
    the converter ran, and no boolean is returned. *)
Theorem undecodable_html_escapes :
  forall (E : env) (md_path : path) (css : list str) (input : path)
         (w w0 wa : world) (raw : bytes),
    ensure_utf8_markdown E md_path (job_md_tmp E md_path) w = (Ok input, w0) ->
    run_command E (convert_cmd E md_path input css) w0 = (Ok tt, wa) ->
    files wa !! resolve (py E) (job_html E md_path) = Some (File raw) ->
    decode utf8 Strict raw = Raise UnicodeDecodeError ->
    convert_one_file E md_path css w
    = (Raise UnicodeDecodeError,
       {| files := files wa; log := log wa ++ [Sanitized (job_html E md_path)] |}).
Proof.
  intros E md_path css input w w0 wa raw He Hr Hf Hd.
  rewrite (job_result E md_path css w w0 input He).
  unfold guarded_conversion, conversion. unfold convert_cmd in Hr.
  unfold_job. rewrite Hr.
  unfold sanitize_html_for_wkhtmltopdf, read_text, read_bytes, emit, lookup_node.
  unfold_job. cbn [files log]. rewrite Hf. cbv iota beta. rewrite Hd. reflexivity.
Qed.

Lemma undecodable_html_escapes_witness :
  let E := Demo.demo_env [255] [] false in
  let wa := {| files := <[lit "/doc/a.html" := File [255]]> (files webp_world);
               log := [Run (convert_cmd E Demo.md_path Demo.md_path []) Done] |} in
  convert_one_file E Demo.md_path [] webp_world
  = (Raise UnicodeDecodeError,
     {| files := files wa; log := log wa ++ [Sanitized (job_html E Demo.md_path)] |}).
Proof.
  intros E wa.
  apply (undecodable_html_escapes E Demo.md_path [] Demo.md_path webp_world webp_world
           wa [255]).
  - vm_compute. reflexivity.
  - vm_compute. reflexivity.
  - vm_compute. reflexivity.
  - reflexivity.
Defined.

(** ** The encoding probe *)

(** a Unicode scalar value: a code point that is not a surrogate *)
Definition scalar (c : char) : Prop := c < 55296 \/ (57343 < c /\ c < 1114112).

Ltac cmp_cases :=
  repeat (match goal with
          | |- context [?a <? ?b] => destruct (N.ltb_spec a b); try lia
          | |- context [?a <=? ?b] => destruct (N.leb_spec a b); try lia
          | |- context [?a =? ?b] => destruct (N.eqb_spec a b); try lia
          end; cbn [andb orb negb]).

Ltac div_lia := zify; Z.to_euclidean_division_equations; lia.

Lemma utf8_bom (rest : bytes) : utf8 (239 :: 187 :: 191 :: rest) = Some 65279 :: utf8 rest.
Proof. reflexivity. Qed.

Lemma utf8_sig_cases (raw : bytes) :
  utf8_sig raw = utf8 raw
  \/ exists rest, raw = 239 :: 187 :: 191 :: rest /\ utf8_sig raw = utf8 rest.
Proof.
  destruct raw as [|a [|b [|c rest]]]; try (left; reflexivity).
  - destruct a as [|a]; [left; reflexivity|].
    repeat (destruct a as [a|a|]; try (left; reflexivity)).
  - destruct a as [|a]; [left; reflexivity|].
    repeat (destruct a as [a|a|]; try (left; reflexivity)).
    destruct b as [|b]; [left; reflexivity|].
    repeat (destruct b as [b|b|]; try (left; reflexivity)).
  - destruct a as [|a]; [left; reflexivity|].
    repeat (destruct a as [a|a|]; try (left; reflexivity)).
    destruct b as [|b]; [left; reflexivity|].
    repeat (destruct b as [b|b|]; try (left; reflexivity)).
    destruct c as [|c]; [left; reflexivity|].
    repeat (destruct c as [c|c|]; try (left; reflexivity)).
    right. eexists. split; reflexivity.
Qed.

(** Bytes that strict UTF-8 rejects are rejected with the byte-order mark
    removed as well: the mark itself is valid UTF-8. *)
Lemma utf8_sig_strict (raw : bytes) (e : exn) :
  decode utf8 Strict raw = Raise e -> decode utf8_sig Strict raw = Raise UnicodeDecodeError.
Proof.
  unfold decode. destruct (utf8_sig_cases raw) as [-> | (rest & -> & ->)].
  - destruct (all_decoded (utf8 raw)); [discriminate | reflexivity].
  - rewrite utf8_bom. cbn [all_decoded].
    destruct (all_decoded (utf8 rest)); [discriminate | reflexivity].
Qed.

Lemma utf8_one (b : N) (raw : bytes) :
  b < 128 -> utf8_items None (b :: raw) = Some b :: utf8_items None raw.
Proof. intros H. cbn [utf8_items]. unfold utf8_start. cmp_cases. reflexivity. Qed.

Lemma utf8_two (b1 b2 : N) (raw : bytes) :
  194 <= b1 <= 223 -> 128 <= b2 <= 191 ->
  utf8_items None (b1 :: b2 :: raw)
  = Some ((b1 - 192) * 64 + (b2 - 128)) :: utf8_items None raw.
Proof.
  intros H1 H2. cbn [utf8_items]. unfold utf8_start. cmp_cases.
  cbn [app utf8_items]. cmp_cases. reflexivity.
Qed.

Lemma utf8_three (b1 b2 b3 : N) (raw : bytes) :
  224 <= b1 <= 239 -> 128 <= b2 <= 191 -> 128 <= b3 <= 191 ->
  (b1 = 224 -> 160 <= b2) -> (b1 = 237 -> b2 <= 159) ->
  utf8_items None (b1 :: b2 :: b3 :: raw)
  = Some (((b1 - 224) * 64 + (b2 - 128)) * 64 + (b3 - 128)) :: utf8_items None raw.
Proof.
  intros H1 H2 H3 Ha Hb. cbn [utf8_items]. unfold utf8_start.
  cmp_cases; cbn [app utf8_items Nat.pred]; cmp_cases; reflexivity.
Qed.

Lemma utf8_four (b1 b2 b3 b4 : N) (raw : bytes) :
  240 <= b1 <= 244 -> 128 <= b2 <= 191 -> 128 <= b3 <= 191 -> 128 <= b4 <= 191 ->
  (b1 = 240 -> 144 <= b2) -> (b1 = 244 -> b2 <= 143) ->
  utf8_items None (b1 :: b2 :: b3 :: b4 :: raw)
  = Some ((((b1 - 240) * 64 + (b2 - 128)) * 64 + (b3 - 128)) * 64 + (b4 - 128))
      :: utf8_items None raw.
Proof.
  intros H1 H2 H3 H4 Ha Hb. cbn [utf8_items]. unfold utf8_start.
  cmp_cases; cbn [app utf8_items Nat.pred]; cmp_cases; reflexivity.
Qed.

Lemma utf8_char_roundtrip (c : char) (rest : bytes) :
  scalar c ->
  utf8_items None (utf8_encode_char c ++ rest) = Some c :: utf8_items None rest.
Proof.
  intros Hc. unfold utf8_encode_char, scalar in *.
  destruct (N.ltb_spec c 128); [|destruct (N.ltb_spec c 2048); [|destruct (N.ltb_spec c 65536)]];
    cbn [app].
  - apply utf8_one. assumption.
  - rewrite utf8_two; [do 2 f_equal| |]; div_lia.
  - rewrite utf8_three; [do 2 f_equal| | | | |]; div_lia.
  - rewrite utf8_four; [do 2 f_equal| | | | | |]; div_lia.
Qed.

Lemma utf8_encode_items (s : str) : Forall scalar s -> utf8 (utf8_encode s) = map Some s.
Proof.
  unfold utf8. induction 1 as [|c s Hc _ IH]; [reflexivity|].
  cbn [utf8_encode flat_map map]. rewrite utf8_char_roundtrip by assumption.
  f_equal. exact IH.
Qed.

Lemma all_decoded_map (s : str) : all_decoded (map Some s) = Some s.
Proof. induction s as [|c s IH]; [reflexivity|]. simpl. rewrite IH. reflexivity. Qed.

Lemma utf8_roundtrip (s : str) : Forall scalar s -> decode utf8 Strict (utf8_encode s) = Ok s.
Proof.
  intros H. unfold decode.
  rewrite utf8_encode_items, all_decoded_map by assumption. reflexivity.
Qed.

(** X11.  The temporary copy.  When the source is readable, is not valid UTF-8,
    decodes under GB18030 and the copy can be written, the probe answers
    the path of the copy and the copy holds the UTF-8 form of the GB18030
    reading: the attempt with [utf-8-sig] never provides the text.  When
    that reading holds scalar values only, the copy is valid UTF-8 and
    decodes to the same text. *)
Theorem ensure_utf8_markdown_copy :
  forall (E : env) (input_path md_tmp_path : path) (w : world) (raw : bytes) (text : str),
    files w !! resolve (py E) input_path = Some (File raw) ->
    decode utf8 Strict raw = Raise UnicodeDecodeError ->
    decode (gb18030 E) Strict raw = Ok text ->
    locked E (resolve (py E) md_tmp_path) = false ->
    is_dir E w md_tmp_path = false ->
    ensure_utf8_markdown E input_path md_tmp_path w
    = (Ok md_tmp_path,
       {| files := <[resolve (py E) md_tmp_path := File (utf8_encode text)]> (files w);
          log := log w |})
    /\ (Forall scalar text -> decode utf8 Strict (utf8_encode text) = Ok text).
Proof.
  intros E input_path md_tmp_path w raw text Hf Hu Hg Hl Hd.
  split; [|apply utf8_roundtrip].
  unfold ensure_utf8_markdown, read_bytes, write_text, write_bytes, lookup_node, set_files.
  unfold_job. rewrite Hf. cbv iota beta. rewrite Hu. cbv iota beta.
  rewrite (utf8_sig_strict raw _ Hu). cbv iota beta. rewrite Hg. cbv iota beta.
  rewrite Hl, Hd. reflexivity.
Qed.

Lemma ensure_utf8_markdown_copy_witness :
  let E := Demo.demo_env [] [] false in
  let w := Demo.world_of [(Demo.md_path, File [214; 208])] in
  ensure_utf8_markdown E Demo.md_path (lit "/doc/a.__pandoc_tmp__.md") w
  = (Ok (lit "/doc/a.__pandoc_tmp__.md"),
     {| files := <[resolve (py E) (lit "/doc/a.__pandoc_tmp__.md")
                   := File (utf8_encode [20013])]> (files w);
        log := log w |})
  /\ (Forall scalar [20013] -> decode utf8 Strict (utf8_encode [20013]) = Ok [20013]).
Proof.
  intros E w.
  apply (ensure_utf8_markdown_copy E Demo.md_path (lit "/doc/a.__pandoc_tmp__.md") w
           [214; 208] [20013]); vm_compute; reflexivity.
Defined.

(** X12.  A source that is valid UTF-8, with or without a byte-order mark in
    front, and a source that cannot be read are handed to the converter as
    they are: the probe answers the path of the source and writes
    nothing. *)
Theorem ensure_utf8_markdown_keeps_utf8 :
  forall (E : env) (input_path md_tmp_path : path) (w : world),
    is_file E w input_path = false
    \/ (exists raw text,
           decode utf8 Strict raw = Ok text
           /\ (files w !! resolve (py E) input_path = Some (File raw)
               \/ files w !! resolve (py E) input_path
                  = Some (File (239 :: 187 :: 191 :: raw)))) ->
    ensure_utf8_markdown E input_path md_tmp_path w = (Ok input_path, w).
Proof.
  intros E input_path md_tmp_path w H.
  unfold ensure_utf8_markdown, read_bytes, is_file, lookup_node in *. unfold_job.
  destruct H as [H | (raw & text & Hd & [Hf | Hf])].
  - destruct (files w !! resolve (py E) input_path) as [[c|]|]; [discriminate | |]; reflexivity.
  - rewrite Hf. cbv iota beta. rewrite Hd. reflexivity.
  - rewrite Hf. cbv iota beta.
    replace (decode utf8 Strict (239 :: 187 :: 191 :: raw)) with (Ok (65279 :: text));
      [reflexivity|].
    unfold decode in *. rewrite utf8_bom. cbn [all_decoded].
    destruct (all_decoded (utf8 raw)); [|discriminate]. injection Hd as ->. reflexivity.
Qed.

Lemma ensure_utf8_markdown_keeps_utf8_witness :
  let E := Demo.demo_env [] [] false in
  let w := Demo.world_of [(Demo.md_path, File (239 :: 187 :: 191 :: lit "# title"))] in
  ensure_utf8_markdown E Demo.md_path (lit "/doc/a.__pandoc_tmp__.md") w
  = (Ok Demo.md_path, w).
Proof.
  intros E w. apply ensure_utf8_markdown_keeps_utf8.
  right. exists (lit "# title"), (lit "# title"). split; [reflexivity|].
  right. vm_compute. reflexivity.
Defined.

(** ** What the clean-up removes *)

(** A computation that leaves the log as it is and does nothing to the file
    system but remove entries, at paths that satisfy [allowed]. *)
Definition only_removes {A : Type} (allowed : path -> Prop) (m : M A) : Prop :=
  forall w,
    log (snd (m w)) = log w
    /\ forall k, files (snd (m w)) !! k = files w !! k
                 \/ (files (snd (m w)) !! k = None /\ allowed k).

Lemma removes_same {A : Type} (allowed : path -> Prop) (m : M A) :
  (forall w, snd (m w) = w) -> only_removes allowed m.
Proof. intros H w. rewrite H. auto. Qed.

Lemma removes_step {A B : Type} (allowed : path -> Prop) (m : M A) (k : M B) (w : world) :
  only_removes allowed m -> only_removes allowed k ->
  log (snd (k (snd (m w)))) = log w
  /\ forall x, files (snd (k (snd (m w)))) !! x = files w !! x
               \/ (files (snd (k (snd (m w)))) !! x = None /\ allowed x).
Proof.
  intros Hm Hk. destruct (Hm w) as [L1 F1]. destruct (Hk (snd (m w))) as [L2 F2].
  split; [congruence|]. intros x.
  destruct (F2 x) as [E2 | [E2 A2]]; [|auto].
  destruct (F1 x) as [E1 | [E1 A1]]; [left; congruence | right]. split; [congruence | exact A1].
Qed.

Lemma removes_bind {A B : Type} (allowed : path -> Prop) (m : M A) (k : A -> M B) :
  only_removes allowed m -> (forall a, only_removes allowed (k a)) ->
  only_removes allowed (bind m k).
Proof.
  intros Hm Hk w. unfold bind.
  destruct (m w) as [[a|e] w1] eqn:E.
  - pose proof (removes_step allowed m (k a) w Hm (Hk a)) as H. rewrite E in H. exact H.
  - pose proof (Hm w) as H. rewrite E in H. exact H.
Qed.

Lemma removes_try_except {A : Type} (allowed : path -> Prop) (m : M A)
      (h : exn -> option (M A)) :
  only_removes allowed m -> (forall e k, h e = Some k -> only_removes allowed k) ->
  only_removes allowed (try_except m h).
Proof.
  intros Hm Hh w. unfold try_except.
  destruct (m w) as [[a|e] w1] eqn:E.
  - pose proof (Hm w) as H. rewrite E in H. exact H.
  - destruct (h e) as [k|] eqn:Ek.
    + pose proof (removes_step allowed m k w Hm (Hh e k Ek)) as H. rewrite E in H. exact H.
    + pose proof (Hm w) as H. rewrite E in H. exact H.
Qed.

Lemma removes_unless (allowed : path -> Prop) (b : bool) (m : M unit) :
  (b = false -> only_removes allowed m) -> only_removes allowed (unless b m).
Proof.
  intros H. unfold unless. destruct b; [apply removes_same; reflexivity | auto].
Qed.

Section Removes.
Variable E : env.

Lemma removes_delete (allowed : path -> Prop) (p : path) (w : world) :
  allowed (resolve (py E) p) ->
  forall k, files (set_files (delete (resolve (py E) p) (files w)) w) !! k = files w !! k
            \/ (files (set_files (delete (resolve (py E) p) (files w)) w) !! k = None
                /\ allowed k).
Proof.
  intros Ha k. simpl. destruct (decide (k = resolve (py E) p)) as [-> | Hne].
  - right. split; [apply lookup_delete_eq | exact Ha].
  - left. apply lookup_delete_ne. congruence.
Qed.

Lemma removes_unlink (allowed : path -> Prop) (p : path) :
  allowed (resolve (py E) p) -> only_removes allowed (unlink E p).
Proof.
  intros Ha w. unfold unlink.
  destruct (is_file E w p && negb (locked E (resolve (py E) p))); [|auto].
  split; [reflexivity | apply removes_delete, Ha].
Qed.

Lemma removes_rmdir (allowed : path -> Prop) (p : path) :
  allowed (resolve (py E) p) -> only_removes allowed (rmdir E p).
Proof.
  intros Ha w. unfold rmdir.
  destruct (is_dir E w p && dir_empty E (files w) (resolve (py E) p)
            && negb (locked E (resolve (py E) p))); [|auto].
  split; [reflexivity | apply removes_delete, Ha].
Qed.

Lemma removes_delete_artifacts (allowed : path -> Prop) (l : list path) :
  (forall p, In p l -> allowed (resolve (py E) p)) ->
  only_removes allowed (delete_artifacts E l).
Proof.
  induction l as [|p l IH]; intros H; [apply removes_same; reflexivity|].
  cbn [delete_artifacts].
  apply removes_bind; [|intros _; apply IH; intros q Hq; apply H; right; exact Hq].
  unfold delete_artifact. apply removes_try_except.
  - apply removes_bind; [apply removes_same; reflexivity|]. intros f.
    destruct f; [apply removes_unlink, H; left; reflexivity|].
    apply removes_bind; [apply removes_same; reflexivity|]. intros d.
    destruct d; [apply removes_rmdir, H; left; reflexivity | apply removes_same; reflexivity].
  - intros e k. destruct e; simpl; try discriminate. intros [= <-].
    apply removes_same. reflexivity.
Qed.

Lemma removes_cleanup (html_path md_tmp_path : path) (success : bool) (arts : list path) :
  set_order_law E ->
  only_removes
    (fun k => success = true
              /\ (k = resolve (py E) md_tmp_path
                  \/ (keep_html_on_success E = false
                      /\ (k = resolve (py E) html_path
                          \/ exists a, In a arts /\ k = resolve (py E) a))))
    (cleanup E html_path md_tmp_path success arts).
Proof.
  intros law. unfold cleanup. apply removes_try_except.
  2:{ intros e k. destruct e; simpl; try discriminate. intros [= <-].
      apply removes_same. reflexivity. }
  destruct success; [|apply removes_same; reflexivity].
  apply removes_bind; [apply removes_same; reflexivity|]. intros h.
  apply removes_bind.
  { apply removes_unless. intros Hb. apply orb_false_iff in Hb. destruct Hb as [_ Hk].
    apply removes_unlink. auto. }
  intros _. apply removes_bind; [apply removes_same; reflexivity|]. intros m.
  apply removes_bind.
  { apply removes_unless. intros _. apply removes_unlink. auto. }
  intros _. apply removes_unless. intros Hk.
  apply removes_delete_artifacts. intros p Hp.
  split; [reflexivity|]. right. split; [exact Hk|]. right. exists p. split; [|reflexivity].
  apply (proj2 (cleanup_order_spec E arts law)), Hp.
Qed.
End Removes.

(** X13.  The [finally] clause always completes and, to the file system, does
    nothing but remove entries: only after a success, only the temporary
    Markdown copy and, unless the HTML is to be kept, the HTML file and the
    tracked artifacts.  Every other path (the Markdown source and the PDF
    among them) keeps its entry. *)
Theorem cleanup_removes_only_tracked :
  forall (E : env) (html_path md_tmp_path : path) (success : bool) (arts : list path)
         (w : world),
    set_order_law E ->
    exists w',
      cleanup E html_path md_tmp_path success arts w = (Ok tt, w')
      /\ log w' = log w
      /\ forall k, files w' !! k <> files w !! k ->
                   files w' !! k = None
                   /\ success = true
                   /\ (k = resolve (py E) md_tmp_path
                       \/ (keep_html_on_success E = false
                           /\ (k = resolve (py E) html_path
                               \/ exists a, In a arts /\ k = resolve (py E) a))).
Proof.
  intros E html_path md_tmp_path success arts w law.
  destruct (cleanup_ok E html_path md_tmp_path success arts w) as [w' Hc].
  exists w'. split; [exact Hc|].
  destruct (removes_cleanup E html_path md_tmp_path success arts law w) as [Hl Hf].
  rewrite Hc in Hl, Hf. simpl in Hl, Hf. split; [exact Hl|].
  intros k Hk. destruct (Hf k) as [Heq | [Hn Ha]]; [contradiction|].
  split; [exact Hn | exact Ha].
Qed.

Lemma cleanup_removes_only_tracked_witness :
  let E := Demo.demo_env webp_html [] false in
  exists w',
    cleanup E (lit "/doc/a.html") (lit "/doc/a.__pandoc_tmp__.md") true
      [lit "/doc/pic.webp"] webp_world = (Ok tt, w')
    /\ log w' = log webp_world
    /\ forall k, files w' !! k <> files webp_world !! k ->
                 files w' !! k = None
                 /\ true = true
                 /\ (k = resolve (py E) (lit "/doc/a.__pandoc_tmp__.md")
                     \/ (keep_html_on_success E = false
                         /\ (k = resolve (py E) (lit "/doc/a.html")
                             \/ exists a, In a [lit "/doc/pic.webp"]
                                          /\ k = resolve (py E) a))).
Proof.
  intros E.
  apply (cleanup_removes_only_tracked E (lit "/doc/a.html")
           (lit "/doc/a.__pandoc_tmp__.md") true [lit "/doc/pic.webp"] webp_world).
  apply demo_set_order_law.
Defined.

(** X14.  When the job succeeded, the HTML is not to be kept and the HTML file
    cannot be deleted, the [finally] clause stops at that failure: the
    temporary Markdown copy and the tracked artifacts are left in place. *)
Theorem cleanup_stops_at_locked_html :
  forall (E : env) (html_path md_tmp_path : path) (arts : list path) (w : world),
    keep_html_on_success E = false ->
    is_file E w html_path = true ->
    locked E (resolve (py E) html_path) = true ->
    cleanup E html_path md_tmp_path true arts w = (Ok tt, w).
Proof.
  intros E html_path md_tmp_path arts w Hk Hf Hl.
  unfold cleanup, unlink. unfold_job. cbv beta.
  rewrite Hf, Hk, Hl. simpl. rewrite ?Hf. reflexivity.
Qed.

Lemma cleanup_stops_at_locked_html_witness :
  let w := Demo.world_of [(lit "/doc/a.html", File []);
                          (lit "/doc/a.__pandoc_tmp__.md", File [])] in
  cleanup readonly_env (lit "/doc/a.html") (lit "/doc/a.__pandoc_tmp__.md") true
    [lit "/doc/.__wkhtml_img_tmp__/pic.png"] w
  = (Ok tt, w).
Proof.
  intros w. apply cleanup_stops_at_locked_html; vm_compute; reflexivity.
Defined.

(** ** What a job runs, and what its result says *)

Definition is_done_render (ev : event) : bool :=
  match ev with
  | Run (prog :: _) Done => str_eqb prog kw_wkhtmltopdf
  | _ => false
  end.

Definition done_renders (evs : list event) : nat :=
  length (List.filter is_done_render evs).

Lemma done_renders_app (l1 l2 : list event) :
  done_renders (l1 ++ l2) = (done_renders l1 + done_renders l2)%nat.
Proof. unfold done_renders. rewrite List.filter_app, length_app. reflexivity. Qed.

Lemma done_renders_quiet (evs : list event) : Forall no_run evs -> done_renders evs = 0%nat.
Proof.
  unfold done_renders. induction 1 as [|ev evs Hev _ IH]; [reflexivity|].
  simpl. destruct ev; simpl in *; [contradiction | exact IH | exact IH].
Qed.

Section JobLog.
Variable E : env.

Lemma run_command_cases (cmd : list str) (w : world) :
  exists o w',
    log w' = log w ++ [Run cmd o]
    /\ run_command E cmd w
       = (match o with
          | Done => Ok tt
          | Failed err => Raise (CalledProcessError err)
          | NotStarted => Raise OSError
          end, w').
Proof.
  unfold run_command. destruct (tool E (log w) cmd (files w)) as [o fs].
  exists o. eexists. split; [|destruct o; reflexivity]. reflexivity.
Qed.

Lemma decode_strict_raises (d : decoder) (raw : bytes) (e : exn) :
  decode d Strict raw = Raise e -> e = UnicodeDecodeError.
Proof. unfold decode. destruct (all_decoded (d raw)); [discriminate | congruence]. Qed.

Lemma sanitize_raises (html_path : path) (arts : list path) (w w' : world) (e : exn) :
  sanitize_html_for_wkhtmltopdf E html_path arts w = (Raise e, w') ->
  e = UnicodeDecodeError.
Proof.
  unfold sanitize_html_for_wkhtmltopdf, emit, read_text, read_bytes, lookup_node.
  unfold_job. cbn [files log].
  destruct (files w !! resolve (py E) html_path) as [[c|]|]; try discriminate.
  destruct (decode utf8 Strict c) as [s|e'] eqn:Hd.
  - cbv iota beta. unfold sanitize_text. unfold_job.
    match goal with
    | |- context [convert_webp_images_in_html E ?h ?d ?a ?w0] =>
        destruct (convert_webp_effect E h d a w0) as (text & more & w1 & -> & _)
    end.
    unfold write_text, write_bytes. cbn [fst snd].
    destruct (locked E (resolve (py E) html_path) || is_dir E w1 html_path); discriminate.
  - rewrite (decode_strict_raises _ _ _ Hd). cbv iota beta. intros [= <- _]. reflexivity.
Qed.

Lemma sanitize_outcome (html_path : path) (arts : list path) (w : world) :
  exists evs w',
    log w' = log w ++ evs /\ Forall no_run evs
    /\ ((exists arts', sanitize_html_for_wkhtmltopdf E html_path arts w = (Ok arts', w'))
        \/ sanitize_html_for_wkhtmltopdf E html_path arts w = (Raise UnicodeDecodeError, w')).
Proof.
  destruct (quiet_sanitize E html_path arts w) as (evs & Hl & Hq).
  destruct (sanitize_html_for_wkhtmltopdf E html_path arts w) as [[a|e] w'] eqn:H.
  - exists evs, w'. eauto.
  - exists evs, w'. rewrite (sanitize_raises _ _ _ _ _ H). auto.
Qed.

Definition last_event (evs : list event) (ev : event) : Prop :=
  exists pre, evs = pre ++ [ev].

Lemma last_event_app (l1 l2 : list event) (ev : event) :
  last_event l2 ev -> last_event (l1 ++ l2) ev.
Proof. intros [pre ->]. exists (l1 ++ pre). apply app_assoc. Qed.

Lemma last_event_one (ev : event) : last_event [ev] ev.
Proof. exists []. reflexivity. Qed.

(** what the block of the [try] statement adds to the log, by its result *)
Definition block_log (render : list str) (r : result (list path)) (evs : list event)
  : Prop :=
  match r with
  | Ok _ => done_renders evs = 1%nat /\ last_event evs (Run render Done)
  | Raise (CalledProcessError err) =>
      done_renders evs = 0%nat /\ exists cmd, last_event evs (Run cmd (Failed err))
  | Raise _ => done_renders evs = 0%nat
  end.

Lemma done_renders_convert (input html_path : path) (title : str) (css : list str)
      (o : outcome) :
  done_renders [Run (build_pandoc_cmd input html_path title css) o] = 0%nat.
Proof. destruct o; reflexivity. Qed.

Lemma done_renders_render (html_path output_pdf : path) (o : outcome) :
  done_renders [Run (build_wkhtmltopdf_cmd html_path output_pdf) o]
  = match o with Done => 1%nat | _ => 0%nat end.
Proof. destruct o; reflexivity. Qed.

Ltac log_facts :=
  rewrite ?done_renders_app, ?done_renders_convert, ?done_renders_render;
  repeat match goal with
         | H : Forall no_run ?evs |- _ => rewrite (done_renders_quiet evs H); clear H
         end.

Ltac close_log :=
  first [ apply last_event_one
        | apply last_event_app; close_log ].

Lemma retry_log (input html_path output_pdf : path) (title : str) (arts : list path)
      (w w1 : world) (r : result (list path)) :
  retry E input html_path output_pdf title arts w = (r, w1) ->
  exists evs, log w1 = log w ++ evs
              /\ block_log (build_wkhtmltopdf_cmd html_path output_pdf) r evs.
Proof.
  unfold retry. unfold bind at 1.
  destruct (run_command_cases (build_pandoc_cmd input html_path title []) w)
    as (o1 & wa & L1 & ->).
  destruct o1.
  2:{ intros [= <- <-]. eexists. split; [exact L1|]. unfold block_log. log_facts.
      split; [reflexivity | eexists; close_log]. }
  2:{ intros [= <- <-]. eexists. split; [exact L1|]. unfold block_log. log_facts. reflexivity. }
  unfold bind at 1.
  destruct (sanitize_outcome html_path arts wa) as (e2 & wb & L2 & Q2 & [[arts' ->] | ->]).
  2:{ intros [= <- <-]. eexists. split; [rewrite L2, L1, <- app_assoc; reflexivity|].
      unfold block_log. log_facts. reflexivity. }
  unfold bind at 1.
  destruct (run_command_cases (build_wkhtmltopdf_cmd html_path output_pdf) wb)
    as (o3 & wc & L3 & ->).
  destruct o3; intros [= <- <-]; eexists;
    (split; [rewrite L3, L2, L1, <- !app_assoc; reflexivity|]); unfold block_log; log_facts.
  - split; [reflexivity | close_log].
  - split; [reflexivity | eexists; close_log].
  - reflexivity.
Qed.

Lemma block_log_app (render : list str) (r : result (list path)) (pre evs : list event) :
  done_renders pre = 0%nat -> block_log render r evs -> block_log render r (pre ++ evs).
Proof.
  intros Hp. unfold block_log. rewrite done_renders_app, Hp.
  destruct r as [a|[err| | |]]; simpl; try tauto.
  - intros [H1 H2]. split; [exact H1 | apply last_event_app, H2].
  - intros [H1 [cmd H2]]. split; [exact H1 | exists cmd; apply last_event_app, H2].
Qed.

Lemma conversion_log (input html_path output_pdf : path) (title : str) (css : list str)
      (w w1 : world) (r : result (list path)) :
  conversion E input html_path output_pdf title css w = (r, w1) ->
  exists evs, log w1 = log w ++ evs
              /\ block_log (build_wkhtmltopdf_cmd html_path output_pdf) r evs.
Proof.
  destruct (run_command_cases (build_pandoc_cmd input html_path title css) w)
    as (o1 & wa & L1 & H1).
  destruct o1.
  2:{ unfold conversion. unfold mbind, job_bind. unfold bind at 1. rewrite H1.
      intros [= <- <-]. eexists. split; [exact L1|]. unfold block_log. log_facts.
      split; [reflexivity | eexists; close_log]. }
  2:{ unfold conversion. unfold mbind, job_bind. unfold bind at 1. rewrite H1.
      intros [= <- <-]. eexists. split; [exact L1|]. unfold block_log. log_facts.
      reflexivity. }
  destruct (sanitize_outcome html_path [] wa) as (e2 & wb & L2 & Q2 & [[arts H2] | H2]).
  2:{ unfold conversion. unfold mbind, job_bind. unfold bind at 1. rewrite H1.
      unfold bind at 1. rewrite H2.
      intros [= <- <-]. eexists. split; [rewrite L2, L1, <- app_assoc; reflexivity|].
      unfold block_log. log_facts. reflexivity. }
  destruct (run_command_cases (build_wkhtmltopdf_cmd html_path output_pdf) wb)
    as (o3 & wc & L3 & H3).
  destruct o3.
  - unfold conversion. unfold mbind, job_bind. unfold bind at 1. rewrite H1.
    unfold bind at 1. rewrite H2. unfold try_except, bind. rewrite H3.
    intros [= <- <-]. eexists. split; [rewrite L3, L2, L1, <- !app_assoc; reflexivity|].
    unfold block_log. log_facts. split; [reflexivity | close_log].
  - rewrite (conversion_after_failure E _ _ _ _ css _ _ _ _ _ _ H1 H2 H3).
    destruct css as [|u css'].
    + intros [= <- <-]. eexists. split; [rewrite L3, L2, L1, <- !app_assoc; reflexivity|].
      unfold block_log. log_facts. split; [reflexivity | eexists; close_log].
    + intros Hr. destruct (retry_log _ _ _ _ _ _ _ _ Hr) as (e4 & L4 & B4).
      exists (([Run (build_pandoc_cmd input html_path title (u :: css')) Done] ++ e2
               ++ [Run (build_wkhtmltopdf_cmd html_path output_pdf) (Failed stderr)])
              ++ e4).
      split; [rewrite L4, L3, L2, L1, <- !app_assoc; reflexivity|].
      apply block_log_app; [|exact B4]. log_facts. reflexivity.
  - unfold conversion. unfold mbind, job_bind. unfold bind at 1. rewrite H1.
    unfold bind at 1. rewrite H2. unfold try_except, bind. rewrite H3.
    intros [= <- <-]. eexists. split; [rewrite L3, L2, L1, <- !app_assoc; reflexivity|].
    unfold block_log. log_facts. reflexivity.
Qed.
End JobLog.

(** what a job adds to the log, by its result *)
Definition job_log (render : list str) (r : result bool) (evs : list event) : Prop :=
  match r with
  | Ok true => done_renders evs = 1%nat /\ last_event evs (Run render Done)
  | Ok false =>
      done_renders evs = 0%nat /\ exists cmd err, last_event evs (Run cmd (Failed err))
  | Raise _ => done_renders evs = 0%nat
  end.

Lemma convert_one_file_log (E : env) (md_path : path) (css : list str) (w w' : world)
      (r : result bool) :
  convert_one_file E md_path css w = (r, w') ->
  exists evs, log w' = log w ++ evs /\ job_log (render_cmd E md_path) r evs.
Proof.
  destruct (ensure_utf8_markdown E md_path (job_md_tmp E md_path) w) as [[input|e] w0] eqn:He.
  2:{ rewrite (ensure_failure_propagates E md_path css w w0 e He). intros [= <- <-].
      exists []. rewrite app_nil_r. split; [|reflexivity].
      pose proof (silent_log _ w (logs_ensure E _ md_path (job_md_tmp E md_path))) as L.
      rewrite He in L. exact L. }
  rewrite (job_result E md_path css w w0 input He).
  assert (L0 : log w0 = log w).
  { pose proof (silent_log _ w (logs_ensure E _ md_path (job_md_tmp E md_path))) as L.
    rewrite He in L. exact L. }
  unfold guarded_conversion.
  destruct (conversion E input (job_html E md_path) (job_pdf E md_path) (stem (py E) md_path)
              css w0) as [rc w1] eqn:Hc.
  destruct (conversion_log E _ _ _ _ _ _ _ _ Hc) as (evs & L1 & B).
  assert (C : forall success arts wf,
             cleanup E (job_html E md_path) (job_md_tmp E md_path) success arts w1
             = (Ok tt, wf) -> log wf = log w ++ evs).
  { intros success arts wf Hcl.
    pose proof (silent_log _ w1 (logs_cleanup E _ (job_html E md_path)
                                   (job_md_tmp E md_path) success arts)) as L.
    rewrite Hcl in L. simpl in L. rewrite L, L1, L0. reflexivity. }
  destruct rc as [arts|e].
  - destruct (cleanup_ok E (job_html E md_path) (job_md_tmp E md_path) true arts w1)
      as [wf Hcl].
    rewrite Hcl. intros [= <- <-]. exists evs. split; [eapply C, Hcl | exact B].
  - destruct (cleanup_ok E (job_html E md_path) (job_md_tmp E md_path) false [] w1)
      as [wf Hcl].
    destruct e; rewrite Hcl; intros [= <- <-]; exists evs;
      (split; [eapply C, Hcl|]); try exact B.
    destruct B as [B1 [cmd B2]]. split; [exact B1 | eauto].
Qed.


(** X15.  A job that returns a boolean ran at least one command, and the result
    tells how the last one ended: [True] exactly when the last command is
    the renderer and it exited with status zero, [False] when the last
    command exited with a non-zero status.  No renderer run before the last
    command exited with status zero. *)
Theorem job_result_reflects_last_command :
  forall (E : env) (md_path : path) (css : list str) (w w' : world) (b : bool),
    convert_one_file E md_path css w = (Ok b, w') ->
    exists pre last,
      log w' = log w ++ pre ++ [last]
      /\ done_renders pre = 0%nat
      /\ if b then last = Run (render_cmd E md_path) Done
         else exists cmd err, last = Run cmd (Failed err).
Proof.
  intros E md_path css w w' b H.
  destruct (convert_one_file_log E md_path css w w' (Ok b) H) as (evs & L & J).
  destruct b; simpl in J.
  - destruct J as [D [pre ->]]. exists pre, (Run (render_cmd E md_path) Done).
    split; [exact L|]. split; [|reflexivity].
    rewrite done_renders_app in D. unfold render_cmd in D.
    rewrite done_renders_render in D. lia.
  - destruct J as [D (cmd & err & [pre ->])]. exists pre, (Run cmd (Failed err)).
    split; [exact L|]. split; [|eauto].
    rewrite done_renders_app in D. lia.
Qed.

Lemma job_result_reflects_last_command_witness :
  let E := Demo.demo_env webp_html [Done; Failed [33]] false in
  let w' := snd (convert_one_file E Demo.md_path [] webp_world) in
  exists pre last,
    log w' = log webp_world ++ pre ++ [last]
    /\ done_renders pre = 0%nat
    /\ if false then last = Run (render_cmd E Demo.md_path) Done
       else exists cmd err, last = Run cmd (Failed err).
Proof.
  intros E w'.
  apply (job_result_reflects_last_command E Demo.md_path [] webp_world w' false).
  vm_compute. reflexivity.
Defined.

Lemma foldM_append {A B : Type} (f : A -> B -> M A) (l1 l2 : list B) (a : A) (w : world) :
  foldM f a (l1 ++ l2) w
  = match foldM f a l1 w with
    | (Ok a1, w1) => foldM f a1 l2 w1
    | (Raise e, w1) => (Raise e, w1)
    end.
Proof.
  revert a w. induction l1 as [|b l1 IH]; intros a w; simpl; [reflexivity|].
  unfold_job. destruct (f a b w) as [[a1|e] w1]; [apply IH | reflexivity].
Qed.

Lemma convert_files_cons (E : env) (css : list str) (n : nat) (md : path)
      (rest : list path) (w : world) :
  convert_files E css n (md :: rest) w
  = match convert_one_file E md css w with
    | (Ok b, w1) => convert_files E css (if b then S n else n) rest w1
    | (Raise e, w1) => (Raise e, w1)
    end.
Proof.
  unfold convert_files. simpl. unfold_job.
  destruct (convert_one_file E md css w) as [[b|e] w1]; reflexivity.
Qed.

(** X16.  The count of the batch is the number of renderer runs that exited with
    status zero while it ran, and it does not exceed the number of files. *)
Theorem convert_files_count :
  forall (E : env) (css : list str) (mds : list path) (n m : nat) (w w' : world),
    convert_files E css n mds w = (Ok m, w') ->
    exists evs,
      log w' = log w ++ evs
      /\ m = (n + done_renders evs)%nat
      /\ (m <= n + length mds)%nat.
Proof.
  intros E css mds. induction mds as [|md rest IH]; intros n m w w'.
  - intros [= <- <-]. exists []. rewrite app_nil_r.
    change (done_renders []) with 0%nat. simpl. repeat split; try reflexivity; lia.
  - rewrite convert_files_cons.
    destruct (convert_one_file E md css w) as [[b|e] w1] eqn:H1; [|discriminate].
    destruct (convert_one_file_log E md css w w1 (Ok b) H1) as (e1 & L1 & J).
    intros H. destruct (IH _ _ _ _ H) as (e2 & L2 & Hm & Hle).
    exists (e1 ++ e2). split; [rewrite L2, L1, <- app_assoc; reflexivity|].
    rewrite done_renders_app. simpl length.
    destruct b; simpl in J; destruct J as [D _]; rewrite D; cbv iota in Hm, Hle. all: lia.
Qed.

Lemma convert_files_count_witness :
  let E := Demo.demo_env webp_html [Done; Failed [33]; Done; Done] false in
  let mds := [Demo.md_path; Demo.md_path] in
  let r := convert_files E [] 0 mds webp_world in
  exists evs,
    log (snd r) = log webp_world ++ evs
    /\ 1%nat = (0 + done_renders evs)%nat
    /\ (1 <= 0 + length mds)%nat.
Proof.
  intros E mds r.
  apply (convert_files_count E [] mds 0 1 webp_world (snd r)).
  vm_compute. reflexivity.
Defined.

Lemma ensure_undecodable (E : env) (input_path md_tmp_path : path) (w : world)
      (raw : bytes) (e : exn) :
  files w !! resolve (py E) input_path = Some (File raw) ->
  decode utf8 Strict raw = Raise UnicodeDecodeError ->
  decode (gb18030 E) Strict raw = Raise e ->
  ensure_utf8_markdown E input_path md_tmp_path w = (Raise UnicodeDecodeError, w).
Proof.
  intros Hf Hu Hg.
  unfold ensure_utf8_markdown, read_bytes, lookup_node. unfold_job.
  rewrite Hf. cbv iota beta. rewrite Hu. cbv iota beta.
  rewrite (utf8_sig_strict raw _ Hu). cbv iota beta.
  rewrite Hg, (decode_strict_raises _ _ _ Hg). reflexivity.
Qed.

(** X17.  A Markdown file that decodes under none of the encodings stops the
    batch: the exception leaves the loop, nothing is run for that file, and
    the files after it are not converted; the world is as the files before
    it left it. *)
Theorem batch_stops_at_undecodable_file :
  forall (E : env) (css : list str) (before : list path) (md_path : path)
         (rest : list path) (n m : nat) (w w1 : world) (raw : bytes) (e : exn),
    convert_files E css n before w = (Ok m, w1) ->
    files w1 !! resolve (py E) md_path = Some (File raw) ->
    decode utf8 Strict raw = Raise UnicodeDecodeError ->
    decode (gb18030 E) Strict raw = Raise e ->
    convert_files E css n (before ++ md_path :: rest) w = (Raise UnicodeDecodeError, w1).
Proof.
  intros E css before md_path rest n m w w1 raw e Hb Hf Hu Hg.
  unfold convert_files in *. rewrite foldM_append, Hb.
  fold (convert_files E css m (md_path :: rest) w1). rewrite convert_files_cons.
  rewrite (ensure_failure_propagates E md_path css w1 w1 UnicodeDecodeError); [reflexivity|].
  eapply ensure_undecodable; eassumption.
Qed.

Lemma batch_stops_at_undecodable_file_witness :
  let E := Demo.demo_env webp_html [] false in
  let w := Demo.world_of [(lit "/doc/a.md", File (lit "# title"));
                          (lit "/doc/b.md", File [255]);
                          (lit "/doc/c.md", File (lit "# later"))] in
  let w1 := snd (convert_files E [] 0 [lit "/doc/a.md"] w) in
  convert_files E [] 0 ([lit "/doc/a.md"] ++ lit "/doc/b.md" :: [lit "/doc/c.md"]) w
  = (Raise UnicodeDecodeError, w1).
Proof.
  intros E w w1.
  apply (batch_stops_at_undecodable_file E [] [lit "/doc/a.md"] (lit "/doc/b.md")
           [lit "/doc/c.md"] 0 1 w w1 [255] UnicodeDecodeError);
    vm_compute; reflexivity.
Defined.

(** X18.  When the converter exits with a non-zero status, the job ends there:
    it returns [False], nothing else is run, the HTML is not sanitised and
    no file is removed. *)
Theorem converter_failure_ends_job :
  forall (E : env) (md_path : path) (css : list str) (input : path) (w w0 : world)
         (err : bytes) (fs : gmap path node),
    ensure_utf8_markdown E md_path (job_md_tmp E md_path) w = (Ok input, w0) ->
    tool E (log w0) (convert_cmd E md_path input css) (files w0) = (Failed err, fs) ->
    convert_one_file E md_path css w
    = (Ok false,
       {| files := fs;
          log := log w0 ++ [Run (convert_cmd E md_path input css) (Failed err)] |}).
Proof.
  intros E md_path css input w w0 err fs He Ht.
  rewrite (job_result E md_path css w w0 input He).
  unfold guarded_conversion, conversion, run_command. unfold convert_cmd in Ht.
  unfold_job. rewrite Ht. reflexivity.
Qed.

Lemma converter_failure_ends_job_witness :
  let E := Demo.demo_env webp_html [Failed [33]] false in
  convert_one_file E Demo.md_path [] webp_world
  = (Ok false,
     {| files := files webp_world;
        log := log webp_world
               ++ [Run (convert_cmd E Demo.md_path Demo.md_path []) (Failed [33])] |}).
Proof.
  intros E.
  apply (converter_failure_ends_job E Demo.md_path [] Demo.md_path webp_world webp_world
           [33] (files webp_world)); vm_compute; reflexivity.
Defined.

(** X19.  When the converter cannot be started at all, the [OSError] is not
    handled: it leaves [convert_one_file], which returns no boolean. *)
Theorem converter_not_started_escapes :
  forall (E : env) (md_path : path) (css : list str) (input : path) (w w0 : world)
         (fs : gmap path node),
    ensure_utf8_markdown E md_path (job_md_tmp E md_path) w = (Ok input, w0) ->
    tool E (log w0) (convert_cmd E md_path input css) (files w0) = (NotStarted, fs) ->
    convert_one_file E md_path css w
    = (Raise OSError,
       {| files := fs;
          log := log w0 ++ [Run (convert_cmd E md_path input css) NotStarted] |}).
Proof.
  intros E md_path css input w w0 fs He Ht.
  rewrite (job_result E md_path css w w0 input He).
  unfold guarded_conversion, conversion, run_command. unfold convert_cmd in Ht.
  unfold_job. rewrite Ht. reflexivity.
Qed.

Lemma converter_not_started_escapes_witness :
  let E := Demo.demo_env webp_html [NotStarted] false in
  convert_one_file E Demo.md_path [] webp_world
  = (Raise OSError,
     {| files := files webp_world;
        log := log webp_world
               ++ [Run (convert_cmd E Demo.md_path Demo.md_path []) NotStarted] |}).
Proof.
  intros E.
  apply (converter_not_started_escapes E Demo.md_path [] Demo.md_path webp_world
           webp_world (files webp_world)); vm_compute; reflexivity.
Defined.

(** ** The batch *)

Definition kw_tmp_md : str := Eval cbv in lit ".__pandoc_tmp__.md".

Lemma endswith_app (suffix s : str) : endswith suffix (s ++ suffix) = true.
Proof.
  unfold endswith. rewrite rev_app_distr. apply startswith_spec. eauto.
Qed.

Lemma tmp_name_is_markdown (name : str) : endswith kw_md (name ++ kw_tmp_md) = true.
Proof.
  change kw_tmp_md with (lit ".__pandoc_tmp__" ++ kw_md).
  rewrite app_assoc. apply endswith_app.
Qed.

(** X20.  The walk over the target folder does not tell the temporary copies of
    the encoding probe from Markdown sources: a name made of any stem and
    the suffix of the temporary copy ends in [.md], so a copy that an
    earlier job left behind is yielded as a file to convert. *)
Theorem temp_copy_is_markdown :
  forall (E : env) (walk : list walk_item) (root : str) (dirs files : list str)
         (name : str),
    In (root, dirs, files) walk ->
    In (name ++ kw_tmp_md) files ->
    In (joinpath (py E) (mkpath (py E) root) (name ++ kw_tmp_md))
       (iter_markdown_files E walk).
Proof.
  intros E walk root dirs files name Hw Hf. unfold iter_markdown_files.
  apply in_flat_map. exists (root, dirs, files). split; [exact Hw|].
  apply in_map. apply List.filter_In. split; [exact Hf | apply tmp_name_is_markdown].
Qed.

Lemma temp_copy_is_markdown_witness :
  In (joinpath (py (Demo.demo_env [] [] false)) (mkpath (py (Demo.demo_env [] [] false))
                                                    (lit "/doc"))
        (lit "a" ++ kw_tmp_md))
     (iter_markdown_files (Demo.demo_env [] [] false)
        [(lit "/doc", [lit "img"], [lit "a.md"; lit "a.__pandoc_tmp__.md"; lit "b.MD"])]).
Proof.
  apply (temp_copy_is_markdown (Demo.demo_env [] [] false) _ (lit "/doc") [lit "img"]
           [lit "a.md"; lit "a.__pandoc_tmp__.md"; lit "b.MD"] (lit "a")).
  - left. reflexivity.
  - right. left. reflexivity.
Defined.

Example iter_markdown_files_demo :
  iter_markdown_files (Demo.demo_env [] [] false)
    [(lit "/doc", [lit "img"], [lit "a.md"; lit "a.__pandoc_tmp__.md"; lit "b.MD"; lit ".md"]);
     (lit "/doc/img", [], [lit "c.md.bak"; lit "d.md"])]
  = [lit "/doc/a.md"; lit "/doc/a.__pandoc_tmp__.md"; lit "/doc/.md"; lit "/doc/img/d.md"].
Proof. vm_compute. reflexivity. Qed.

(** [posixpath.isabs] and [posixpath.join] *)
Definition posix_isabs (s : str) : bool := startswith [slash] s.

Definition posix_join (a b : str) : str :=
  if startswith [slash] b then b
  else match a with
       | [] => b
       | _ :: _ => if endswith [slash] a then a ++ b else a ++ slash :: b
       end.

Definition demo_setup (css : str) : setup :=
  {| target_folder := lit "/doc";
     css_path := css;
     script_dir := lit "/opt/tool";
     isabs := posix_isabs;
     os_join := posix_join;
     not_found := fun _ => true;
     os_walk := fun _ => [(lit "/doc", [], [lit "a.md"])] |}.

Section Stylesheets.
Variable E : env.
Variable S : setup.

Lemma truthy_uri (p : path) :
  as_uri_law (py E) -> truthy (Some (as_uri (py E) p)) = [as_uri (py E) p].
Proof.
  intros law. destruct (law p) as (t & -> & _). reflexivity.
Qed.

Lemma startswith_file_uri (p : path) :
  as_uri_law (py E) -> startswith kw_file (as_uri (py E) p) = true.
Proof. intros law. destruct (law p) as (t & -> & _). apply startswith_spec. eauto. Qed.
End Stylesheets.



Example get_css_uri_demo :
  fst (get_css_uri (Demo.demo_env [] [] false) (demo_setup (lit "style.css"))
         (Demo.world_of [(lit "/opt/tool/style.css", File [])]))
  = Ok (Some (lit "file:///opt/tool/style.css")).
Proof. vm_compute. reflexivity. Qed.

Lemma posix_join_abs (a b : str) : posix_isabs b = true -> posix_join a b = b.
Proof. unfold posix_isabs, posix_join. intros ->. reflexivity. Qed.

(** X22.  The test of the prerequisites for the stylesheet and the look-up that
    provides its locator agree, when [os.path.join] returns an absolute
    second component as it is: the test answers [True] exactly when the
    look-up answers a locator. *)
Theorem css_check_agrees_with_lookup :
  forall (E : env) (S : setup) (w : world),
    (forall a b, isabs S b = true -> os_join S a b = b) ->
    fst (is_css_file_exists E S (css_path S) w) = Ok true
    <-> exists u, fst (get_css_uri E S w) = Ok (Some u).
Proof.
  intros E S w law.
  assert (P : os_join S (script_dir S) (css_path S) = get_css_abs_path S).
  { unfold get_css_abs_path. destruct (isabs S (css_path S)) eqn:A; [|reflexivity].
    apply law, A. }
  unfold is_css_file_exists, get_css_uri, os_isfile. unfold_job. rewrite P. simpl.
  destruct (is_file E w (mkpath (py E) (get_css_abs_path S))); split.
  - eauto.
  - reflexivity.
  - discriminate.
  - intros [u H]. discriminate.
Qed.

Lemma css_check_agrees_with_lookup_witness :
  let E := Demo.demo_env [] [] false in
  let S := demo_setup (lit "/etc/style.css") in
  let w := Demo.world_of [(lit "/etc/style.css", File [])] in
  fst (is_css_file_exists E S (css_path S) w) = Ok true
  <-> exists u, fst (get_css_uri E S w) = Ok (Some u).
Proof.
  intros E S w. apply (css_check_agrees_with_lookup E S w).
  intros a b. apply posix_join_abs.
Defined.

(** X23.  Unless [pandoc --version] exits with status zero, [convert] stops after
    that one command.  It returns early, converting nothing, when the
    program is not found; a non-zero exit status is not handled and leaves
    [convert] as [CalledProcessError], and so does any other failure to
    start the program, as [OSError]. *)
Theorem pandoc_probe_decides :
  forall (E : env) (S : setup) (w : world) (o : outcome) (fs : gmap path node),
    tool E (log w) [kw_pandoc; kw_version] (files w) = (o, fs) ->
    o <> Done ->
    convert E S w
    = (match o with
       | Failed err => Raise (CalledProcessError err)
       | _ => if not_found S [kw_pandoc; kw_version] then Ok None else Raise OSError
       end,
       {| files := fs; log := log w ++ [Run [kw_pandoc; kw_version] o] |}).
Proof.
  intros E S w o fs Ht Ho.
  unfold convert, check_prerequisites, is_pandoc_installed, except_FileNotFoundError,
    run_command.
  unfold_job. rewrite Ht.
  destruct o as [|err|]; [congruence | reflexivity|].
  destruct (not_found S [kw_pandoc; kw_version]); reflexivity.
Qed.

Lemma pandoc_probe_decides_witness :
  let E := Demo.demo_env [] [Failed [33]] false in
  let S := demo_setup (lit "style.css") in
  convert E S webp_world
  = (match Failed [33] with
     | Failed err => Raise (CalledProcessError err)
     | _ => if not_found S [kw_pandoc; kw_version] then Ok None else Raise OSError
     end,
     {| files := files webp_world;
        log := log webp_world ++ [Run [kw_pandoc; kw_version] (Failed [33])] |}).
Proof.
  intros E S.
  apply (pandoc_probe_decides E S webp_world (Failed [33]) (files webp_world));
    [vm_compute; reflexivity | discriminate].
Defined.

Example convert_demo :
  fst (convert (Demo.demo_env webp_html [] false) (demo_setup (lit "style.css"))
         (Demo.world_of [(lit "/doc", Dir); (lit "/doc/a.md", File (lit "# title"));
                         (lit "/doc/pic.webp", File (lit "RIFF"))]))
  = Ok (Some 1%nat).
Proof. vm_compute. reflexivity. Qed.

(** ** More on the [srcset] values, the sanitiser and the clean-up *)

Section SrcsetIdempotent.
Variable L : pylib.
Variable is_file : path -> bool.
Variable base_dir : path.
Hypothesis law : as_uri_law L.

Lemma srcset_item_idem (e : str) :
  split_ws e <> [] -> Forall (fun c => c <> comma) e ->
  srcset_item L is_file base_dir (srcset_item L is_file base_dir e)
  = srcset_item L is_file base_dir e.
Proof.
  intros Hne Hc. destruct (split_ws e) as [|url descr] eqn:Hs; [congruence|].
  destruct (srcset_item_spec L is_file base_dir law e url descr Hs Hc) as (-> & [_ Hok] & Htoks).
  destruct (srcset_item_spec L is_file base_dir law _ _ descr (split_ws_join _ Htoks) Hok)
    as (-> & _).
  rewrite (to_uri_idem L is_file base_dir law). reflexivity.
Qed.
End SrcsetIdempotent.



(** X25.  Captured standard error that is valid UTF-8 is shown as it is, without
    the white space around it: for a text of scalar values, decoding its
    UTF-8 form gives the stripped text. *)
Theorem decode_stderr_valid_utf8 :
  forall (E : env) (s : str),
    Forall scalar s ->
    decode_stderr E (utf8_encode s) = strip s.
Proof.
  intros E s H. unfold decode_stderr.
  destruct (utf8_encode s) as [|b r] eqn:Hb.
  - destruct s as [|c s']; [reflexivity|]. exfalso.
    cbn [utf8_encode flat_map] in Hb. apply app_eq_nil in Hb. destruct Hb as [Hb _].
    unfold utf8_encode_char in Hb.
    repeat match type of Hb with
           | context [if ?b then _ else _] => destruct b
           end; discriminate.
  - rewrite <- Hb. unfold decode. rewrite (utf8_encode_items s H).
    rewrite map_map. rewrite map_id. reflexivity.
Qed.

Lemma decode_stderr_valid_utf8_witness :
  decode_stderr (Demo.demo_env [] [] false) (utf8_encode (lit "  Error: " ++ [20013; 10]))
  = strip (lit "  Error: " ++ [20013; 10]).
Proof.
  apply decode_stderr_valid_utf8.
  repeat (apply List.Forall_cons; [left; reflexivity|]). constructor.
Defined.

Section SanitizerEffect.
Variable E : env.

Lemma sanitize_effect (html_path : path) (arts arts' : list path) (w w' : world) :
  sanitize_html_for_wkhtmltopdf E html_path arts w = (Ok arts', w') ->
  exists more,
    arts' = arts ++ more
    /\ forall k, files w' !! k <> files w !! k ->
                 k = resolve (py E) html_path
                 \/ exists a, In a more /\ k = resolve (py E) a.
Proof.
  unfold sanitize_html_for_wkhtmltopdf, emit, read_text, read_bytes, lookup_node.
  unfold_job. cbn [files log].
  destruct (files w !! resolve (py E) html_path) as [[c|]|] eqn:Hf.
  2,3: intros [= <- <-]; exists []; rewrite app_nil_r; split; [reflexivity|];
       simpl; congruence.
  destruct (decode utf8 Strict c) as [s|e'] eqn:Hd.
  2:{ rewrite (decode_strict_raises _ _ _ Hd). cbv iota beta. discriminate. }
  cbv iota beta. unfold sanitize_text. unfold_job.
  match goal with
  | |- context [convert_webp_images_in_html E ?h ?d ?a ?w0] =>
      destruct (convert_webp_effect E h d a w0) as (text & more & w1 & -> & Hk)
  end.
  unfold write_text, write_bytes, set_files. cbn [fst snd].
  destruct (locked E (resolve (py E) html_path) || is_dir E w1 html_path).
  - intros [= <- <-]. exists more. split; [reflexivity|]. intros k H. right. apply Hk, H.
  - intros [= <- <-]. exists more. split; [reflexivity|]. cbn [files]. intros k H.
    destruct (decide (k = resolve (py E) html_path)) as [-> | Hne]; [left; reflexivity|].
    right. apply Hk. rewrite lookup_insert_ne in H by congruence. exact H.
Qed.
End SanitizerEffect.

(** X26.  The sanitiser only adds to the tracking list it was given, so what an
    earlier call tracked is still tracked after the retry; and to the file
    system it does nothing but write the HTML file and create what it
    tracks. *)
Theorem sanitizer_writes_html_and_tracked :
  forall (E : env) (html_path : path) (arts arts' : list path) (w w' : world),
    sanitize_html_for_wkhtmltopdf E html_path arts w = (Ok arts', w') ->
    exists more,
      arts' = arts ++ more
      /\ forall k, files w' !! k <> files w !! k ->
                   k = resolve (py E) html_path
                   \/ exists a, In a more /\ k = resolve (py E) a.
Proof. exact sanitize_effect. Qed.

Lemma sanitizer_writes_html_and_tracked_witness :
  let E := Demo.demo_env [] [] false in
  let w := Demo.world_of [(lit "/doc/a.html", File (lit "<img src='pic.webp'>"));
                          (lit "/doc/pic.webp", File (lit "RIFF"))] in
  let r := sanitize_html_for_wkhtmltopdf E (lit "/doc/a.html") [] w in
  exists more,
    [lit "/doc/.__wkhtml_img_tmp__/pic.png"; lit "/doc/.__wkhtml_img_tmp__"] = [] ++ more
    /\ forall k, files (snd r) !! k <> files w !! k ->
                 k = resolve (py E) (lit "/doc/a.html")
                 \/ exists a, In a more /\ k = resolve (py E) a.
Proof.
  intros E w r.
  apply (sanitizer_writes_html_and_tracked E (lit "/doc/a.html") []
           [lit "/doc/.__wkhtml_img_tmp__/pic.png"; lit "/doc/.__wkhtml_img_tmp__"]
           w (snd r)).
  vm_compute. reflexivity.
Defined.

Section CleanupTemporaries.
Variable E : env.

Lemma unlink_removes (p q : path) (w : world) :
  locked E (resolve (py E) p) = false ->
  is_file E w q = false \/ resolve (py E) q = resolve (py E) p ->
  is_file E (snd (unless (negb (is_file E w p)) (unlink E p) w)) q = false.
Proof.
  intros Hl Hq. unfold unless, unlink.
  destruct (is_file E w p) eqn:Hp; simpl.
  - rewrite Hp, Hl. simpl. unfold is_file, lookup_node, set_files. simpl.
    destruct Hq as [Hq | Hq].
    + apply (is_file_after_delete E w (resolve (py E) p) q Hq).
    + rewrite Hq, lookup_delete_eq. reflexivity.
  - destruct Hq as [Hq | Hq]; [exact Hq|].
    unfold is_file, lookup_node in *. rewrite Hq. exact Hp.
Qed.
End CleanupTemporaries.

(** X27.  After a success, with the HTML not to be kept and both paths free to
    delete, neither the HTML file nor the temporary Markdown copy is a file
    any more when the [finally] clause is done. *)
Theorem cleanup_removes_temporaries :
  forall (E : env) (html_path md_tmp_path : path) (arts : list path) (w : world),
    keep_html_on_success E = false ->
    locked E (resolve (py E) html_path) = false ->
    locked E (resolve (py E) md_tmp_path) = false ->
    exists w',
      cleanup E html_path md_tmp_path true arts w = (Ok tt, w')
      /\ is_file E w' html_path = false
      /\ is_file E w' md_tmp_path = false.
Proof.
  intros E html_path md_tmp_path arts w Hk Hh Hm.
  pose proof (unlink_removes E html_path html_path w Hh (or_intror eq_refl)) as H1.
  set (w1 := snd (unless (negb (is_file E w html_path)) (unlink E html_path) w)) in *.
  pose proof (unlink_removes E md_tmp_path md_tmp_path w1 Hm (or_intror eq_refl)) as H2.
  pose proof (unlink_removes E md_tmp_path html_path w1 Hm (or_introl H1)) as H3.
  set (w2 := snd (unless (negb (is_file E w1 md_tmp_path)) (unlink E md_tmp_path) w1)) in *.
  destruct (delete_artifacts_ok E (cleanup_order E arts) w2) as [w' Hd].
  exists w'. split.
  - unfold cleanup. unfold_job. rewrite Hk, orb_false_r.
    subst w2 w1. revert Hd. unfold unless, unlink. rewrite Hh, Hm, ?andb_true_r.
    destruct (is_file E w html_path) eqn:Hf; simpl; rewrite ?Hf; simpl;
      match goal with
      | |- context [is_file E ?x md_tmp_path] =>
          destruct (is_file E x md_tmp_path) eqn:Hf2; simpl; rewrite ?Hf2; simpl
      end; intros ->; reflexivity.
  - split; eapply delete_artifacts_no_file_back; eassumption.
Qed.

Lemma cleanup_removes_temporaries_witness :
  let E := Demo.demo_env [] [] false in
  let w := Demo.world_of [(lit "/doc/a.html", File []);
                          (lit "/doc/a.__pandoc_tmp__.md", File []);
                          (lit "/doc/a.md", File [])] in
  exists w',
    cleanup E (lit "/doc/a.html") (lit "/doc/a.__pandoc_tmp__.md") true [] w = (Ok tt, w')
    /\ is_file E w' (lit "/doc/a.html") = false
    /\ is_file E w' (lit "/doc/a.__pandoc_tmp__.md") = false.
Proof.
  intros E w. apply cleanup_removes_temporaries; reflexivity.
Defined.

Section NothingToConvert.
Variable E : env.

Lemma transcode_one_missing (out_dir : path) (st : str * list path) (uri : str) (w : world) :
  (forall p, webp_source E uri = Some p -> is_file E w p = false) ->
  transcode_one E out_dir st uri w = (Ok st, w).
Proof.
  intros H. unfold transcode_one.
  destruct (webp_source E uri) as [p|]; unfold_job; [|reflexivity].
  rewrite (H p eq_refl). reflexivity.
Qed.

Lemma transcode_loop_missing (out_dir : path) (l : list str) (st : str * list path)
      (w : world) :
  (forall uri p, In uri l -> webp_source E uri = Some p -> is_file E w p = false) ->
  foldM (transcode_one E out_dir) st l w = (Ok st, w).
Proof.
  induction l as [|u l IH]; intros H; [reflexivity|].
  simpl. unfold_job.
  rewrite transcode_one_missing by (intros p; apply H; left; reflexivity).
  apply IH. intros uri p Hu. apply H. right. exact Hu.
Qed.
End NothingToConvert.

(** X28.  When the text holds a locator but none of the images named exists, the
    text comes back unchanged; the scratch directory has nevertheless been
    created, and it is tracked. *)
Theorem scratch_directory_without_images :
  forall (E : env) (html : str) (html_dir : path) (arts : list path) (w : world),
    image_lib E = true ->
    findall_webp 0 html <> [] ->
    files w !! resolve (py E) (joinpath (py E) html_dir scratch_name) = None ->
    locked E (resolve (py E) (joinpath (py E) html_dir scratch_name)) = false ->
    (forall uri p, In uri (findall_webp 0 html) ->
                   webp_source E uri = Some p -> is_file E w p = false) ->
    convert_webp_images_in_html E html html_dir arts w
    = (Ok (html, arts ++ [joinpath (py E) html_dir scratch_name]),
       {| files := <[resolve (py E) (joinpath (py E) html_dir scratch_name) := Dir]> (files w);
          log := log w |}).
Proof.
  intros E html html_dir arts w Hi Hm Hn Hl Hs.
  unfold convert_webp_images_in_html. rewrite Hi. cbn [negb].
  destruct (fromkeys (findall_webp 0 html)) as [|m ms] eqn:Hf.
  { destruct (findall_webp 0 html); [congruence | discriminate]. }
  unfold mkdir, lookup_node, set_files. unfold_job.
  rewrite Hn, Hl. cbv iota beta.
  rewrite transcode_loop_missing; [reflexivity|].
  intros uri p Hu Hp. rewrite <- Hf in Hu. apply (proj1 (fromkeys_In _ _)) in Hu.
  specialize (Hs uri p Hu Hp).
  unfold is_file, lookup_node in *. cbn [files].
  destruct (decide (resolve (py E) (joinpath (py E) html_dir scratch_name)
                    = resolve (py E) p)) as [<- | Hne].
  - rewrite lookup_insert_eq. reflexivity.
  - rewrite lookup_insert_ne by assumption. exact Hs.
Qed.

Lemma scratch_directory_without_images_witness :
  let E := Demo.demo_env [] [] false in
  let w := Demo.world_of [(lit "/doc/a.html", File [])] in
  convert_webp_images_in_html E (lit "<img src='file:///doc/gone.webp'>") (lit "/doc") [] w
  = (Ok (lit "<img src='file:///doc/gone.webp'>",
         [] ++ [joinpath (py E) (lit "/doc") scratch_name]),
     {| files := <[resolve (py E) (joinpath (py E) (lit "/doc") scratch_name) := Dir]>
                   (files w);
        log := log w |}).
Proof.
  intros E w. apply scratch_directory_without_images; try (vm_compute; reflexivity).
  - vm_compute. discriminate.
  - intros uri p Hu Hp. vm_compute in Hu. destruct Hu as [<- | []].
    vm_compute in Hp. injection Hp as <-. vm_compute. reflexivity.
Defined.

(** ** Drive-letter references *)

Ltac bits x :=
  destruct x as [|x]; [try reflexivity|];
  repeat (destruct x as [x|x|]; try reflexivity).

Lemma drive_needs_letter (a : char) (x : str) :
  is_ascii_letter a = false -> drive_letter_abs (a :: x) = false.
Proof.
  intros H. unfold drive_letter_abs.
  destruct x as [|b [|d y]]; try reflexivity.
  - bits b.
  - bits b. bits d. exact H.
Qed.

Definition url_delim (c : char) : bool := existsb (N.eqb c) [47; 63; 35].

Definition url_keep (c : char) : bool := negb (existsb (N.eqb c) [9; 10; 13]).

Lemma netloc_split (u : str) :
  match u with
  | 47 :: 47 :: rest => (Posix.take_until url_delim rest, Posix.drop_until url_delim rest)
  | _ => ([], u)
  end
  = if startswith [47; 47] u
    then (Posix.take_until url_delim (skipn 2 u), Posix.drop_until url_delim (skipn 2 u))
    else ([], u).
Proof.
  destruct u as [|a [|b rest]]; try reflexivity.
  - bits a.
  - bits a. bits b.
Qed.

Lemma urlsplit_path_eq (url : str) :
  Posix.urlsplit_path url
  = let u := Posix.strip_scheme (List.filter url_keep (drop_while (fun c => c <=? 32) url)) in
    let '(netloc, rest) :=
      if startswith [47; 47] u
      then (Posix.take_until url_delim (skipn 2 u), Posix.drop_until url_delim (skipn 2 u))
      else ([], u) in
    if Posix.has_char 91 netloc || Posix.has_char 93 netloc then None
    else Some (Posix.take_until (N.eqb 63) (Posix.take_until (N.eqb 35) rest)).
Proof.
  unfold Posix.urlsplit_path. cbv zeta. fold url_delim. fold url_keep.
  rewrite netloc_split. reflexivity.
Qed.

Lemma take_until_Forall (P : char -> Prop) (stop : char -> bool) (s : str) :
  Forall P s -> Forall P (Posix.take_until stop s).
Proof.
  induction 1 as [|c s Hc _ IH]; simpl; [constructor|].
  destruct (stop c); [constructor | constructor; assumption].
Qed.

Lemma drop_until_Forall (P : char -> Prop) (stop : char -> bool) (s : str) :
  Forall P s -> Forall P (Posix.drop_until stop s).
Proof.
  induction 1 as [|c s Hc Hs IH]; simpl; [constructor|].
  destruct (stop c); [constructor; assumption | exact IH].
Qed.

Lemma filter_Forall (P : char -> Prop) (f : char -> bool) (s : str) :
  Forall P s -> Forall P (List.filter f s).
Proof.
  induction 1 as [|c s Hc _ IH]; simpl; [constructor|].
  destruct (f c); [constructor; assumption | exact IH].
Qed.

Lemma has_char_absent (c : char) (s : str) :
  Forall (fun x => x <> c) s -> Posix.has_char c s = false.
Proof.
  unfold Posix.has_char. induction 1 as [|x s Hx _ IH]; [reflexivity|].
  simpl. rewrite IH, orb_false_r. apply N.eqb_neq. congruence.
Qed.

Lemma drop_until_head (stop : char -> bool) (s : str) :
  Posix.drop_until stop s = []
  \/ exists d t, Posix.drop_until stop s = d :: t /\ stop d = true.
Proof.
  induction s as [|c s IH]; simpl; [left; reflexivity|].
  destruct (stop c) eqn:E; [right; eauto | exact IH].
Qed.

(** the path of a split reference is empty or starts with a slash *)
Definition rooted (p : str) : Prop := p = [] \/ exists t, p = slash :: t.

Lemma path_after_delim (d : char) (t : str) :
  url_delim d = true ->
  rooted (Posix.take_until (N.eqb 63) (Posix.take_until (N.eqb 35) (d :: t))).
Proof.
  unfold url_delim. cbn [existsb]. rewrite !orb_true_iff, !N.eqb_eq.
  intros [-> | [-> | [-> | H]]].
  - right. simpl. eauto.
  - left. reflexivity.
  - left. reflexivity.
  - discriminate.
Qed.

Lemma path_after_netloc (rest : str) :
  rooted (Posix.take_until (N.eqb 63)
            (Posix.take_until (N.eqb 35) (Posix.drop_until url_delim rest))).
Proof.
  destruct (drop_until_head url_delim rest) as [-> | (d & t & -> & Hd)].
  - left. reflexivity.
  - apply path_after_delim, Hd.
Qed.

Lemma urlsplit_drive (c : char) (r : str) :
  is_ascii_letter c = true ->
  Forall (fun x => x <> 37 /\ x <> 91 /\ x <> 93) r ->
  match Posix.urlsplit_path (c :: 58 :: 47 :: r) with
  | Some p => rooted p /\ Forall (fun x => x <> 37) p
  | None => False
  end.
Proof.
  intros Hc Hr. rewrite urlsplit_path_eq.
  assert (Hrange : 65 <= c).
  { unfold is_ascii_letter in Hc. apply orb_true_iff in Hc.
    rewrite !andb_true_iff, !N.leb_le in Hc. lia. }
  assert (H1 : (c <=? 32) = false) by (apply N.leb_gt; lia).
  assert (H2 : url_keep c = true).
  { unfold url_keep. cbn [existsb].
    rewrite !(proj2 (N.eqb_neq _ _)) by lia. reflexivity. }
  assert (H3 : N.eqb 58 c = false) by (apply N.eqb_neq; lia).
  cbn [drop_while]. rewrite H1. cbn [List.filter]. rewrite H2.
  change (url_keep 58) with true. change (url_keep 47) with true. cbv iota.
  set (r2 := List.filter url_keep r).
  assert (Hr2 : Forall (fun x => x <> 37 /\ x <> 91 /\ x <> 93) r2)
    by (apply filter_Forall, Hr).
  match goal with
  | |- context [Posix.strip_scheme ?x] => assert (Hs : Posix.strip_scheme x = 47 :: r2)
  end.
  { unfold Posix.strip_scheme, Posix.has_char. cbn [existsb Posix.take_until Posix.drop_until].
    rewrite H3. change (N.eqb 58 58) with true. rewrite Hc. cbn [orb andb forallb tl].
    unfold Posix.scheme_char. rewrite Hc. reflexivity. }
  rewrite Hs. cbv zeta.
  assert (Hp : forall x, Forall (fun x => x <> 37 /\ x <> 91 /\ x <> 93) x ->
                         Forall (fun c => c <> 37)
                           (Posix.take_until (N.eqb 63) (Posix.take_until (N.eqb 35) x))).
  { intros x Hx. do 2 apply take_until_Forall.
    eapply List.Forall_impl; [|exact Hx]. intros a Ha. apply Ha. }
  destruct (startswith [47; 47] (47 :: r2)) eqn:Hn.
  - set (rest := skipn 2 (47 :: r2)).
    assert (Hrest : Forall (fun x => x <> 37 /\ x <> 91 /\ x <> 93) rest).
    { unfold rest. destruct r2 as [|a r3]; [constructor|]. simpl. inversion Hr2; assumption. }
    rewrite !has_char_absent.
    2,3: apply take_until_Forall; eapply List.Forall_impl; [|exact Hrest]; intros a Ha;
      apply Ha.
    cbn [orb]. split.
    + apply path_after_netloc.
    + apply Hp, drop_until_Forall, Hrest.
  - change (Posix.has_char 91 []) with false. change (Posix.has_char 93 []) with false.
    cbn [orb]. split.
    + apply (path_after_delim 47 r2). reflexivity.
    + apply Hp. constructor; [repeat split; discriminate | exact Hr2].
Qed.

Lemma unquote_plain (p : str) : Forall (fun x => x <> 37) p -> Posix.unquote p = p.
Proof. intros H. unfold Posix.unquote. rewrite (has_char_absent 37 p H). reflexivity. Qed.



Example drive_letter_reference_demo :
  to_uri_if_exists (Posix.lib [slash])
    (fun p => bool_decide (p = lit "/doc/Users/me/a.png")) (lit "/doc")
    (lit "C:/Users/me/a.png")
  = lit "file:///doc/Users/me/a.png".
Proof. vm_compute. reflexivity. Qed.
